(** * Header chain of the Electrum client: [lib/blockchain.py]

    A shallow embedding of the header codec, the difficulty engine, the
    per-segment header files and the fork registry of [lib/blockchain.py],
    together with the properties of the specification that were checked
    against it.

    Conventions.  Python integers are [Z]; [bytes] values are lists of
    [Byte.byte]; [str] values are lists of [ascii] (so that slicing is
    [take]/[drop] and [len] is [length]); exceptions are the [Raise] case of
    [result]; an open file is its content and a cursor; the header-files
    directory is a finite map from file names to contents; the module-level
    dictionary [blockchains] is a finite map from checkpoints to references
    into a store of [Blockchain] objects, so that two entries may alias the
    same object. *)

From Stdlib Require Import ZArith List Ascii String Lia.
From Stdlib.Strings Require Byte.
From stdpp Require Import base option list gmap.

Local Open Scope Z_scope.

(** ** Exceptions and results *)

(** The exception classes that the modelled code can raise.  Messages are
    kept for the two classes the source raises explicitly. *)
Inductive exn : Type :=
| BaseException (msg : string)
| Exception (msg : string)
| AssertionError
| TypeError (msg : string)
| ValueError
| AttributeError
| KeyError
| IndexError
| UnboundLocalError
| FileNotFoundError
| RecursionError
| struct_error
| binascii_Error.

Inductive result (A : Type) : Type :=
| Ok (a : A)
| Raise (e : exn).
Arguments Ok {A} a.
Arguments Raise {A} e.

Notation "'let*' x ':=' c1 'in' c2" :=
  (match c1 with Ok x => c2 | Raise e => Raise e end)
  (at level 10, x pattern, c1 at level 100, c2 at level 200).

Definition raises {A} (r : result A) : Prop := exists e, r = Raise e.
Definition returns {A} (r : result A) : Prop := exists a, r = Ok a.

(** ** Bytes and strings *)

Abbreviation byte := Byte.byte.
Abbreviation bytes := (list byte).
Abbreviation str := (list ascii).

Definition lit (x : string) : str := list_ascii_of_string x.

Definition byte_to_Z (b : byte) : Z := Z.of_N (Byte.to_N b).

Definition byte_of_Z (z : Z) : byte :=
  match Byte.of_N (Z.to_N (z mod 256)) with
  | Some b => b
  | None => Byte.x00
  end.

(** Little-endian value of a byte string. *)
Fixpoint le_to_Z (bs : bytes) : Z :=
  match bs with
  | [] => 0
  | b :: bs' => byte_to_Z b + 256 * le_to_Z bs'
  end.

(** The [n] low-order bytes of [z], least significant first. *)
Fixpoint le_of_Z (n : nat) (z : Z) : bytes :=
  match n with
  | O => []
  | S n' => byte_of_Z z :: le_of_Z n' (z / 256)
  end.

(** [struct.pack(fmt, v)] for the formats used by the codec: it raises
    [struct.error] when [v] is outside the range of the format. *)
Definition pack_unsigned (n : nat) (v : Z) : result bytes :=
  if (0 <=? v) && (v <? 256 ^ Z.of_nat n) then Ok (le_of_Z n v)
  else Raise struct_error.

Definition pack_i (v : Z) : result bytes :=          (* "<i" *)
  if (- 2 ^ 31 <=? v) && (v <? 2 ^ 31) then Ok (le_of_Z 4 v)
  else Raise struct_error.
Definition pack_I (v : Z) : result bytes := pack_unsigned 4 v.   (* "<I" *)

(** [struct.unpack(fmt, b)[0]] for an unsigned little-endian format of [n]
    bytes: it raises [struct.error] unless [b] has exactly [n] bytes. *)
Definition unpack_unsigned (n : nat) (b : bytes) : result Z :=
  if decide (length b = n) then Ok (le_to_Z b) else Raise struct_error.

Definition unpack_B := unpack_unsigned 1.
Definition unpack_H := unpack_unsigned 2.
Definition unpack_I := unpack_unsigned 4.
Definition unpack_Q := unpack_unsigned 8.

(** *** Hexadecimal *)

Definition hex_digit (d : Z) : ascii :=
  if d <? 10 then ascii_of_N (Z.to_N (48 + d)) else ascii_of_N (Z.to_N (87 + d)).

Definition hex_val (c : ascii) : option Z :=
  let n := Z.of_N (N_of_ascii c) in
  if (48 <=? n) && (n <=? 57) then Some (n - 48)
  else if (97 <=? n) && (n <=? 102) then Some (n - 87)
  else if (65 <=? n) && (n <=? 70) then Some (n - 55)
  else None.

(** [int(c, 16)] on a string of hexadecimal digits (after the ['0x']
    prefix): [ValueError] on any other character or on the empty string. *)
Fixpoint int16_acc (acc : Z) (c : str) : result Z :=
  match c with
  | [] => Ok acc
  | x :: c' =>
      match hex_val x with
      | Some d => int16_acc (16 * acc + d) c'
      | None => Raise ValueError
      end
  end.

Definition int16 (c : str) : result Z :=
  match c with
  | [] => Raise ValueError
  | _ => int16_acc 0 c
  end.

(** The [k] low-order hexadecimal digits of [n], most significant first. *)
Fixpoint hex_fixed (k : nat) (n : Z) : str :=
  match k with
  | O => []
  | S k' => hex_fixed k' (n / 16) ++ [hex_digit (n mod 16)]
  end.

(** Number of hexadecimal digits of a non-negative integer (one for 0). *)
Definition hex_len (n : Z) : nat :=
  if n =? 0 then 1%nat else Z.to_nat (Z.log2 n / 4 + 1).

(** ["%x" % n] for [n >= 0]. *)
Definition hex_min (n : Z) : str := hex_fixed (hex_len n) n.

(** ["%064x" % n]: zero padded to a total width of 64, the sign of a
    negative number taking one column. *)
Definition format_064x (n : Z) : str :=
  if 0 <=? n then hex_fixed (Nat.max 64 (hex_len n)) n
  else lit "-" ++ hex_fixed (Nat.max 63 (hex_len (- n))) (- n).

(** Modelled from the spec: [bfh] ([bytes.fromhex]) of [lib/bitcoin.py],
    which is not part of the sources at hand; a hash is "stored and
    displayed as a hex string": two digits per byte, [ValueError] on a
    dangling or non-hexadecimal digit. *)
Fixpoint bfh (x : str) : result bytes :=
  match x with
  | [] => Ok []
  | [_] => Raise ValueError
  | a :: b :: x' =>
      match hex_val a, hex_val b with
      | Some h, Some l => let* r := bfh x' in Ok (byte_of_Z (16 * h + l) :: r)
      | _, _ => Raise ValueError
      end
  end.

(** Modelled from the spec: [bh2u] of [lib/bitcoin.py] (lower-case
    hexadecimal of a byte string). *)
Definition bh2u (b : bytes) : str :=
  flat_map (fun x => [hex_digit (byte_to_Z x / 16); hex_digit (byte_to_Z x mod 16)]) b.

(** Modelled from the spec: [str_to_hash] and [hash_to_str] of
    [lib/bitcoin.py]: a hash is "stored and displayed as a hex string with
    byte order reversed relative to the stored hash's natural byte order".
    [None] is not a string: [str_to_hash(None)] is a [TypeError]. *)
Definition str_to_hash (x : option str) : result bytes :=
  match x with
  | None => Raise (TypeError "fromhex() argument must be str, not NoneType")
  | Some x => let* b := bfh x in Ok (rev b)
  end.

Definition hash_to_str (b : bytes) : str := bh2u (rev b).

(** Modelled from the spec: [uint256_from_bytes] of [lib/bitcoin.py]: "the
    serialized header interpreted as an unsigned integer", all multi-byte
    integers being little-endian; the first 32 bytes are used. *)
Definition uint256_from_bytes (b : bytes) : Z := le_to_Z (take 32 b).

(** *** Base64 (Python's [base64] module) *)

Definition b64_char (v : Z) : ascii :=
  if v <? 26 then ascii_of_N (Z.to_N (65 + v))
  else if v <? 52 then ascii_of_N (Z.to_N (71 + v))
  else if v <? 62 then ascii_of_N (Z.to_N (v - 4))
  else if v =? 62 then "+"%char else "/"%char.

Definition b64_val (c : ascii) : option Z :=
  let n := Z.of_N (N_of_ascii c) in
  if (65 <=? n) && (n <=? 90) then Some (n - 65)
  else if (97 <=? n) && (n <=? 122) then Some (n - 71)
  else if (48 <=? n) && (n <=? 57) then Some (n + 4)
  else if n =? 43 then Some 62
  else if n =? 47 then Some 63
  else None.

(** [base64.b64encode]: three bytes to four characters, ['='] padding. *)
Fixpoint b64encode (b : bytes) : str :=
  match b with
  | [] => []
  | [x] =>
      let x := byte_to_Z x in
      [b64_char (x / 4); b64_char (x mod 4 * 16); "="%char; "="%char]
  | [x; y] =>
      let x := byte_to_Z x in
      let y := byte_to_Z y in
      [b64_char (x / 4); b64_char (x mod 4 * 16 + y / 16);
       b64_char (y mod 16 * 4); "="%char]
  | x :: y :: z :: b' =>
      let x := byte_to_Z x in
      let y := byte_to_Z y in
      let z := byte_to_Z z in
      b64_char (x / 4) :: b64_char (x mod 4 * 16 + y / 16)
        :: b64_char (y mod 16 * 4 + z / 64) :: b64_char (z mod 64)
        :: b64encode b'
  end.

(** [base64.b64decode] with its default [validate=False]: characters
    outside the alphabet are discarded, a padding that completes the
    current quantum ends the input, and an incomplete final quantum is a
    [binascii.Error].  [quad] is the position in the current quantum,
    [left] its pending bits, [pads] the padding characters seen since the
    last data character, [out] the decoded bytes in reverse. *)
Fixpoint a2b_base64 (quad left pads : Z) (out : bytes) (c : str) : result bytes :=
  match c with
  | [] => if quad =? 0 then Ok (rev out) else Raise binascii_Error
  | x :: c' =>
      if Ascii.eqb x "="%char then
        if (2 <=? quad) && (4 <=? quad + (pads + 1)) then Ok (rev out)
        else a2b_base64 quad left (if 2 <=? quad then pads + 1 else pads) out c'
      else
        match b64_val x with
        | None => a2b_base64 quad left pads out c'
        | Some v =>
            if quad =? 0 then a2b_base64 1 v 0 out c'
            else if quad =? 1 then
              a2b_base64 2 (v mod 16) 0 (byte_of_Z (left * 4 + v / 16) :: out) c'
            else if quad =? 2 then
              a2b_base64 3 (v mod 4) 0 (byte_of_Z (left * 16 + v / 4) :: out) c'
            else a2b_base64 0 0 0 (byte_of_Z (left * 64 + v) :: out) c'
        end
  end.

Definition b64decode (c : str) : result bytes := a2b_base64 0 0 0 [] c.

(** *** Streams *)

(** An open binary file, or a [BytesIO]: the content and the cursor. *)
Record pyfile := mkFile { fdata : bytes; fpos : Z }.

Definition BytesIO (b : bytes) : pyfile := mkFile b 0.

Definition tell (f : pyfile) : Z := fpos f.
Definition flen (f : pyfile) : Z := Z.of_nat (length (fdata f)).

(** [f.seek(n, 0)], [f.seek(n, 1)] and [f.seek(0, 2)]; every offset the
    code passes is non-negative, and a seek beyond the end is allowed. *)
Definition seek_set (f : pyfile) (n : Z) : pyfile := mkFile (fdata f) n.
Definition seek_cur (f : pyfile) (n : Z) : pyfile := mkFile (fdata f) (fpos f + n).
Definition seek_end (f : pyfile) : pyfile := mkFile (fdata f) (flen f).

(** The bytes of [d] from offset [p], at most [n] of them. *)
Definition slice (d : bytes) (p n : Z) : bytes :=
  if Z.of_nat (length d) <=? p then []
  else take (Z.to_nat n) (drop (Z.to_nat p) d).

(** [f.read(n)] for [n >= 0]: at most [n] bytes from the cursor, which
    advances by the number of bytes read; nothing is read at or beyond the
    end. *)
Definition read (f : pyfile) (n : Z) : bytes * pyfile :=
  let d := slice (fdata f) (fpos f) n in
  (d, mkFile (fdata f) (fpos f + Z.of_nat (length d))).

(** [f.read()]: everything from the cursor to the end. *)
Definition read_all (f : pyfile) : bytes * pyfile :=
  read f (flen f).

(** *** Variable-length size prefix *)

(** Modelled from the spec: [ser_char_vector], [read_vector_size] and
    [deser_char_vector] of [lib/bitcoin.py]: the proof blob is written as
    "a compact variable-length size prefix (same encoding as the
    blockchain's native variable-length integer encoding) followed by that
    many raw bytes": one byte below 253, else a marker 253, 254 or 255
    followed by a 2-, 4- or 8-byte little-endian size. *)
Definition ser_compact_size (n : Z) : bytes :=
  if n <? 253 then le_of_Z 1 n
  else if n <? 2 ^ 16 then Byte.xfd :: le_of_Z 2 n
  else if n <? 2 ^ 32 then Byte.xfe :: le_of_Z 4 n
  else Byte.xff :: le_of_Z 8 n.

Definition ser_char_vector (l : bytes) : bytes :=
  ser_compact_size (Z.of_nat (length l)) ++ l.

Definition read_vector_size (f : pyfile) : result (Z * pyfile) :=
  let '(b, f) := read f 1 in
  let* nit := unpack_B b in
  if nit =? 253 then
    let '(b, f) := read f 2 in let* n := unpack_H b in Ok (n, f)
  else if nit =? 254 then
    let '(b, f) := read f 4 in let* n := unpack_I b in Ok (n, f)
  else if nit =? 255 then
    let '(b, f) := read f 8 in let* n := unpack_Q b in Ok (n, f)
  else Ok (nit, f).

(** A stream that ends before the announced number of bytes is an error
    (the specification's [TruncatedRecordError]). *)
Definition deser_char_vector (f : pyfile) : result (bytes * pyfile) :=
  let* (n, f) := read_vector_size f in
  let '(b, f) := read f n in
  if Z.of_nat (length b) =? n then Ok (b, f) else Raise struct_error.

(** The fixed part of a record: 4 + 32 + 32 + 32 + 4 + 4 + 32 bytes.
    Modelled from the spec: [bitcoin.BASIC_HEADER_SIZE], "fixed 140-byte
    skips". *)
Definition BASIC_HEADER_SIZE : Z := 140.

(** ** Headers *)

(** A header is a Python dictionary; its keys are the fields below.
    [prev_block_hash] may be absent ([None]), which [hash_header] tests
    for; [block_height] is not part of the stored bytes. *)
Record header := mkHeader {
  version : Z;
  prev_block_hash : option str;
  merkle_root : str;
  hash_reserved : str;
  timestamp : Z;
  bits : Z;
  nonce : str;
  n_solution : str;
  block_height : Z
}.

Definition set_prev_block_hash (h : header) (p : option str) : header :=
  mkHeader (version h) p (merkle_root h) (hash_reserved h) (timestamp h)
           (bits h) (nonce h) (n_solution h) (block_height h).

Definition set_block_height (h : header) (height : Z) : header :=
  mkHeader (version h) (prev_block_hash h) (merkle_root h) (hash_reserved h)
           (timestamp h) (bits h) (nonce h) (n_solution h) height.

Definition MAX_TARGET : Z :=
  0x00000000FFFF0000000000000000000000000000000000000000000000000000.

Definition serialize_header (res : header) : result bytes :=
  let* r1 := pack_i (version res) in
  let* r2 := str_to_hash (prev_block_hash res) in
  let* r3 := str_to_hash (Some (merkle_root res)) in
  let* r4 := str_to_hash (Some (hash_reserved res)) in
  let* r5 := pack_I (timestamp res) in
  let* r6 := pack_I (bits res) in
  let* r7 := str_to_hash (Some (nonce res)) in
  let* sol := b64decode (n_solution res) in
  Ok (r1 ++ r2 ++ r3 ++ r4 ++ r5 ++ r6 ++ r7 ++ ser_char_vector sol).

Definition deserialize_header (f : pyfile) (height : Z) : result (header * pyfile) :=
  let '(b, f) := read f 4 in
  let* h_version := unpack_I b in
  let '(b, f) := read f 32 in
  let h_prev := hash_to_str b in
  let '(b, f) := read f 32 in
  let h_merkle := hash_to_str b in
  let '(b, f) := read f 32 in
  let h_reserved := hash_to_str b in
  let '(b, f) := read f 4 in
  let* h_timestamp := unpack_I b in
  let '(b, f) := read f 4 in
  let* h_bits := unpack_I b in
  let '(b, f) := read f 32 in
  let h_nonce := hash_to_str b in
  let* (sol, f) := deser_char_vector f in
  Ok (mkHeader h_version (Some h_prev) h_merkle h_reserved h_timestamp h_bits
               h_nonce (b64encode sol) height, f).

(** ** Collaborators that are not part of this module *)

(** [Hash] is the double SHA-256 of [lib/bitcoin.py], [is_gbp_valid] the
    Equihash verifier of [lib/equihash.py], [vector_from_bytes] the
    conversion of the solution applied before the verifier is called. *)
Record Externals := mkExternals {
  Hash : bytes -> bytes;
  vector_from_bytes : bytes -> list Z;
  is_gbp_valid : bytes -> Z -> list Z -> Z -> Z -> bool
}.

(** [bitcoin.NetworkConstants]. *)
Record NetworkConstants := mkNetworkConstants {
  TESTNET : bool;
  GENESIS : str;
  CHECKPOINTS : list (str * Z);
  EQUIHASH_N : Z;
  EQUIHASH_K : Z
}.

(** ** Difficulty *)

Definition bits_to_target (bits : Z) : result Z :=
  let bitsN := Z.land (Z.shiftr bits 24) 0xff in
  if negb ((0x03 <=? bitsN) && (bitsN <=? 0x1d)) then
    Raise (BaseException "First part of bits should be in [0x03, 0x1d]")
  else
    let bitsBase := Z.land bits 0xffffff in
    if negb ((0x8000 <=? bitsBase) && (bitsBase <=? 0x7fffff)) then
      Raise (BaseException "Second part of bits should be in [0x8000, 0x7fffff]")
    else Ok (Z.shiftl bitsBase (8 * (bitsN - 3))).

(** [while c[:2] == '00' and len(c) > 6: c = c[2:]] *)
Fixpoint strip_zero_bytes (c : str) : str :=
  match c with
  | a :: b :: c' =>
      if Ascii.eqb a "0" && Ascii.eqb b "0" && (6 <? Z.of_nat (length c))
      then strip_zero_bytes c' else c
  | _ => c
  end.

Definition target_to_bits (target : Z) : result Z :=
  let c := drop 2 (format_064x target) in
  let c := strip_zero_bytes c in
  let bitsN := Z.of_nat (length c) / 2 in
  let* bitsBase := int16 (take 6 c) in
  let '(bitsN, bitsBase) :=
    if 0x800000 <=? bitsBase then (bitsN + 1, Z.shiftr bitsBase 8)
    else (bitsN, bitsBase) in
  Ok (Z.lor (Z.shiftl bitsN 24) bitsBase).

(** ** Header files *)

(** The name of a segment's file, [Blockchain.path]:
    ['blockchain_headers'] for the root segment ([None]) and
    ['forks/fork_%d_%d' % (parent_id, checkpoint)] otherwise. *)
Abbreviation filename := (option (Z * Z)).

(** A [Blockchain] object: the attributes that the modelled methods read
    or assign.  [old_path] exists only once [swap_with_parent] has set it. *)
Record Blockchain := mkBlockchain {
  checkpoint : Z;
  parent_id : option Z;
  _size : Z;
  old_path : option filename
}.

Definition set_checkpoint (b : Blockchain) (c : Z) : Blockchain :=
  mkBlockchain c (parent_id b) (_size b) (old_path b).
Definition set_parent_id (b : Blockchain) (p : option Z) : Blockchain :=
  mkBlockchain (checkpoint b) p (_size b) (old_path b).
Definition set_size (b : Blockchain) (n : Z) : Blockchain :=
  mkBlockchain (checkpoint b) (parent_id b) n (old_path b).
Definition set_old_path (b : Blockchain) (p : option filename) : Blockchain :=
  mkBlockchain (checkpoint b) (parent_id b) (_size b) p.

Definition path (b : Blockchain) : filename :=
  match parent_id b with
  | None => None
  | Some p => Some (p, checkpoint b)
  end.

(** Objects are referred to by address; [objs] is the store, [files] the
    headers directory, [blockchains] the module-level registry. *)
Definition ref := nat.
#[global] Instance ref_eq_dec : EqDecision ref := Nat.eq_dec.

Record world := mkWorld {
  files : gmap filename bytes;
  objs : ref -> Blockchain;
  blockchains : gmap Z ref
}.

Definition set_files (w : world) (fs : gmap filename bytes) : world :=
  mkWorld fs (objs w) (blockchains w).
Definition set_obj (w : world) (r : ref) (b : Blockchain) : world :=
  mkWorld (files w) (fun r' => if decide (r' = r) then b else objs w r') (blockchains w).
Definition set_registry (w : world) (k : Z) (r : ref) : world :=
  mkWorld (files w) (objs w) (<[k := r]> (blockchains w)).

(** The outcome of a method that changes the world step by step: the
    world it leaves behind, and the exception if it was left by one. *)
Inductive outcome : Type :=
| Done (w : world)
| Failed (w : world) (e : exn).

Definition world_of (o : outcome) : world :=
  match o with Done w => w | Failed w _ => w end.

Notation "'let?' x ':=' c 'or_fail' w 'in' k" :=
  (match c with Ok x => k | Raise e => Failed w e end)
  (at level 10, x pattern, c at level 100, w at level 0, k at level 200).
Notation "'do' w ':=' c 'in' k" :=
  (match c with Done w => k | Failed w' e => Failed w' e end)
  (at level 10, w name, c at level 100, k at level 200).

(** One pass of the scanning loops: skip the fixed part, read the size
    prefix, skip the blob. *)
Definition skip_record (f : pyfile) : result pyfile :=
  let f := seek_cur f BASIC_HEADER_SIZE in
  let* (vs, f) := read_vector_size f in
  Ok (seek_cur f vs).

(** The [while True] loop of [update_size], left by the [break] of its
    [except] clause; [None] when [fuel] passes are not enough. *)
Fixpoint update_size_loop (fuel : nat) (f : pyfile) (eof size : Z) : option Z :=
  match fuel with
  | O => None
  | S fuel' =>
      match skip_record f with
      | Raise _ => Some size
      | Ok f =>
          update_size_loop fuel' f eof (if tell f <? eof then size + 1 else size)
      end
  end.

(** The body of [update_size] on an existing file.  Every pass that does
    not raise moves the cursor forward by at least 141 bytes, so one pass
    per byte of the file and one more are enough: the [None] case does not
    occur (see [update_size_loop_total]). *)
Definition count_records (content : bytes) : Z :=
  let f := BytesIO content in
  let f := seek_end f in
  let eof := tell f in
  let f := seek_set f 0 in
  match update_size_loop (S (length content)) f eof 0 with
  | Some n => n
  | None => 0
  end.

(** The [for i in range(delta)] loop of [read_header], which has no
    end-of-file test. *)
Fixpoint skip_n (n : nat) (f : pyfile) : result pyfile :=
  match n with
  | O => Ok f
  | S n' => let* f := skip_record f in skip_n n' f
  end.

(** The [for i in range(height)] loop of [_height_to_offset]. *)
Fixpoint skip_records (n : nat) (f : pyfile) (eof : Z) : result pyfile :=
  match n with
  | O => Ok f
  | S n' =>
      let* f := skip_record f in
      if eof <=? tell f then Raise (Exception "Out of file")
      else skip_records n' f eof
  end.

Definition _height_to_offset (f : pyfile) (height : Z) (start : Z)
  : result (Z * pyfile) :=
  let pos := tell f in
  let f := seek_end f in
  let eof := tell f in
  let f := seek_set f start in
  let* f := skip_records (Z.to_nat height) f eof in
  let f := seek_set f pos in
  Ok (tell f, f).

(** [f.write(data)] at the cursor: the bytes under the cursor are
    overwritten, the file grows as needed, and a cursor beyond the end
    leaves a gap of zero bytes. *)
Definition write_bytes (f : pyfile) (data : bytes) : pyfile :=
  let p := Z.to_nat (fpos f) in
  let d := fdata f in
  mkFile (take p d ++ replicate (p - length d) Byte.x00 ++ data
            ++ drop (p + length data) d)
         (fpos f + Z.of_nat (length data)).

(** [f.truncate()]: the file is cut at the cursor. *)
Definition truncate (f : pyfile) : pyfile :=
  mkFile (take (Z.to_nat (fpos f)) (fdata f)) (fpos f).

Definition open_file (w : world) (p : filename) : result pyfile :=
  match files w !! p with
  | Some d => Ok (BytesIO d)
  | None => Raise FileNotFoundError
  end.

(** [os.rename]. *)
Definition rename (w : world) (old new : filename) : result world :=
  match files w !! old with
  | Some d => Ok (set_files w (<[new := d]> (delete old (files w))))
  | None => Raise FileNotFoundError
  end.

Section Chain.

Context (ext : Externals) (net : NetworkConstants).

(** The number of nested calls the interpreter still allows; a chain of
    parents longer than that is a [RecursionError]. *)
Context (recursion_limit : nat).

Definition sha256_header (h : header) : result Z :=
  let* b := serialize_header h in
  Ok (uint256_from_bytes (Hash ext b)).

(** [hash_header] updates its argument in place when [prev_block_hash] is
    absent; the dictionary as the caller sees it after the call is the
    first component, the value returned or the exception raised is the
    second. *)
Definition hash_header (h : option header) : option header * result str :=
  match h with
  | None => (None, Ok (replicate 64 "0"%char))
  | Some h =>
      let h :=
        match prev_block_hash h with
        | None => set_prev_block_hash h (Some (concat (replicate 64 (lit "00"))))
        | Some _ => h
        end in
      (Some h, let* b := serialize_header h in Ok (hash_to_str (Hash ext b)))
  end.

(** [Blockchain.verify_header].  The last line of the insufficient-work
    test builds its message with [int('0x' + _powhash, 16)], and [_powhash]
    is the integer returned by [sha256_header]: the concatenation raises
    [TypeError] before [BaseException] is constructed.  The update that
    [hash_header] may make to [prev_header] does not influence the
    outcome. *)
Definition verify_header (h : header) (prev_header : option header) (target : Z)
  : result unit :=
  let* prev_hash := snd (hash_header prev_header) in
  let* _powhash := sha256_header h in
  if negb (bool_decide (Some prev_hash = prev_block_hash h)) then
    Raise (BaseException "prev hash mismatch")
  else
    let* target := bits_to_target (bits h) in
    if target <? _powhash then
      Raise (TypeError "can only concatenate str (not int) to str")
    else
      let* nonce_bytes := str_to_hash (Some (nonce h)) in
      let nonce := uint256_from_bytes nonce_bytes in
      let* sol := b64decode (n_solution h) in
      let n_solution := vector_from_bytes ext sol in
      let* b := serialize_header h in
      if negb (is_gbp_valid ext b nonce n_solution (EQUIHASH_N net) (EQUIHASH_K net))
      then Raise (BaseException "Equihash invalid")
      else Ok tt.

(** *** Segments *)

Definition parent (w : world) (self : ref) : result ref :=
  match parent_id (objs w self) with
  | None => Raise KeyError
  | Some p =>
      match blockchains w !! p with
      | Some r => Ok r
      | None => Raise KeyError
      end
  end.

Definition size (w : world) (self : ref) : Z := _size (objs w self).

Definition height (w : world) (self : ref) : Z :=
  checkpoint (objs w self) + size w self - 1.

Definition update_size (w : world) (self : ref) : world :=
  let p := path (objs w self) in
  let w := set_obj w self (set_size (objs w self) 0) in
  match files w !! p with
  | None => w
  | Some content => set_obj w self (set_size (objs w self) (count_records content))
  end.

Definition write (w : world) (self : ref) (data : bytes) (delta : Z)
    (trunc : bool) : result world :=
  let name := path (objs w self) in
  let* f := open_file w name in
  let f := seek_end f in
  let eof := tell f in
  let* (offset, f) := _height_to_offset f delta 0 in
  let f := seek_set f offset in
  let f := if trunc && (offset <? eof) then truncate f else f in
  let f := write_bytes f data in
  let w := set_files w (<[name := fdata f]> (files w)) in
  Ok (update_size w self).

Fixpoint read_header_rec (depth : nat) (w : world) (self : ref) (height_ : Z)
  : result (option header) :=
  match depth with
  | O => Raise RecursionError
  | S depth' =>
      let b := objs w self in
      if bool_decide (parent_id b = Some (checkpoint b)) then Raise AssertionError
      else if height_ <? 0 then Ok None
      else if height_ <? checkpoint b then
        let* p := parent w self in
        read_header_rec depth' w p height_
      else if height w self <? height_ then Ok None
      else
        let delta := height_ - checkpoint b in
        match files w !! path b with
        | None => Raise UnboundLocalError
        | Some content =>
            let f := BytesIO content in
            let* f := skip_n (Z.to_nat delta) f in
            let* (h, _) := deserialize_header f height_ in
            Ok (Some h)
        end
  end.

Definition read_header := read_header_rec recursion_limit.

(** [self.checkpoints[index]]: a negative index counts from the end. *)
Definition checkpoints_at (index : Z) : result (str * Z) :=
  let l := CHECKPOINTS net in
  let i := if index <? 0 then Z.of_nat (length l) + index else index in
  if i <? 0 then Raise IndexError
  else match l !! Z.to_nat i with
       | Some c => Ok c
       | None => Raise IndexError
       end.

Definition get_target (w : world) (self : ref) (index : Z) : result Z :=
  if TESTNET net then Ok 0
  else if index =? -1 then Ok MAX_TARGET
  else if index <? Z.of_nat (length (CHECKPOINTS net)) then
    let* (h, t) := checkpoints_at index in Ok t
  else
    let* first := read_header w self (index * 2016) in
    let* last := read_header w self (index * 2016 + 2015) in
    match last with
    | None => Raise AttributeError
    | Some last =>
        let* target := bits_to_target (bits last) in
        match first with
        | None => Raise AttributeError
        | Some first =>
            let nActualTimespan := timestamp last - timestamp first in
            let nTargetTimespan := 14 * 24 * 60 * 60 in
            let nActualTimespan := Z.max nActualTimespan (nTargetTimespan / 4) in
            let nActualTimespan := Z.min nActualTimespan (nTargetTimespan * 4) in
            let new_target :=
              Z.min MAX_TARGET (target * nActualTimespan / nTargetTimespan) in
            Ok new_target
        end
    end.

(** The objects of the registry, [blockchains.values()], here in the order
    of their keys; Python lists them in the order of insertion. *)
Definition registry_values (w : world) : list ref :=
  snd <$> map_to_list (blockchains w).

(** [for b in blockchains.values(): b.old_path = b.path()] *)
Definition store_paths (w : world) : world :=
  foldl (fun w b => set_obj w b (set_old_path (objs w b) (Some (path (objs w b)))))
        w (registry_values w).

(** The renaming loop of [swap_with_parent]. *)
Fixpoint move_files (w : world) (self parent_ : ref) (bs : list ref) : outcome :=
  match bs with
  | [] => Done w
  | b :: bs' =>
      if bool_decide (b = self) || bool_decide (b = parent_) then
        move_files w self parent_ bs'
      else
        match old_path (objs w b) with
        | None => Failed w AttributeError
        | Some old =>
            if bool_decide (old = path (objs w b)) then move_files w self parent_ bs'
            else let? w := rename w old (path (objs w b)) or_fail w in
                 move_files w self parent_ bs'
        end
  end.

(** The three assignments under [# swap parameters], each a pair of
    attribute updates made one after the other. *)
Definition swap_parameters (w : world) (self parent_ : ref)
    (parent_id_ : option Z) (checkpoint_ parent_branch_size : Z) : world :=
  let w := set_obj w self (set_parent_id (objs w self) (parent_id (objs w parent_))) in
  let w := set_obj w parent_ (set_parent_id (objs w parent_) parent_id_) in
  let w := set_obj w self (set_checkpoint (objs w self) (checkpoint (objs w parent_))) in
  let w := set_obj w parent_ (set_checkpoint (objs w parent_) checkpoint_) in
  let w := set_obj w self (set_size (objs w self) (_size (objs w parent_))) in
  let w := set_obj w parent_ (set_size (objs w parent_) parent_branch_size) in
  w.

(** The two assignments under [# update pointers]. *)
Definition update_pointers (w : world) (self parent_ : ref) : world :=
  let w := set_registry w (checkpoint (objs w self)) self in
  let w := set_registry w (checkpoint (objs w parent_)) parent_ in
  w.

(** [write] either completes or raises before it has changed anything,
    so its result is a [result]; [swap_with_parent] and its callers can be
    left by an exception after a first change, so theirs is an [outcome]. *)
Definition swap_with_parent (w : world) (self : ref) : outcome :=
  match parent_id (objs w self) with
  | None => Done w
  | Some parent_id_ =>
      let? parent_ := parent w self or_fail w in
      let parent_branch_size := height w parent_ - checkpoint (objs w self) + 1 in
      if size w self <=? parent_branch_size then Done w
      else
        let checkpoint_ := checkpoint (objs w self) in
        let? f := open_file w (path (objs w self)) or_fail w in
        let '(my_data, _) := read_all f in
        let? f := open_file w (path (objs w parent_)) or_fail w in
        let? (offset, f) :=
          _height_to_offset f (checkpoint_ - checkpoint (objs w parent_)) 0 or_fail w in
        let? (length_, f) := _height_to_offset f parent_branch_size offset or_fail w in
        let f := seek_set f offset in
        let '(parent_data, _) := read f length_ in
        let? w := write w self parent_data 0 false or_fail w in
        let? w :=
          write w parent_ my_data (checkpoint_ - checkpoint (objs w parent_)) false
          or_fail w in
        (* store file path *)
        let w := store_paths w in
        (* swap parameters *)
        let w :=
          swap_parameters w self parent_ (Some parent_id_) checkpoint_
                          parent_branch_size in
        (* move files *)
        do w := move_files w self parent_ (registry_values w) in
        (* update pointers *)
        Done (update_pointers w self parent_)
  end.

Definition save_header (w : world) (self : ref) (h : header) : outcome :=
  let delta := block_height h - checkpoint (objs w self) in
  let? data := serialize_header h or_fail w in
  if negb (delta =? size w self) then Failed w AssertionError
  else
    let? w := write w self data delta false or_fail w in
    swap_with_parent w self.

Definition save_chunk (w : world) (self : ref) (index : Z) (chunk : bytes)
  : outcome :=
  let name := path (objs w self) in
  let? f := open_file w name or_fail w in
  let? (d, _) :=
    _height_to_offset f (index * 2016 - checkpoint (objs w self)) 0 or_fail w in
  let '(chunk, d) :=
    if d <? 0 then (drop (Z.to_nat (- d)) chunk, 0) else (chunk, d) in
  let? w :=
    write w self chunk d (Z.of_nat (length (CHECKPOINTS net)) <? index) or_fail w in
  swap_with_parent w self.

(** [Blockchain.verify_chunk].  The module is Python 3 code (it builds
    [bytes] with [b''] and [str.encode], and writes [//] where it wants an
    integer quotient), so [num = len(data) / 1484] is a true division:
    [num] is a [float] whatever the length, and [range(num)] raises
    [TypeError] before the first pass of the loop.  The body of the loop is
    never entered. *)
Definition verify_chunk (w : world) (self : ref) (index : Z) (data : bytes)
  : result unit :=
  let* prev_header :=
    if negb (index =? 0) then read_header w self (index * 2016 - 1) else Ok None in
  Raise (TypeError "'float' object cannot be interpreted as an integer").

Definition can_connect (w : world) (self : ref) (h : header) (check_height : bool)
  : result bool :=
  let height_ := block_height h in
  if check_height && negb (height w self =? height_ - 1) then Ok false
  else if height_ =? 0 then
    let* hh := snd (hash_header (Some h)) in
    Ok (bool_decide (hh = GENESIS net))
  else
    match
      (let* prev_header := read_header w self (height_ - 1) in
       let '(prev_header, r) := hash_header prev_header in
       let* prev_hash := r in
       Ok (prev_header, prev_hash))
    with
    | Raise _ => Ok false
    | Ok (prev_header, prev_hash) =>
        if negb (bool_decide (Some prev_hash = prev_block_hash h)) then Ok false
        else
          let* target := get_target w self (height_ / 2016 - 1) in
          match verify_header h prev_header target with
          | Raise _ => Ok false
          | Ok _ => Ok true
          end
    end.


Definition connect_chunk (w : world) (self : ref) (idx : Z) (hexdata : str)
  : world * bool :=
  match bfh hexdata with
  | Raise _ => (w, false)
  | Ok data =>
      match verify_chunk w self idx data with
      | Raise _ => (w, false)
      | Ok _ =>
          match save_chunk w self idx data with
          | Done w => (w, true)
          | Failed w _ => (w, false)
          end
      end
  end.

End Chain.

(** ** The rest of the segment interface *)

Section Registry.

Context (ext : Externals) (net : NetworkConstants) (recursion_limit : nat).

(** [Blockchain.__init__]: the attributes are set and the size is computed
    from the file that the new object's path names, if there is one.  [r]
    is the address of the new object. *)
Definition Blockchain_init (w : world) (r : ref) (checkpoint_ : Z)
    (parent_id_ : option Z) : world :=
  update_size (set_obj w r (mkBlockchain checkpoint_ parent_id_ 0 None)) r.

(** [Blockchain.get_hash]. *)
Definition get_hash (w : world) (self : ref) (height_ : Z) : result str :=
  let* h := read_header recursion_limit w self height_ in
  snd (hash_header ext h).

(** [Blockchain.check_header]; the update that [hash_header] may make to
    the caller's header is not part of the result. *)
Definition check_header (w : world) (self : ref) (h : header) : result bool :=
  let* header_hash := snd (hash_header ext (Some h)) in
  let height_ := block_height h in
  let* stored := get_hash w self height_ in
  Ok (bool_decide (header_hash = stored)).

(** [max(l)] for a non-empty list of integers. *)
Fixpoint list_max (x : Z) (l : list Z) : Z :=
  match l with
  | [] => x
  | y :: l' => list_max (Z.max x y) l'
  end.

(** [Blockchain.get_max_child]: the objects of the registry whose
    [parent_id] is this segment's checkpoint. *)
Definition children (w : world) (self : ref) (bs : list ref) : list ref :=
  filter (fun y => parent_id (objs w y) = Some (checkpoint (objs w self))) bs.

Definition get_max_child (w : world) (self : ref) : option Z :=
  match (fun x => checkpoint (objs w x)) <$> children w self (registry_values w) with
  | [] => None
  | c :: cs => Some (list_max c cs)
  end.

Definition get_checkpoint (w : world) (self : ref) : Z :=
  match get_max_child w self with
  | Some mc => mc
  | None => checkpoint (objs w self)
  end.

Definition get_branch_size (w : world) (self : ref) : Z :=
  height w self - get_checkpoint w self + 1.

(** [s.lstrip('00')]: the argument is a set of characters, so every
    leading ['0'] is removed. *)
Fixpoint lstrip_zeros (x : str) : str :=
  match x with
  | c :: x' => if Ascii.eqb c "0" then lstrip_zeros x' else x
  | [] => []
  end.

Definition get_name (w : world) (self : ref) : result str :=
  let* hh := get_hash w self (get_checkpoint w self) in
  Ok (take 10 (lstrip_zeros hh)).

(** [Blockchain.fork]: a new object at address [r], an empty file under
    its path, and the header as its first record. *)
Definition fork (w : world) (parent_ r : ref) (h : header) : outcome :=
  let checkpoint_ := block_height h in
  let w := Blockchain_init w r checkpoint_ (Some (checkpoint (objs w parent_))) in
  let w := set_files w (<[path (objs w r) := []]> (files w)) in
  save_header w r h.

(** The loop of [Blockchain.get_checkpoints]. *)
Fixpoint get_checkpoints_loop (w : world) (self : ref) (indices : list Z)
  : result (list (str * Z)) :=
  match indices with
  | [] => Ok []
  | index :: rest =>
      let* h := get_hash w self ((index + 1) * 2016 - 1) in
      let* target := get_target net recursion_limit w self index in
      let* cp := get_checkpoints_loop w self rest in
      Ok ((h, target) :: cp)
  end.

Definition get_checkpoints (w : world) (self : ref) : result (list (str * Z)) :=
  let n := height w self / 2016 in
  get_checkpoints_loop w self (Z.of_nat <$> seq 0 (Z.to_nat n)).

(** The module-level [check_header] and [can_connect]: the first segment,
    in the order [bs] in which [blockchains.values()] lists them, whose
    method answers [True]; [None] stands for the [False] they return
    otherwise.  A header that is not a dictionary is [None]. *)
Fixpoint check_header_loop (w : world) (bs : list ref) (h : header)
  : result (option ref) :=
  match bs with
  | [] => Ok None
  | b :: bs' =>
      let* found := check_header w b h in
      if found then Ok (Some b) else check_header_loop w bs' h
  end.

Definition check_header_any (w : world) (bs : list ref) (h : option header)
  : result (option ref) :=
  match h with
  | None => Ok None
  | Some h => check_header_loop w bs h
  end.

Fixpoint can_connect_any (w : world) (bs : list ref) (h : header)
  : result (option ref) :=
  match bs with
  | [] => Ok None
  | b :: bs' =>
      let* ok := can_connect ext net recursion_limit w b h true in
      if ok then Ok (Some b) else can_connect_any w bs' h
  end.

End Registry.

(** ** Start-up *)

Section Startup.

Context (ext : Externals) (net : NetworkConstants) (recursion_limit : nat).

(** [sorted(l, key = lambda x: int(x.split('_')[1]))]: a stable sort of the
    fork files by the parent they name.  A file ['fork_%d_%d' % (p, c)] is
    the pair [(p, c)]. *)
Fixpoint insert_by_parent (x : Z * Z) (l : list (Z * Z)) : list (Z * Z) :=
  match l with
  | [] => [x]
  | y :: l' => if fst x <=? fst y then x :: y :: l' else y :: insert_by_parent x l'
  end.

Definition sorted_by_parent (l : list (Z * Z)) : list (Z * Z) :=
  foldr insert_by_parent [] l.

(** The loop of [read_blockchains]; [r] is the address of the next new
    object.  [can_connect] subscripts the header it is given, so the
    [None] of [read_header] is a [TypeError]. *)
Fixpoint read_forks (w : world) (r : ref) (l : list (Z * Z)) : outcome :=
  match l with
  | [] => Done w
  | (parent_id_, checkpoint_) :: l' =>
      let w := Blockchain_init w r checkpoint_ (Some parent_id_) in
      let? h := read_header recursion_limit w r (checkpoint (objs w r)) or_fail w in
      let? p := parent w r or_fail w in
      match h with
      | None => Failed w (TypeError "'NoneType' object is not subscriptable")
      | Some h =>
          let? ok := can_connect ext net recursion_limit w p h false or_fail w in
          if ok then read_forks (set_registry w (checkpoint (objs w r)) r) (S r) l'
          else read_forks w (S r) l'
      end
  end.

(** [read_blockchains]: [listing] is what [os.listdir] gives for the forks
    directory, restricted to the names that start with ['fork_'], all of
    them of the form that [path] produces; the new objects take the
    addresses from [r] on; the result is the registry of the final world. *)
Definition read_blockchains (w : world) (r : ref) (listing : list (Z * Z)) : outcome :=
  let w := Blockchain_init w r 0 None in
  let w := set_registry w 0 r in
  read_forks w (S r) (sorted_by_parent listing).

End Startup.

(** ** Valid headers *)

Definition set_version (h : header) (v : Z) : header :=
  mkHeader v (prev_block_hash h) (merkle_root h) (hash_reserved h) (timestamp h)
           (bits h) (nonce h) (n_solution h) (block_height h).

(** The displayed form of a 32-byte hash. *)
Definition is_hash_str (x : str) : Prop :=
  exists b : bytes, length b = 32%nat /\ x = hash_to_str b.

(** A header as the data model of the specification describes it: a signed
    32-bit version, three hashes and a nonce of 32 bytes each, unsigned
    32-bit timestamp and bits, and a solution given in base 64. *)
Definition valid_header (h : header) : Prop :=
  - 2 ^ 31 <= version h < 2 ^ 31 /\
  (exists p, prev_block_hash h = Some p /\ is_hash_str p) /\
  is_hash_str (merkle_root h) /\
  is_hash_str (hash_reserved h) /\
  0 <= timestamp h < 2 ^ 32 /\
  0 <= bits h < 2 ^ 32 /\
  is_hash_str (nonce h) /\
  (exists sol : bytes, Z.of_nat (length sol) < 2 ^ 64 /\ n_solution h = b64encode sol).

(** ** Complete records *)

(** A complete record as the specification describes it: "a 140-byte fixed
    part followed by a size-prefixed proof blob". *)
Definition is_record (r : bytes) : Prop :=
  exists fixed sol,
    length fixed = 140%nat /\ Z.of_nat (length sol) < 2 ^ 64 /\
    r = fixed ++ ser_char_vector sol.

(** The bytes of a record, field by field: version, three hashes,
    timestamp, bits, nonce and the size-prefixed solution. *)
Definition record_layout (v : Z) (b1 b2 b3 : bytes) (ts bt : Z) (b4 sol : bytes) : bytes :=
  le_of_Z 4 v ++ b1 ++ b2 ++ b3 ++ le_of_Z 4 ts ++ le_of_Z 4 bt ++ b4
    ++ ser_char_vector sol.

(** A character that [int(c, 16)] accepts as a digit. *)
Definition is_hex (c : ascii) : Prop := is_Some (hex_val c).

(** ** Sample data used to evaluate the model *)

(** The hexadecimal form of a 32-byte zero hash: ['0' * 64]. *)
Definition zero_hash : str := replicate 64 "0"%char.

(** A header with an empty solution, of version [v] and height [ht]. *)
Definition sample_header (v ht : Z) : header :=
  mkHeader v (Some zero_hash) zero_hash zero_hash 0 0x1d00ffff zero_hash [] ht.

(** Its record: 140 bytes and the size byte of the empty solution. *)
Definition sample_record (v : Z) : bytes :=
  le_of_Z 4 v ++ replicate 96 Byte.x00 ++ le_of_Z 4 0 ++ le_of_Z 4 0x1d00ffff
    ++ replicate 32 Byte.x00 ++ [Byte.x00].

(** Stand-ins for the collaborators: a hash function whose value is the
    integer 1 on every input, and a verifier that accepts every solution. *)
Definition sample_ext : Externals :=
  mkExternals (fun _ => Byte.x01 :: replicate 31 Byte.x00)
              (map byte_to_Z)
              (fun _ _ _ _ _ => true).

(** A main-net configuration without embedded checkpoints. *)
Definition sample_net : NetworkConstants :=
  mkNetworkConstants false zero_hash [] 200 9.

Definition ROOT : ref := 0%nat.
Definition FORK : ref := 1%nat.

(** A root segment whose file holds the records [P0 P1] and a fork at
    height 1 whose file holds [F1]; the cached sizes are the ones
    [update_size] computes for these files. *)
Definition fork_world : world :=
  mkWorld {[ None := sample_record 10 ++ sample_record 11;
             Some (0, 1) := sample_record 21 ]}
          (fun r => if decide (r = FORK) then mkBlockchain 1 (Some 0) 0 None
                    else mkBlockchain 0 None 1 None)
          {[ 0 := ROOT; 1 := FORK ]}.

(** [fork_world] once [F2] has been written to the fork's file. *)
Definition appended_fork_world : world :=
  mkWorld {[ None := sample_record 10 ++ sample_record 11;
             Some (0, 1) := sample_record 21 ++ sample_record 22 ]}
          (fun r => if decide (r = FORK) then mkBlockchain 1 (Some 0) 1 None
                    else mkBlockchain 0 None 1 None)
          {[ 0 := ROOT; 1 := FORK ]}.

(** A root segment with an existing, empty headers file. *)
Definition empty_world : world :=
  mkWorld {[ None := [] ]} (fun _ => mkBlockchain 0 None 0 None) {[ 0 := ROOT ]}.


(** The record of a header that serialises. *)
Definition record_of (h : header) : bytes :=
  match serialize_header h with Ok b => b | Raise _ => [] end.

(** A header with an empty solution, of timestamp [ts] and height [ht]. *)
Definition timed_header (ts ht : Z) : header :=
  mkHeader 4 (Some zero_hash) zero_hash zero_hash ts 0x1d00ffff zero_hash [] ht.

(** A root segment that holds the header of height 0 and a segment that
    starts at height 2015, the last height of period 0. *)
Definition retarget_world : world :=
  mkWorld {[ None := record_of (timed_header 1000 0) ++ record_of (timed_header 1600 1);
             Some (0, 2015) := record_of (timed_header 2001000 2015)
                                 ++ record_of (timed_header 2001600 2016) ]}
          (fun r => if decide (r = FORK) then mkBlockchain 2015 (Some 0) 1 None
                    else mkBlockchain 0 None 1 None)
          {[ 0 := ROOT; 2015 := FORK ]}.

(** The displayed form of the hash that [sample_ext] gives every input. *)
Definition sample_hash : str := hash_to_str (Hash sample_ext []).

(** A header of height 1 that names [sample_hash] as its predecessor. *)
Definition linked_header : header :=
  set_prev_block_hash (sample_header 4 1) (Some sample_hash).

(** [fork_world] without the file of the fork. *)
Definition root_file_world : world :=
  set_files fork_world {[ None := sample_record 10 ++ sample_record 11 ]}.

(** [retarget_world] with the second segment believing it holds two
    headers, so that its tip is at height 2016. *)
Definition two_period_world : world :=
  set_obj retarget_world FORK (mkBlockchain 2015 (Some 0) 2 None).

(** * Properties *)

(** Conjunctions of closed equations are settled by evaluating both sides. *)
Ltac by_evaluation := repeat apply conj; vm_compute; reflexivity.

(** ** Hexadecimal formatting *)

Lemma hex_fixed_length k n : length (hex_fixed k n) = k.
Proof.
  revert n; induction k as [|k IH]; intros n; simpl; [done|].
  rewrite length_app, IH. simpl. lia.
Qed.

Lemma hex_fixed_zero k : hex_fixed k 0 = replicate k "0"%char.
Proof.
  induction k as [|k IH]; simpl; [done|].
  rewrite Z.div_0_l, IH by lia.
  change (hex_digit (0 mod 16)) with "0"%char.
  symmetry. apply replicate_S_end.
Qed.

Lemma hex_fixed_shift a b x :
  hex_fixed (a + b) (x * 16 ^ Z.of_nat b) = hex_fixed a x ++ replicate b "0"%char.
Proof.
  induction b as [|b IH].
  - rewrite Nat.add_0_r, Z.mul_1_r, app_nil_r. done.
  - replace (a + S b)%nat with (S (a + b)) by lia. simpl hex_fixed.
    replace (x * 16 ^ Z.of_nat (S b)) with ((x * 16 ^ Z.of_nat b) * 16).
    2:{ rewrite Nat2Z.inj_succ, Z.pow_succ_r by lia. ring. }
    rewrite Z.div_mul, Z.mod_mul by lia. rewrite IH.
    rewrite <- app_assoc. f_equal.
    change [hex_digit 0] with ["0"%char]. symmetry. apply replicate_S_end.
Qed.

Lemma hex_fixed_small a b x :
  0 <= x < 16 ^ Z.of_nat a ->
  hex_fixed (b + a) x = replicate b "0"%char ++ hex_fixed a x.
Proof.
  revert x; induction a as [|a IH]; intros x Hx.
  - simpl in Hx. assert (x = 0) by lia. subst x.
    rewrite Nat.add_0_r, app_nil_r. apply hex_fixed_zero.
  - replace (b + S a)%nat with (S (b + a)) by lia. simpl hex_fixed.
    rewrite IH, app_assoc; [done|].
    rewrite Nat2Z.inj_succ, Z.pow_succ_r in Hx by lia.
    split; [apply Z.div_pos; lia|]. apply Z.div_lt_upper_bound; lia.
Qed.

Lemma hex_val_digit d : 0 <= d < 16 -> hex_val (hex_digit d) = Some d.
Proof.
  intros Hd.
  assert (Hc : d = 0 \/ d = 1 \/ d = 2 \/ d = 3 \/ d = 4 \/ d = 5 \/ d = 6 \/ d = 7 \/
          d = 8 \/ d = 9 \/ d = 10 \/ d = 11 \/ d = 12 \/ d = 13 \/ d = 14 \/ d = 15) by lia.
  repeat (destruct Hc as [-> | Hc]; [reflexivity|]). subst d. reflexivity.
Qed.

Lemma int16_acc_app acc l1 l2 :
  int16_acc acc (l1 ++ l2) =
  match int16_acc acc l1 with Ok a => int16_acc a l2 | Raise e => Raise e end.
Proof.
  revert acc; induction l1 as [|c l1 IH]; intros acc; simpl; [done|].
  destruct (hex_val c); [apply IH | done].
Qed.

Lemma int16_acc_hex_fixed k x acc :
  int16_acc acc (hex_fixed k x) = Ok (acc * 16 ^ Z.of_nat k + x mod 16 ^ Z.of_nat k).
Proof.
  revert x acc; induction k as [|k IH]; intros x acc.
  - simpl. rewrite Z.mod_1_r. f_equal. lia.
  - simpl hex_fixed. rewrite int16_acc_app, IH. simpl.
    rewrite hex_val_digit by (apply Z.mod_pos_bound; lia).
    f_equal. rewrite Nat2Z.inj_succ, Z.pow_succ_r by lia.
    rewrite (Z.rem_mul_r x 16 (16 ^ Z.of_nat k)) by lia. ring.
Qed.

Lemma hex_digit_is_zero d : 0 <= d < 16 -> Ascii.eqb (hex_digit d) "0" = (d =? 0).
Proof.
  intros Hd.
  assert (Hc : d = 0 \/ d = 1 \/ d = 2 \/ d = 3 \/ d = 4 \/ d = 5 \/ d = 6 \/ d = 7 \/
          d = 8 \/ d = 9 \/ d = 10 \/ d = 11 \/ d = 12 \/ d = 13 \/ d = 14 \/ d = 15) by lia.
  repeat (destruct Hc as [-> | Hc]; [reflexivity|]). subst d. reflexivity.
Qed.

Lemma strip_zero_bytes_zeros k c :
  (6 <= length c)%nat ->
  strip_zero_bytes (replicate (2 * k) "0"%char ++ c) = strip_zero_bytes c.
Proof.
  intros Hc. induction k as [|k IH]; [done|].
  replace (2 * S k)%nat with (S (S (2 * k))) by lia.
  cbn [replicate app strip_zero_bytes].
  replace (6 <? _) with true; [exact IH|].
  symmetry. apply Z.ltb_lt. cbn [length]. rewrite length_app. lia.
Qed.


Lemma hex_len_le t : 0 <= t < 16 ^ 64 -> (hex_len t <= 64)%nat.
Proof.
  intros Ht. unfold hex_len. destruct (Z.eqb_spec t 0) as [|Hne]; [lia|].
  assert (Z.log2 t < 256) by (apply Z.log2_lt_pow2; lia).
  assert (Z.log2 t / 4 < 64) by (apply Z.div_lt_upper_bound; lia).
  pose proof (Z.log2_nonneg t). assert (0 <= Z.log2 t / 4) by (apply Z.div_pos; lia).
  lia.
Qed.

Lemma format_064x_small t : 0 <= t < 16 ^ 64 -> format_064x t = hex_fixed 64 t.
Proof.
  intros Ht. unfold format_064x.
  destruct (Z.leb_spec 0 t); [|lia].
  pose proof (hex_len_le t Ht). f_equal. lia.
Qed.

Lemma target_hex m B :
  (m <= 26)%nat -> 0 <= B < 16 ^ 6 ->
  drop 2 (format_064x (B * 16 ^ Z.of_nat (2 * m))) =
  replicate (2 * (28 - m)) "0"%char ++ hex_fixed 6 B ++ replicate (2 * m) "0"%char.
Proof.
  intros Hm HB.
  assert (Hp : 16 ^ Z.of_nat (2 * m) <= 16 ^ 52) by (apply Z.pow_le_mono_r; lia).
  assert (0 < 16 ^ Z.of_nat (2 * m)) by (apply Z.pow_pos_nonneg; lia).
  rewrite format_064x_small.
  2:{ split; [nia|]. change (16 ^ 64) with (16 ^ 6 * 16 ^ 52 * 16 ^ 6). nia. }
  replace 64%nat with ((2 + 2 * (28 - m) + 6) + 2 * m)%nat by lia.
  rewrite hex_fixed_shift, hex_fixed_small by lia.
  rewrite replicate_add. cbn [replicate]. rewrite <- !app_assoc. reflexivity.
Qed.


Lemma hex_fixed_split a b x :
  hex_fixed (a + b) x = hex_fixed a (x / 16 ^ Z.of_nat b) ++ hex_fixed b x.
Proof.
  revert x; induction b as [|b IH]; intros x.
  - rewrite Nat.add_0_r, Z.div_1_r, app_nil_r. done.
  - replace (a + S b)%nat with (S (a + b)) by lia. simpl hex_fixed.
    rewrite IH, <- app_assoc. do 2 f_equal.
    rewrite Nat2Z.inj_succ, Z.pow_succ_r, Z.div_div by lia. done.
Qed.

Lemma int16_hex_fixed k x :
  (0 < k)%nat -> int16 (hex_fixed k x) = Ok (x mod 16 ^ Z.of_nat k).
Proof.
  intros Hk. unfold int16.
  pose proof (hex_fixed_length k x) as Hl.
  pose proof (int16_acc_hex_fixed k x 0) as Hv. rewrite Z.mul_0_l, Z.add_0_l in Hv.
  destruct (hex_fixed k x); [simpl in Hl; lia | done].
Qed.

Lemma strip_zero_bytes_short c :
  (length c <= 6)%nat -> strip_zero_bytes c = c.
Proof.
  intros Hc. destruct c as [|a [|b c]]; [done..|].
  cbn [strip_zero_bytes].
  replace (6 <? _) with false; [by rewrite andb_false_r|].
  symmetry. apply Z.ltb_ge. lia.
Qed.

Lemma strip_zero_bytes_digits x y c :
  0 <= x < 16 -> 0 <= y < 16 -> x <> 0 \/ y <> 0 ->
  strip_zero_bytes (hex_digit x :: hex_digit y :: c) = hex_digit x :: hex_digit y :: c.
Proof.
  intros Hx Hy Hne. cbn [strip_zero_bytes].
  rewrite !hex_digit_is_zero by lia.
  destruct (Z.eqb_spec x 0), (Z.eqb_spec y 0); [lia | done..].
Qed.

Lemma target_to_bits_canonical (N B : Z) :
  3 <= N <= 29 -> 0x8000 <= B <= 0x7fffff ->
  target_to_bits (Z.shiftl B (8 * (N - 3))) = Ok (Z.lor (Z.shiftl N 24) B).
Proof.
  intros HN HB.
  set (m := Z.to_nat (N - 3)).
  assert (Hm : (m <= 26)%nat) by lia.
  assert (HNm : N = 3 + Z.of_nat m) by lia.
  rewrite Z.shiftl_mul_pow2 by lia.
  replace (2 ^ (8 * (N - 3))) with (16 ^ Z.of_nat (2 * m)).
  2:{ change 16 with (2 ^ 4). rewrite <- Z.pow_mul_r by lia. f_equal. lia. }
  unfold target_to_bits. rewrite target_hex by lia.
  rewrite strip_zero_bytes_zeros.
  2:{ rewrite length_app, hex_fixed_length. lia. }
  assert (Hkeep : B < 0x10000 /\ m <> 0%nat \/ (0x10000 <= B \/ m = 0%nat)) by lia.
  destruct Hkeep as [[Hsmall Hm0] | Hkeep].
  - (* two significant bytes and room to drop the leading zero byte *)
    change (hex_fixed 6 B) with (hex_fixed (2 + 4) B).
    rewrite (hex_fixed_small 4 2 B) by lia.
    cbn [replicate app strip_zero_bytes Ascii.eqb Bool.eqb andb].
    replace (6 <? _) with true.
    2:{ symmetry. apply Z.ltb_lt. cbn [length].
        rewrite length_app, hex_fixed_length, length_replicate. lia. }
    change (hex_fixed 4 B) with (hex_fixed (2 + 2) B). rewrite (hex_fixed_split 2 2 B).
    cbn [hex_fixed app]. rewrite <- ?app_assoc; cbn [app].
    rewrite strip_zero_bytes_digits; try (apply Z.mod_pos_bound; lia).
    2:{ left. change (16 ^ Z.of_nat 2) with 256. clear -HB Hsmall. Z.div_mod_to_equations. lia. }
    set (c := _ :: _ :: _).
    assert (Hc : c = hex_fixed 4 B ++ replicate (2 * m) "0"%char).
    { change (hex_fixed 4 B) with (hex_fixed (2 + 2) B). rewrite (hex_fixed_split 2 2 B).
      cbn [hex_fixed app]. rewrite <- ?app_assoc. done. }
    rewrite Hc. clear c Hc.
    rewrite length_app, hex_fixed_length, length_replicate.
    destruct m as [|m']; [done|].
    replace (2 * S m')%nat with (2 + 2 * m')%nat by lia.
    rewrite replicate_add, app_assoc.
    rewrite <- (hex_fixed_shift 4 2 B).
    rewrite take_app_length' by (rewrite hex_fixed_length; done).
    rewrite int16_hex_fixed by lia.
    change (16 ^ Z.of_nat 2) with 256. change (16 ^ Z.of_nat (4 + 2)) with 16777216.
    rewrite Z.mod_small by lia.
    destruct (Z.leb_spec 0x800000 (B * 256)); [|lia].
    rewrite Z.shiftr_div_pow2 by lia. change (2 ^ 8) with 256.
    rewrite Z.div_mul by lia.
    do 3 f_equal. Z.div_mod_to_equations. lia.
  - (* the first three bytes are the significant ones *)
    assert (Hs : strip_zero_bytes (hex_fixed 6 B ++ replicate (2 * m) "0"%char)
                 = hex_fixed 6 B ++ replicate (2 * m) "0"%char).
    { destruct Hkeep as [Hbig | ->].
      - change (hex_fixed 6 B) with (hex_fixed (2 + 4) B). rewrite (hex_fixed_split 2 4 B).
        change (16 ^ Z.of_nat 4) with 65536.
        assert (1 <= B / 65536 < 128) by (clear -HB Hbig; Z.div_mod_to_equations; lia).
        cbn [hex_fixed app]. rewrite <- ?app_assoc; cbn [app].
        apply strip_zero_bytes_digits; try (apply Z.mod_pos_bound; lia).
        clear -H. Z.div_mod_to_equations. lia.
      - apply strip_zero_bytes_short.
        rewrite length_app, hex_fixed_length. simpl. lia. }
    rewrite Hs. rewrite length_app, hex_fixed_length, length_replicate.
    rewrite take_app_length' by (rewrite hex_fixed_length; done).
    rewrite int16_hex_fixed by lia.
    change (16 ^ Z.of_nat 6) with 16777216.
    rewrite Z.mod_small by lia.
    destruct (Z.leb_spec 0x800000 B); [lia|].
    do 3 f_equal. Z.div_mod_to_equations. lia.
Qed.

Lemma bits_fields (N B : Z) :
  0 <= N < 256 -> 0 <= B < 2 ^ 24 ->
  Z.land (Z.shiftr (Z.lor (Z.shiftl N 24) B) 24) 0xff = N /\
  Z.land (Z.lor (Z.shiftl N 24) B) 0xffffff = B.
Proof.
  intros HN HB. split.
  - rewrite Z.shiftr_lor, Z.shiftr_shiftl_l by lia.
    rewrite Z.sub_diag, Z.shiftl_0_r.
    rewrite (Z.shiftr_div_pow2 B), Z.div_small, Z.lor_0_r by lia.
    change 0xff with (Z.ones 8). rewrite Z.land_ones by lia.
    apply Z.mod_small. lia.
  - rewrite Z.land_lor_distr_l.
    change 0xffffff with (Z.ones 24). rewrite !Z.land_ones by lia.
    rewrite Z.shiftl_mul_pow2, Z.mod_mul, Z.lor_0_l by lia.
    apply Z.mod_small. lia.
Qed.


(** ** Scanning a header file *)

Lemma read_vector_size_spec f vs f' :
  read_vector_size f = Ok (vs, f') ->
  fdata f' = fdata f /\ fpos f + 1 <= fpos f' /\ 0 <= vs /\ fpos f < flen f.
Proof.
  unfold read_vector_size, read, unpack_B, unpack_H, unpack_I, unpack_Q, unpack_unsigned.
  cbn [fdata fpos].
  destruct (decide (length (slice (fdata f) (fpos f) 1) = 1%nat)) as [Hl|]; [|discriminate].
  rewrite Hl.
  assert (Hin : fpos f < flen f).
  { unfold slice in Hl. unfold flen. destruct (Z.leb_spec (Z.of_nat (length (fdata f))) (fpos f)); [discriminate|lia]. }
  assert (Hnn : forall b, 0 <= le_to_Z b).
  { induction b as [|x b IH]; simpl; [lia|]. unfold byte_to_Z. lia. }
  repeat match goal with
         | |- context [if ?c =? ?d then _ else _] => destruct (c =? d)
         | |- context [decide ?P] => destruct (decide P); [|discriminate]
         end;
    intros [= <- <-]; cbn [fdata fpos]; repeat split; auto; try lia.
Qed.

Lemma skip_record_spec f f' :
  skip_record f = Ok f' ->
  fdata f' = fdata f /\ fpos f + 141 <= fpos f' /\ fpos f + 140 < flen f.
Proof.
  unfold skip_record.
  destruct (read_vector_size _) as [[vs f1]|] eqn:Hr; [|discriminate].
  intros [= <-]. apply read_vector_size_spec in Hr.
  unfold seek_cur, flen, BASIC_HEADER_SIZE in *. cbn [fdata fpos] in *.
  destruct Hr as (-> & ? & ? & ?). split; [done|]. lia.
Qed.

Lemma skip_records_data n f eof f' :
  skip_records n f eof = Ok f' -> fdata f' = fdata f.
Proof.
  revert f; induction n as [|n IH]; intros f; simpl; [by intros [= <-]|].
  destruct (skip_record f) as [f1|] eqn:Hs; [|discriminate].
  destruct (eof <=? tell f1); [discriminate|].
  intros H. apply IH in H. apply skip_record_spec in Hs. destruct Hs as [Hs _]. congruence.
Qed.

(** The scan of [update_size] never runs out of passes: a pass that does
    not raise consumes at least 141 bytes of the file. *)
Lemma update_size_loop_total fuel f eof size :
  flen f - fpos f <= Z.of_nat fuel ->
  is_Some (update_size_loop (S fuel) f eof size).
Proof.
  revert f size; induction fuel as [|fuel IH]; intros f size Hf;
    cbn [update_size_loop];
    destruct (skip_record f) as [f1|] eqn:Hs; try done;
    apply skip_record_spec in Hs; destruct Hs as (Hd & Hpos & Hlt).
  - lia.
  - apply IH. unfold flen in *. rewrite Hd. lia.
Qed.

Lemma count_records_total content :
  update_size_loop (S (length content)) (seek_set (seek_end (BytesIO content)) 0)
                   (Z.of_nat (length content)) 0 = Some (count_records content).
Proof.
  unfold count_records.
  destruct (update_size_loop_total (length content)
              (seek_set (seek_end (BytesIO content)) 0)
              (Z.of_nat (length content)) 0) as [n Hn].
  - unfold flen. cbn. lia.
  - change (tell (seek_end (BytesIO content))) with (Z.of_nat (length content)).
    rewrite Hn. done.
Qed.

Lemma byte_to_Z_of_Z z : byte_to_Z (byte_of_Z z) = z mod 256.
Proof.
  unfold byte_to_Z, byte_of_Z.
  pose proof (Z.mod_pos_bound z 256 ltac:(lia)) as Hb.
  destruct (Byte.of_N (Z.to_N (z mod 256))) as [b|] eqn:Hof.
  - apply Byte.to_of_N in Hof. rewrite Hof. lia.
  - pose proof (Byte.to_of_N_option_map (Z.to_N (z mod 256))) as Hm.
    rewrite Hof in Hm. cbn in Hm.
    destruct (N.leb_spec (Z.to_N (z mod 256)) 255); [discriminate|lia].
Qed.

Lemma le_to_Z_of_Z k n :
  0 <= n < 256 ^ Z.of_nat k -> le_to_Z (le_of_Z k n) = n.
Proof.
  revert n; induction k as [|k IH]; intros n Hn.
  - simpl in *. lia.
  - cbn [le_of_Z le_to_Z]. rewrite byte_to_Z_of_Z, IH.
    + pose proof (Z.div_mod n 256). lia.
    + rewrite Nat2Z.inj_succ, Z.pow_succ_r in Hn by lia.
      split; [apply Z.div_pos; lia|]. apply Z.div_lt_upper_bound; lia.
Qed.

Lemma le_of_Z_length k n : length (le_of_Z k n) = k.
Proof. revert n; induction k as [|k IH]; intros n; simpl; [done|]. by rewrite IH. Qed.

Lemma slice_app pre x post n :
  (Z.to_nat n = length x) -> x <> [] ->
  slice (pre ++ x ++ post) (Z.of_nat (length pre)) n = x.
Proof.
  intros Hn Hx. unfold slice. rewrite !length_app.
  destruct (Z.leb_spec (Z.of_nat (length pre + (length x + length post))) (Z.of_nat (length pre))) as [Hle|_].
  - destruct x; [done|]. simpl in Hle. lia.
  - rewrite Nat2Z.id, drop_app_length, Hn. apply take_app_length.
Qed.

Lemma read_app pre x post n :
  Z.to_nat n = length x -> x <> [] ->
  read (mkFile (pre ++ x ++ post) (Z.of_nat (length pre))) n
  = (x, mkFile (pre ++ x ++ post) (Z.of_nat (length (pre ++ x)))).
Proof.
  intros Hn Hx. unfold read. cbn [fdata fpos].
  rewrite slice_app by done. rewrite length_app, Nat2Z.inj_add. done.
Qed.

Lemma read_vector_size_ser pre n post :
  0 <= n < 2 ^ 64 ->
  read_vector_size (mkFile (pre ++ ser_compact_size n ++ post) (Z.of_nat (length pre)))
  = Ok (n, mkFile (pre ++ ser_compact_size n ++ post)
                  (Z.of_nat (length (pre ++ ser_compact_size n)))).
Proof.
  intros Hn. unfold read_vector_size, ser_compact_size.
  destruct (Z.ltb_spec n 253) as [H1|H1].
  - (* one byte *)
    cbn [le_of_Z]. rewrite (read_app pre [byte_of_Z n] post 1) by done.
    unfold unpack_B, unpack_unsigned. cbn [length decide_rel] .
    destruct (decide (1%nat = 1%nat)); [|done].
    cbn [le_to_Z]. rewrite byte_to_Z_of_Z, Z.mod_small by lia.
    replace (n + 256 * 0) with n by lia.
    destruct (Z.eqb_spec n 253); [lia|].
    destruct (Z.eqb_spec n 254); [lia|].
    destruct (Z.eqb_spec n 255); [lia|]. done.
  - assert (Hmark : forall (m : byte) k,
      (0 < k)%nat -> 0 <= n < 256 ^ Z.of_nat k ->
      let f := mkFile (pre ++ (m :: le_of_Z k n) ++ post) (Z.of_nat (length pre)) in
      read f 1 = ([m], mkFile (fdata f) (Z.of_nat (length (pre ++ [m])))) /\
      read (mkFile (fdata f) (Z.of_nat (length (pre ++ [m])))) (Z.of_nat k)
        = (le_of_Z k n, mkFile (fdata f) (Z.of_nat (length (pre ++ m :: le_of_Z k n)))) /\
      unpack_unsigned k (le_of_Z k n) = Ok n).
    { intros m k Hk Hr. cbn zeta. cbn [fdata]. split; [|split].
      - change (m :: le_of_Z k n) with ([m] ++ le_of_Z k n). rewrite <- (app_assoc [m]).
        apply read_app; done.
      - change (m :: le_of_Z k n) with ([m] ++ le_of_Z k n).
        rewrite <- (app_assoc [m]), (app_assoc pre [m]).
        rewrite (read_app (pre ++ [m]) (le_of_Z k n) post).
        + rewrite <- !app_assoc. done.
        + rewrite Nat2Z.id, le_of_Z_length. done.
        + intros Hnil. apply (f_equal length) in Hnil. rewrite le_of_Z_length in Hnil.
          simpl in Hnil. lia.
      - unfold unpack_unsigned. rewrite le_of_Z_length.
        destruct (decide (k = k)); [|done]. by rewrite le_to_Z_of_Z. }
    destruct (Z.ltb_spec n (2 ^ 16)) as [H2|H2]; [|destruct (Z.ltb_spec n (2 ^ 32)) as [H3|H3]].
    + destruct (Hmark Byte.xfd 2%nat) as (Hr1 & Hr2 & Hu); [lia|lia|].
      cbn zeta in Hr1, Hr2. cbn [fdata] in Hr1, Hr2. change (Z.of_nat 2) with 2 in Hr2.
      rewrite Hr1. change (unpack_B [Byte.xfd]) with (Ok (A:=Z) 253).
      cbn [Z.eqb Pos.eqb]. unfold unpack_H. rewrite Hr2, Hu. done.
    + destruct (Hmark Byte.xfe 4%nat) as (Hr1 & Hr2 & Hu); [lia|lia|].
      cbn zeta in Hr1, Hr2. cbn [fdata] in Hr1, Hr2. change (Z.of_nat 4) with 4 in Hr2.
      rewrite Hr1. change (unpack_B [Byte.xfe]) with (Ok (A:=Z) 254).
      cbn [Z.eqb Pos.eqb]. unfold unpack_I. rewrite Hr2, Hu. done.
    + destruct (Hmark Byte.xff 8%nat) as (Hr1 & Hr2 & Hu); [lia|lia|].
      cbn zeta in Hr1, Hr2. cbn [fdata] in Hr1, Hr2. change (Z.of_nat 8) with 8 in Hr2.
      rewrite Hr1. change (unpack_B [Byte.xff]) with (Ok (A:=Z) 255).
      cbn [Z.eqb Pos.eqb]. unfold unpack_Q. rewrite Hr2, Hu. done.
Qed.

Lemma is_record_length r : is_record r -> (141 <= length r)%nat.
Proof.
  intros (fixed & sol & Hf & _ & ->). unfold ser_char_vector, ser_compact_size.
  rewrite !length_app, Hf.
  repeat match goal with |- context [if ?c then _ else _] => destruct c end;
    cbn [length]; rewrite ?le_of_Z_length; lia.
Qed.

Lemma skip_record_complete pre r post :
  is_record r ->
  skip_record (mkFile (pre ++ r ++ post) (Z.of_nat (length pre)))
  = Ok (mkFile (pre ++ r ++ post) (Z.of_nat (length (pre ++ r)))).
Proof.
  intros (fixed & sol & Hf & Hs & ->).
  unfold skip_record, seek_cur, ser_char_vector, BASIC_HEADER_SIZE. cbn [fdata fpos].
  replace (Z.of_nat (length pre) + 140) with (Z.of_nat (length (pre ++ fixed)))
    by (rewrite length_app; lia).
  replace (pre ++ (fixed ++ ser_compact_size (Z.of_nat (length sol)) ++ sol) ++ post)
    with ((pre ++ fixed) ++ ser_compact_size (Z.of_nat (length sol)) ++ (sol ++ post))
    by (rewrite <- !app_assoc; done).
  rewrite read_vector_size_ser by lia. cbn [fdata fpos].
  do 2 f_equal. rewrite !length_app. lia.
Qed.

Lemma update_size_loop_mono fuel fuel' f eof size n :
  update_size_loop fuel f eof size = Some n -> (fuel <= fuel')%nat ->
  update_size_loop fuel' f eof size = Some n.
Proof.
  revert fuel' f size; induction fuel as [|fuel IH]; intros fuel' f size; [done|].
  intros H Hle. destruct fuel' as [|fuel']; [lia|].
  cbn [update_size_loop] in *. destruct (skip_record f); [|done].
  apply IH; [done|lia].
Qed.

Lemma update_size_loop_records rs pre size :
  Forall is_record rs ->
  exists fuel,
    update_size_loop fuel (mkFile (pre ++ concat rs) (Z.of_nat (length pre)))
                     (Z.of_nat (length (pre ++ concat rs))) size
    = Some (size + Z.max 0 (Z.of_nat (length rs) - 1)).
Proof.
  intros Hrs. revert pre size. induction Hrs as [|r rs Hr Hrs IH]; intros pre size.
  - exists 1%nat. cbn [update_size_loop concat].
    destruct (skip_record _) as [f1|] eqn:Hs.
    + apply skip_record_spec in Hs. unfold flen in Hs. cbn [fdata fpos] in Hs.
      rewrite app_nil_r in Hs. lia.
    + f_equal. cbn [length]. lia.
  - cbn [concat].
    destruct (IH (pre ++ r) (if Z.of_nat (length (pre ++ r)) <? Z.of_nat (length (pre ++ r ++ concat rs))
                             then size + 1 else size)) as [fuel Hfuel].
    exists (S fuel). cbn [update_size_loop].
    rewrite skip_record_complete by done. unfold tell. cbn [fpos].
    rewrite <- app_assoc in Hfuel. rewrite Hfuel. f_equal.
    cbn [length]. destruct Hrs as [|r' rs' Hr' Hrs'].
    + cbn [concat length]. rewrite app_nil_r.
      rewrite Z.ltb_irrefl. lia.
    + pose proof (is_record_length r' Hr'). cbn [concat length].
      destruct (Z.ltb_spec (Z.of_nat (length (pre ++ r)))
                  (Z.of_nat (length (pre ++ r ++ r' ++ concat rs')))) as [|Hge].
      * lia.
      * rewrite !length_app in Hge. lia.
Qed.

(** A file that consists of complete records is counted one short. *)
Lemma count_records_complete rs :
  Forall is_record rs ->
  count_records (concat rs) = Z.max 0 (Z.of_nat (length rs) - 1).
Proof.
  intros Hrs.
  destruct (update_size_loop_records rs [] 0 Hrs) as [fuel Hfuel].
  pose proof (count_records_total (concat rs)) as Htot.
  cbn [app length] in Hfuel. change (Z.of_nat 0) with 0 in Hfuel.
  change (seek_set (seek_end (BytesIO (concat rs))) 0) with (mkFile (concat rs) 0) in Htot.
  apply (update_size_loop_mono _ (fuel + S (length (concat rs)))) in Hfuel; [|lia].
  apply (update_size_loop_mono _ (fuel + S (length (concat rs)))) in Htot; [|lia].
  rewrite Hfuel in Htot. injection Htot as <-. lia.
Qed.

(** ** Header verification *)

(** C1, as stated, fails: with the identity hash of the absent previous
    header equal to the header's [prev_block_hash], and a proof-of-work
    hash of 1 that exceeds the supplied target 0, [verify_header] raises
    nothing. *)
Lemma verify_header_ignores_target_argument :
  snd (hash_header sample_ext None) = Ok zero_hash /\
  prev_block_hash (sample_header 4 1) = Some zero_hash /\
  sha256_header sample_ext (sample_header 4 1) = Ok 1 /\
  0 < 1 /\
  verify_header sample_ext sample_net (sample_header 4 1) None 0 = Ok tt.
Proof. by_evaluation. Qed.

Lemma serialize_header_parts h b :
  serialize_header h = Ok b ->
  exists nb sol,
    str_to_hash (Some (nonce h)) = Ok nb /\ b64decode (n_solution h) = Ok sol.
Proof.
  unfold serialize_header.
  destruct (pack_i _); [|discriminate].
  destruct (str_to_hash (prev_block_hash h)); [|discriminate].
  destruct (str_to_hash (Some (merkle_root h))); [|discriminate].
  destruct (str_to_hash (Some (hash_reserved h))); [|discriminate].
  destruct (pack_I (timestamp h)); [|discriminate].
  destruct (pack_I (bits h)); [|discriminate].
  destruct (str_to_hash (Some (nonce h))) as [nb|]; [|discriminate].
  destruct (b64decode (n_solution h)) as [sol|]; [|discriminate].
  intros _. by exists nb, sol.
Qed.

(** C1, amended: for a header and a previous header that can be hashed,
    [verify_header] checks in this order, the first failure ending the
    call: the linkage; the decoding of the header's own [bits] field, whose
    exception it propagates; the proof-of-work hash against the target
    decoded from [bits] (the [target] argument is not consulted); the
    verdict of the proof verifier.  It returns normally exactly when all of
    them pass. *)
Theorem verify_header_checks ext net h prev target prev_hash b :
  snd (hash_header ext prev) = Ok prev_hash ->
  serialize_header h = Ok b ->
  exists nb sol,
    str_to_hash (Some (nonce h)) = Ok nb /\
    b64decode (n_solution h) = Ok sol /\
    let powhash := uint256_from_bytes (Hash ext b) in
    let accepted :=
      is_gbp_valid ext b (uint256_from_bytes nb) (vector_from_bytes ext sol)
                   (EQUIHASH_N net) (EQUIHASH_K net) in
    let r := verify_header ext net h prev target in
    (Some prev_hash <> prev_block_hash h ->
       r = Raise (BaseException "prev hash mismatch")) /\
    (Some prev_hash = prev_block_hash h ->
       match bits_to_target (bits h) with
       | Raise e => r = Raise e
       | Ok t =>
           (t < powhash -> raises r) /\
           (powhash <= t -> accepted = false ->
              r = Raise (BaseException "Equihash invalid")) /\
           (powhash <= t -> accepted = true -> r = Ok tt)
       end).
Proof.
  intros Hprev Hser.
  destruct (serialize_header_parts h b Hser) as (nb & sol & Hnb & Hsol).
  exists nb, sol. split; [done|]. split; [done|].
  cbn zeta. unfold verify_header, sha256_header.
  rewrite Hprev, Hser, Hnb, Hsol. split.
  - intros Hne. rewrite bool_decide_eq_false_2 by done. done.
  - intros Heq. rewrite bool_decide_eq_true_2 by done. cbn [negb].
    destruct (bits_to_target (bits h)) as [t|e]; [|done].
    repeat split.
    + intros Hlt. apply Z.ltb_lt in Hlt. rewrite Hlt. by eexists.
    + intros Hle Hacc. apply Z.ltb_ge in Hle. rewrite Hle, Hacc. done.
    + intros Hle Hacc. apply Z.ltb_ge in Hle. rewrite Hle, Hacc. done.
Qed.

Lemma verify_header_checks_witness :
  snd (hash_header sample_ext None) = Ok zero_hash /\
  serialize_header (sample_header 4 1) = Ok (sample_record 4) /\
  exists nb sol,
    str_to_hash (Some (nonce (sample_header 4 1))) = Ok nb /\
    b64decode (n_solution (sample_header 4 1)) = Ok sol /\
    let powhash := uint256_from_bytes (Hash sample_ext (sample_record 4)) in
    let accepted :=
      is_gbp_valid sample_ext (sample_record 4) (uint256_from_bytes nb)
                   (vector_from_bytes sample_ext sol)
                   (EQUIHASH_N sample_net) (EQUIHASH_K sample_net) in
    let r := verify_header sample_ext sample_net (sample_header 4 1) None 0 in
    (Some zero_hash <> prev_block_hash (sample_header 4 1) ->
       r = Raise (BaseException "prev hash mismatch")) /\
    (Some zero_hash = prev_block_hash (sample_header 4 1) ->
       match bits_to_target (bits (sample_header 4 1)) with
       | Raise e => r = Raise e
       | Ok t =>
           (t < powhash -> raises r) /\
           (powhash <= t -> accepted = false ->
              r = Raise (BaseException "Equihash invalid")) /\
           (powhash <= t -> accepted = true -> r = Ok tt)
       end).
Proof.
  split; [reflexivity|]. split; [vm_compute; reflexivity|].
  apply (verify_header_checks sample_ext sample_net (sample_header 4 1) None 0
           zero_hash (sample_record 4)); vm_compute; reflexivity.
Defined.

(** ** Offsets and sizes *)

(** Whatever it is asked to skip, [_height_to_offset] answers the position
    the file had on entry, and leaves the file there. *)
Lemma height_to_offset_entry_position f height_ start o f' :
  _height_to_offset f height_ start = Ok (o, f') -> o = tell f /\ f' = f.
Proof.
  unfold _height_to_offset.
  destruct (skip_records _ _ _) as [f1|] eqn:Hs; [|discriminate].
  intros [= <- <-]. split; [done|].
  apply skip_records_data in Hs. unfold seek_set, tell. cbn [fdata] in *.
  rewrite Hs. destruct f; done.
Qed.

(** C3: on a file of three 141-byte records, freshly opened, skipping one
    record from the start answers 0 and not 141, the offset of the second
    record; asked from the end of the file it answers 423; and skipping all
    three records raises although every one of them is complete. *)
Theorem height_to_offset_returns_entry_position :
  let f := BytesIO (sample_record 1 ++ sample_record 2 ++ sample_record 3) in
  length (sample_record 1) = 141%nat /\
  _height_to_offset f 1 0 = Ok (0, f) /\
  _height_to_offset (seek_end f) 1 0 = Ok (423, seek_end f) /\
  _height_to_offset f 3 0 = Raise (Exception "Out of file").
Proof. by_evaluation. Qed.

Lemma update_size_files w self : files (update_size w self) = files w.
Proof. unfold update_size. cbn [files set_obj]. by destruct (files w !! _). Qed.

(** C4: for a file that consists of [n >= 1] complete records and nothing
    else, [update_size] sets the size to [n - 1]: the record that ends at
    the end of the file is not counted. *)
Theorem update_size_misses_last_record w self rs :
  files w !! path (objs w self) = Some (concat rs) ->
  Forall is_record rs ->
  rs <> [] ->
  size (update_size w self) self = Z.of_nat (length rs) - 1.
Proof.
  intros Hfile Hrs Hne. unfold update_size, size.
  cbn [files objs set_obj set_size]. rewrite Hfile. cbn [objs set_obj].
  destruct (decide (self = self)); [|done]. cbn [_size].
  rewrite count_records_complete by done.
  unfold set_size. cbn [_size]. destruct rs; [done|]. cbn [length]. lia.
Qed.

Lemma sample_record_is_record v : is_record (sample_record v).
Proof.
  exists (le_of_Z 4 v ++ replicate 96 Byte.x00 ++ le_of_Z 4 0 ++ le_of_Z 4 0x1d00ffff
            ++ replicate 32 Byte.x00), [].
  split; [|split].
  - rewrite !length_app, !le_of_Z_length, !length_replicate. done.
  - done.
  - unfold sample_record. rewrite <- !app_assoc. done.
Qed.

Lemma update_size_misses_last_record_witness :
  files (set_files empty_world {[ None := concat [sample_record 1] ]})
    !! path (objs (set_files empty_world {[ None := concat [sample_record 1] ]}) ROOT)
    = Some (concat [sample_record 1]) /\
  Forall is_record [sample_record 1] /\
  [sample_record 1] <> [] /\
  size (update_size (set_files empty_world {[ None := concat [sample_record 1] ]}) ROOT) ROOT
    = Z.of_nat (length [sample_record 1]) - 1.
Proof.
  assert (Hrec : Forall is_record [sample_record 1]).
  { constructor; [apply sample_record_is_record | constructor]. }
  split; [reflexivity|]. split; [exact Hrec|]. split; [discriminate|].
  apply (update_size_misses_last_record
           (set_files empty_world {[ None := concat [sample_record 1] ]}) ROOT
           [sample_record 1]); [reflexivity | exact Hrec | discriminate].
Defined.

(** With a trailing fragment after them, two complete records count as
    two; without it they count as one, and a single record as none. *)
Example update_size_examples :
  count_records (sample_record 1) = 0 /\
  count_records (sample_record 1 ++ sample_record 2) = 1 /\
  count_records (sample_record 1 ++ sample_record 2 ++ [Byte.x07]) = 2.
Proof. by_evaluation. Qed.

(** ** Reorganisation *)

Lemma update_size_registry w self : blockchains (update_size w self) = blockchains w.
Proof. unfold update_size. cbn [files set_obj]. by destruct (files w !! _). Qed.

Lemma update_size_fields w self r :
  checkpoint (objs (update_size w self) r) = checkpoint (objs w r) /\
  parent_id (objs (update_size w self) r) = parent_id (objs w r) /\
  old_path (objs (update_size w self) r) = old_path (objs w r).
Proof.
  unfold update_size. cbn [files set_obj].
  destruct (files w !! _); cbn [objs set_obj];
    repeat (destruct (decide _)); unfold set_size; cbn; subst; done.
Qed.

(** What [write] leaves behind when it returns: the data is appended,
    whatever [delta] is, and the truncation it is asked for never happens. *)
Lemma write_spec w self data delta trunc w' content :
  files w !! path (objs w self) = Some content ->
  write w self data delta trunc = Ok w' ->
  w' = update_size (set_files w (<[path (objs w self) := content ++ data]> (files w))) self.
Proof.
  intros Hfile. unfold write, open_file. cbn zeta. rewrite Hfile.
  destruct (_height_to_offset _ _ _) as [[offset f]|] eqn:Ho; [|discriminate].
  apply height_to_offset_entry_position in Ho. destruct Ho as [-> ->].
  intros [= <-].
  rewrite Z.ltb_irrefl, andb_false_r. do 3 f_equal.
  unfold write_bytes, seek_set, seek_end, tell, flen, BytesIO. cbn [fdata fpos].
  rewrite Nat2Z.id, firstn_all, Nat.sub_diag. cbn [replicate app].
  rewrite drop_ge by lia. by rewrite app_nil_r.
Qed.

(** After [store_paths] every object of the registry has its own path as
    [old_path]. *)
Lemma store_paths_fold l : forall w,
  let w' := foldl (fun w b => set_obj w b (set_old_path (objs w b) (Some (path (objs w b))))) w l in
  files w' = files w /\ blockchains w' = blockchains w /\
  (forall r, checkpoint (objs w' r) = checkpoint (objs w r) /\
             parent_id (objs w' r) = parent_id (objs w r) /\
             _size (objs w' r) = _size (objs w r)) /\
  (forall r, r ∈ l \/ old_path (objs w r) = Some (path (objs w r)) ->
             old_path (objs w' r) = Some (path (objs w r))).
Proof.
  induction l as [|b l IH]; intros w; cbn [foldl].
  - repeat split; try done. intros r [Hr|Hr]; [by apply elem_of_nil in Hr|done].
  - pose (w1 := set_obj w b (set_old_path (objs w b) (Some (path (objs w b))))).
    assert (Hsame : forall r,
      checkpoint (objs w1 r) = checkpoint (objs w r) /\
      parent_id (objs w1 r) = parent_id (objs w r) /\
      _size (objs w1 r) = _size (objs w r)).
    { intros r. unfold w1. cbn [objs set_obj]. destruct (decide (r = b)) as [->|]; done. }
    assert (Hpath : forall r, path (objs w1 r) = path (objs w r)).
    { intros r. unfold path. destruct (Hsame r) as (-> & -> & _). done. }
    assert (Hold1 : forall r, r = b \/ old_path (objs w r) = Some (path (objs w r)) ->
                              old_path (objs w1 r) = Some (path (objs w1 r))).
    { intros r Hr. rewrite Hpath. unfold w1. cbn [objs set_obj].
      destruct (decide (r = b)) as [->|Hne]; [done|]. by destruct Hr. }
    specialize (IH w1). cbn zeta in IH. fold w1.
    destruct IH as (Hf & Hb & Hfields & Hold).
    split; [by rewrite Hf|]. split; [by rewrite Hb|]. split.
    + intros r. destruct (Hfields r) as (-> & -> & ->). apply Hsame.
    + intros r Hr. rewrite <- Hpath. apply Hold.
      destruct Hr as [Hr|Hr].
      * apply elem_of_cons in Hr. destruct Hr as [->|Hr]; [|by left].
        right. apply Hold1. by left.
      * right. apply Hold1. by right.
Qed.

(** The renaming loop does nothing when every other object still has the
    path that was stored for it. *)
Lemma move_files_skip w self parent_ bs :
  (forall b, b ∈ bs -> b = self \/ b = parent_ \/
                        old_path (objs w b) = Some (path (objs w b))) ->
  move_files w self parent_ bs = Done w.
Proof.
  induction bs as [|b bs IH]; intros H; cbn [move_files]; [done|].
  destruct (H b) as [->|[->|Hold]]; [by left|..].
  - rewrite bool_decide_eq_true_2 by done. apply IH. intros b' Hb'. apply H. by right.
  - rewrite (bool_decide_eq_true_2 (parent_ = parent_)) by done. rewrite orb_true_r.
    apply IH. intros b' Hb'. apply H. by right.
  - destruct (bool_decide (b = self) || bool_decide (b = parent_)).
    + apply IH. intros b' Hb'. apply H. by right.
    + rewrite Hold. rewrite bool_decide_eq_true_2 by done.
      apply IH. intros b' Hb'. apply H. by right.
Qed.

Lemma read_all_BytesIO d : read_all (BytesIO d) = (d, mkFile d (Z.of_nat (length d))).
Proof.
  unfold read_all, read, slice, flen, BytesIO. cbn [fdata fpos].
  destruct (Z.leb_spec (Z.of_nat (length d)) 0) as [Hle|Hgt].
  - assert (d = []) as -> by (apply nil_length_inv; lia). done.
  - rewrite Nat2Z.id. cbn [Z.to_nat drop]. rewrite firstn_all. done.
Qed.

Lemma read_nothing f : fst (read f 0) = [].
Proof. unfold read, slice. cbn [fst]. by destruct (_ <=? _). Qed.

Lemma path_checkpoint_ne b1 b2 p :
  parent_id b1 = Some p -> checkpoint b2 <> checkpoint b1 -> path b1 <> path b2.
Proof.
  unfold path. intros -> Hne. destruct (parent_id b2); [|done].
  intros [= _ Heq]. congruence.
Qed.

Lemma swap_parameters_spec w self parent_ pid c n :
  parent_ <> self ->
  let w' := swap_parameters w self parent_ pid c n in
  files w' = files w /\ blockchains w' = blockchains w /\
  objs w' self = mkBlockchain (checkpoint (objs w parent_)) (parent_id (objs w parent_))
                              (_size (objs w parent_)) (old_path (objs w self)) /\
  objs w' parent_ = mkBlockchain c pid n (old_path (objs w parent_)) /\
  (forall r, r <> self -> r <> parent_ -> objs w' r = objs w r).
Proof.
  intros Hne. cbn zeta. unfold swap_parameters.
  cbn [files blockchains objs set_obj].
  repeat split; try done.
  - repeat (destruct (decide _); try done).
  - repeat (destruct (decide _); try done).
  - intros r H1 H2. repeat (destruct (decide _); try done).
Qed.

(** C2: whenever [swap_with_parent] swaps a segment with its parent and
    completes, the entry at the segment's original checkpoint is the former
    parent object and its file, the segment's old file, holds exactly what
    the segment's file held before; the entry at the parent's original
    checkpoint is the segment's object and its file, the parent's old file,
    holds all of the parent's old content followed by the segment's.  None
    of the parent's headers reaches the segment's old file, and the
    parent's headers above the fork point are not replaced. *)
Theorem swap_with_parent_appends_instead_of_exchanging w self pid par mine theirs w' :
  parent_id (objs w self) = Some pid ->
  blockchains w !! pid = Some par ->
  checkpoint (objs w par) <> checkpoint (objs w self) ->
  height w par - checkpoint (objs w self) + 1 < size w self ->
  files w !! path (objs w self) = Some mine ->
  files w !! path (objs w par) = Some theirs ->
  swap_with_parent w self = Done w' ->
  blockchains w' !! checkpoint (objs w self) = Some par /\
  path (objs w' par) = path (objs w self) /\
  files w' !! path (objs w self) = Some mine /\
  blockchains w' !! checkpoint (objs w par) = Some self /\
  path (objs w' self) = path (objs w par) /\
  files w' !! path (objs w par) = Some (theirs ++ mine).
Proof.
  intros Hpid Hreg Hcp Hlonger Hmine Htheirs.
  assert (Hne : par <> self) by (intros ->; done).
  pose proof (path_checkpoint_ne _ _ _ Hpid Hcp) as Hpaths.
  unfold swap_with_parent, parent. rewrite Hpid, Hreg.
  destruct (Z.leb_spec (size w self) (height w par - checkpoint (objs w self) + 1)); [lia|].
  unfold open_file. rewrite Hmine, Htheirs, read_all_BytesIO.
  destruct (_height_to_offset (BytesIO theirs) _ 0) as [[offset f]|] eqn:Ho1; [|discriminate].
  apply height_to_offset_entry_position in Ho1. destruct Ho1 as [-> ->].
  destruct (_height_to_offset (BytesIO theirs) _ _) as [[length_ f]|] eqn:Ho2; [|discriminate].
  apply height_to_offset_entry_position in Ho2. destruct Ho2 as [-> ->].
  destruct (read _ _) as [parent_data f] eqn:Hrd.
  assert (parent_data = []) as -> by (rewrite <- (read_nothing (seek_set (BytesIO theirs) (tell (BytesIO theirs)))); change (tell (BytesIO theirs)) with 0 in *; by rewrite Hrd).
  destruct (write w self [] 0 false) as [w1|] eqn:Hw1; [|discriminate].
  apply (write_spec _ _ _ _ _ _ mine Hmine) in Hw1. rewrite app_nil_r in Hw1.
  assert (Hobj1 : forall r, checkpoint (objs w1 r) = checkpoint (objs w r) /\
                            parent_id (objs w1 r) = parent_id (objs w r) /\
                            old_path (objs w1 r) = old_path (objs w r)).
  { intros r. rewrite Hw1.
    apply (update_size_fields (set_files w (<[path (objs w self):=mine]> (files w))) self r). }
  assert (Hpath1 : forall r, path (objs w1 r) = path (objs w r)).
  { intros r. unfold path. destruct (Hobj1 r) as (-> & -> & _). done. }
  assert (Hfiles1 : files w1 = <[path (objs w self) := mine]> (files w)).
  { rewrite Hw1, update_size_files. done. }
  assert (Hreg1 : blockchains w1 = blockchains w).
  { rewrite Hw1, update_size_registry. done. }
  assert (Htheirs1 : files w1 !! path (objs w1 par) = Some theirs).
  { rewrite Hpath1, Hfiles1, lookup_insert_ne; done. }
  destruct (write w1 par mine _ false) as [w2|] eqn:Hw2; [|discriminate].
  apply (write_spec _ _ _ _ _ _ theirs Htheirs1) in Hw2.
  assert (Hobj2 : forall r, checkpoint (objs w2 r) = checkpoint (objs w r) /\
                            parent_id (objs w2 r) = parent_id (objs w r)).
  { intros r. rewrite Hw2.
    destruct (update_size_fields
      (set_files w1 (<[path (objs w1 par):=theirs ++ mine]> (files w1))) par r) as (-> & -> & _).
    cbn [objs set_files]. destruct (Hobj1 r) as (-> & -> & _). done. }
  assert (Hfiles2 : files w2 = <[path (objs w par) := theirs ++ mine]>
                                 (<[path (objs w self) := mine]> (files w))).
  { rewrite Hw2, update_size_files. cbn [files set_files]. by rewrite Hpath1, Hfiles1. }
  assert (Hreg2 : blockchains w2 = blockchains w).
  { rewrite Hw2, update_size_registry. done. }
  pose proof (store_paths_fold (registry_values w2) w2) as Hsp.
  cbn zeta in Hsp. fold (store_paths w2) in Hsp.
  destruct Hsp as (Hfiles3 & Hreg3 & Hobj3 & Hold3).
  set (w3 := store_paths w2) in *.
  pose proof (swap_parameters_spec w3 self par (Some pid) (checkpoint (objs w self))
                (height w par - checkpoint (objs w self) + 1) Hne) as Hsw.
  cbn zeta in Hsw. destruct Hsw as (Hfiles4 & Hreg4 & Hself4 & Hpar4 & Hother4).
  set (w4 := swap_parameters w3 self par (Some pid) (checkpoint (objs w self))
               (height w par - checkpoint (objs w self) + 1)) in *.
  assert (Hpath3 : forall r, path (objs w3 r) = path (objs w r)).
  { intros r. unfold path. destruct (Hobj3 r) as (-> & -> & _).
    destruct (Hobj2 r) as (-> & ->). done. }
  rewrite move_files_skip.
  2:{ intros b Hb. destruct (decide (b = self)) as [|Hbs]; [by left|].
      destruct (decide (b = par)) as [|Hbp]; [by right; left|].
      right; right. rewrite Hother4 by done.
      unfold registry_values in Hb. rewrite Hreg4, Hreg3 in Hb.
      rewrite (Hold3 b) by (by left).
      f_equal. unfold path. destruct (Hobj3 b) as (-> & -> & _). done. }
  intros [= <-]. unfold update_pointers. cbn [blockchains files objs set_registry].
  rewrite Hself4, Hpar4. cbn [checkpoint].
  destruct (Hobj3 par) as (Hc3 & Hp3 & _). destruct (Hobj2 par) as (Hc2 & Hp2).
  rewrite Hc3, Hc2, Hfiles4, Hfiles3, Hfiles2.
  split; [by rewrite lookup_insert_eq|].
  split; [unfold path; cbn [parent_id checkpoint]; by rewrite Hpid|].
  split; [by rewrite lookup_insert_ne, lookup_insert_eq|].
  split; [by rewrite lookup_insert_ne, lookup_insert_eq|].
  split; [|by rewrite lookup_insert_eq].
  unfold path. cbn [parent_id checkpoint]. by rewrite Hp3, Hp2.
Qed.

Lemma swap_with_parent_appends_instead_of_exchanging_witness :
  let w := appended_fork_world in
  let w' := world_of (swap_with_parent w FORK) in
  parent_id (objs w FORK) = Some 0 /\
  blockchains w !! 0 = Some ROOT /\
  checkpoint (objs w ROOT) <> checkpoint (objs w FORK) /\
  height w ROOT - checkpoint (objs w FORK) + 1 < size w FORK /\
  files w !! path (objs w FORK) = Some (sample_record 21 ++ sample_record 22) /\
  files w !! path (objs w ROOT) = Some (sample_record 10 ++ sample_record 11) /\
  swap_with_parent w FORK = Done w' /\
  blockchains w' !! checkpoint (objs w FORK) = Some ROOT /\
  path (objs w' ROOT) = path (objs w FORK) /\
  files w' !! path (objs w FORK) = Some (sample_record 21 ++ sample_record 22) /\
  blockchains w' !! checkpoint (objs w ROOT) = Some FORK /\
  path (objs w' FORK) = path (objs w ROOT) /\
  files w' !! path (objs w ROOT)
    = Some ((sample_record 10 ++ sample_record 11)
              ++ sample_record 21 ++ sample_record 22).
Proof.
  cbv zeta.
  split; [vm_compute; reflexivity|]. split; [vm_compute; reflexivity|].
  split; [vm_compute; discriminate|]. split; [vm_compute; reflexivity|].
  split; [vm_compute; reflexivity|]. split; [vm_compute; reflexivity|].
  split; [vm_compute; reflexivity|].
  eapply (swap_with_parent_appends_instead_of_exchanging _ FORK 0 ROOT);
    first [ vm_compute; reflexivity | vm_compute; discriminate ].
Defined.

(** The same on the way from [save_header]: the root holds [P0 P1] and has
    cached size 1, the fork at checkpoint 1 holds [F1] and has cached size
    0; appending [F2] to the fork succeeds and swaps the two segments.
    Afterwards the entry at checkpoint 1 is the former root object, whose
    file still holds [F1 F2], and the entry at checkpoint 0 is the former
    fork object, whose file holds [P0 P1 F1 F2]. *)
Example save_header_swap_example :
  let o := save_header fork_world FORK (sample_header 22 1) in
  let w := world_of o in
  o = Done w /\
  blockchains w !! 1 = Some ROOT /\
  path (objs w ROOT) = Some (0, 1) /\
  files w !! Some (0, 1) = Some (sample_record 21 ++ sample_record 22) /\
  blockchains w !! 0 = Some FORK /\
  path (objs w FORK) = None /\
  files w !! None =
    Some (sample_record 10 ++ sample_record 11 ++ sample_record 21 ++ sample_record 22).
Proof. by_evaluation. Qed.

(** ** Chunks *)

(** C5: [connect_chunk] returns [False] on every input and leaves the
    files, the objects and the registry as they were: [verify_chunk] raises
    before it has looked at the first record. *)
Theorem connect_chunk_always_false net recursion_limit w self idx hexdata :
  connect_chunk net recursion_limit w self idx hexdata = (w, false).
Proof.
  unfold connect_chunk. destruct (bfh hexdata); [|done].
  unfold verify_chunk. destruct (negb (idx =? 0)); [|done].
  destruct (read_header _ _ _ _); done.
Qed.

(** ** The codec *)

Lemma byte_to_Z_range x : 0 <= byte_to_Z x < 256.
Proof.
  unfold byte_to_Z. pose proof (Byte.to_N_bounded x). lia.
Qed.

Lemma byte_of_Z_to_Z x : byte_of_Z (byte_to_Z x) = x.
Proof.
  unfold byte_of_Z. rewrite Z.mod_small by apply byte_to_Z_range.
  unfold byte_to_Z. rewrite N2Z.id, Byte.of_to_N. done.
Qed.

Lemma le_to_Z_of_Z_mod k n : le_to_Z (le_of_Z k n) = n mod 256 ^ Z.of_nat k.
Proof.
  revert n; induction k as [|k IH]; intros n.
  - simpl. by rewrite Z.mod_1_r.
  - cbn [le_of_Z le_to_Z]. rewrite byte_to_Z_of_Z, IH.
    rewrite Nat2Z.inj_succ, Z.pow_succ_r by lia.
    rewrite (Z.rem_mul_r n 256 (256 ^ Z.of_nat k)) by lia. done.
Qed.

Lemma bfh_bh2u b : bfh (bh2u b) = Ok b.
Proof.
  induction b as [|x b IH]; [done|].
  cbn [bh2u flat_map app bfh]. fold (bh2u b).
  pose proof (byte_to_Z_range x) as Hx.
  rewrite !hex_val_digit.
  - rewrite IH. do 2 f_equal.
    rewrite <- (byte_of_Z_to_Z x) at 3. f_equal.
    pose proof (Z.div_mod (byte_to_Z x) 16). lia.
  - apply Z.mod_pos_bound. lia.
  - split; [apply Z.div_pos; lia | apply Z.div_lt_upper_bound; lia].
Qed.

Lemma str_to_hash_to_str b : str_to_hash (Some (hash_to_str b)) = Ok b.
Proof.
  unfold str_to_hash, hash_to_str. rewrite bfh_bh2u. by rewrite rev_involutive.
Qed.

Lemma Z_range_forallb (P : Z -> bool) n :
  forallb P (map Z.of_nat (seq 0 n)) = true ->
  forall v, 0 <= v < Z.of_nat n -> P v = true.
Proof.
  intros H v Hv. rewrite forallb_forall in H. apply H.
  rewrite <- (Z2Nat.id v) by lia. apply in_map, in_seq. lia.
Qed.

Lemma b64_val_char v :
  0 <= v < 64 ->
  b64_val (b64_char v) = Some v /\ Ascii.eqb (b64_char v) "=" = false.
Proof.
  intros Hv.
  pose proof (Z_range_forallb
    (fun v => match b64_val (b64_char v) with Some u => u =? v | None => false end
              && negb (Ascii.eqb (b64_char v) "=")) 64 eq_refl v Hv) as H.
  cbv beta in H. apply andb_true_iff in H. destruct H as [H1 H2].
  destruct (b64_val (b64_char v)) as [u|]; [|discriminate].
  apply Z.eqb_eq in H1. subst u. split; [done|].
  by apply negb_true_iff.
Qed.

Ltac b64_step :=
  match goal with
  | |- context [Ascii.eqb (b64_char ?v) "="] =>
      let H := fresh in
      assert (H : 0 <= v < 64) by (Z.div_mod_to_equations; lia);
      destruct (b64_val_char v H) as [-> ->]; clear H
  end.

Lemma byte_of_Z_eq e x : e = byte_to_Z x -> byte_of_Z e = x.
Proof. intros ->. apply byte_of_Z_to_Z. Qed.

Lemma b64decode_encode_acc n : forall b out,
  (length b <= n)%nat ->
  a2b_base64 0 0 0 out (b64encode b) = Ok (rev out ++ b).
Proof.
  induction n as [n IH] using lt_wf_ind. intros b out Hlen.
  destruct b as [|x [|y [|z b]]].
  - cbn. by rewrite app_nil_r.
  - pose proof (byte_to_Z_range x).
    cbn [b64encode a2b_base64]. cbn zeta.
    repeat b64_step. cbn [Z.eqb Pos.eqb Ascii.eqb Bool.eqb andb rev app].
    change (4 <=? 2 + (0 + 1)) with false. change (2 <=? 2) with true.
    change (4 <=? 2 + (0 + 1 + 1)) with true. cbn [andb].
    f_equal. f_equal. f_equal. apply byte_of_Z_eq. Z.div_mod_to_equations. lia.
  - pose proof (byte_to_Z_range x). pose proof (byte_to_Z_range y).
    cbn [b64encode a2b_base64]. cbn zeta.
    repeat b64_step. cbn [Z.eqb Pos.eqb Ascii.eqb Bool.eqb andb rev app].
    change (4 <=? 3 + (0 + 1)) with true. change (2 <=? 3) with true. cbn [andb].
    rewrite <- app_assoc. cbn [app]. do 2 f_equal.
    f_equal; [|f_equal]; apply byte_of_Z_eq; Z.div_mod_to_equations; lia.
  - pose proof (byte_to_Z_range x). pose proof (byte_to_Z_range y).
    pose proof (byte_to_Z_range z).
    cbn [b64encode a2b_base64]. cbn zeta.
    repeat b64_step. cbn [Z.eqb Pos.eqb].
    rewrite (IH (length b)); [|simpl in Hlen; lia|lia].
    cbn [rev]. rewrite <- !app_assoc. cbn [app]. do 2 f_equal.
    f_equal; [|f_equal; [|f_equal]]; try (apply byte_of_Z_eq; Z.div_mod_to_equations; lia).
Qed.

Lemma b64decode_encode b : b64decode (b64encode b) = Ok b.
Proof. unfold b64decode. by rewrite (b64decode_encode_acc (length b)). Qed.

Lemma read_at (D : bytes) p pre x post n :
  D = pre ++ x ++ post -> p = Z.of_nat (length pre) ->
  Z.to_nat n = length x -> x <> [] ->
  read (mkFile D p) n = (x, mkFile D (p + Z.of_nat (length x))).
Proof.
  intros -> -> Hn Hx. unfold read. cbn [fdata fpos].
  unfold slice. rewrite !length_app.
  destruct (Z.leb_spec (Z.of_nat (length pre + (length x + length post)))
              (Z.of_nat (length pre))) as [Hle|_].
  - destruct x; [done|]. simpl in Hle. lia.
  - rewrite Nat2Z.id, drop_app_length, Hn, take_app_length. done.
Qed.

Lemma nonempty_length {A} (x : list A) k : length x = S k -> x <> [].
Proof. by destruct x. Qed.

(** Serialising a valid header and deserialising the bytes gives the
    header back, with the caller's height, except that the version comes
    back reduced modulo [2 ^ 32]. *)
Lemma codec_roundtrip h ht :
  valid_header h ->
  exists b,
    serialize_header h = Ok b /\
    exists f,
      deserialize_header (BytesIO b) ht
        = Ok (set_version (set_block_height h ht) (version h mod 2 ^ 32), f).
Proof.
  destruct h as [v prev merkle reserved ts bts nce sol_str hgt].
  unfold valid_header. cbn [version prev_block_hash merkle_root hash_reserved
                              timestamp bits nonce n_solution].
  intros (Hv & (p & -> & b1 & Hb1 & ->) & (b2 & Hb2 & ->) & (b3 & Hb3 & ->)
          & Hts & Hbits & (b4 & Hb4 & ->) & (sol & Hsol & ->)).
  unfold serialize_header.
  cbn [version prev_block_hash merkle_root hash_reserved timestamp bits nonce n_solution].
  unfold pack_i, pack_I, pack_unsigned.
  rewrite !str_to_hash_to_str, b64decode_encode.
  destruct (Z.leb_spec (- 2 ^ 31) v); [|lia]. destruct (Z.ltb_spec v (2 ^ 31)); [|lia].
  destruct (Z.leb_spec 0 ts); [|lia]. destruct (Z.ltb_spec ts (256 ^ Z.of_nat 4)); [|lia].
  destruct (Z.leb_spec 0 bts); [|lia]. destruct (Z.ltb_spec bts (256 ^ Z.of_nat 4)); [|lia].
  cbn [andb].
  set (D := le_of_Z 4 v ++ b1 ++ b2 ++ b3 ++ le_of_Z 4 ts ++ le_of_Z 4 bts ++ b4
              ++ ser_char_vector sol).
  exists D. split; [done|].
  unfold deserialize_header, BytesIO.
  rewrite (read_at D 0 [] (le_of_Z 4 v) (b1 ++ b2 ++ b3 ++ le_of_Z 4 ts ++ le_of_Z 4 bts ++ b4
              ++ ser_char_vector sol) 4); [|done|done|done|by eapply nonempty_length].
  unfold unpack_I, unpack_unsigned. rewrite !le_of_Z_length.
  destruct (decide (4%nat = 4%nat)); [|done]. rewrite !le_to_Z_of_Z_mod.
  rewrite (read_at D _ (le_of_Z 4 v) b1 (b2 ++ b3 ++ le_of_Z 4 ts ++ le_of_Z 4 bts ++ b4
              ++ ser_char_vector sol) 32);
    [|done|done|by rewrite Hb1|by eapply nonempty_length].
  rewrite (read_at D _ (le_of_Z 4 v ++ b1) b2 (b3 ++ le_of_Z 4 ts ++ le_of_Z 4 bts ++ b4
              ++ ser_char_vector sol) 32);
    [|by rewrite <- !app_assoc|rewrite length_app, Hb1; done|by rewrite Hb2|by eapply nonempty_length].
  rewrite (read_at D _ (le_of_Z 4 v ++ b1 ++ b2) b3 (le_of_Z 4 ts ++ le_of_Z 4 bts ++ b4
              ++ ser_char_vector sol) 32);
    [|by rewrite <- !app_assoc|rewrite !length_app, Hb1, Hb2; done|by rewrite Hb3|by eapply nonempty_length].
  rewrite (read_at D _ (le_of_Z 4 v ++ b1 ++ b2 ++ b3) (le_of_Z 4 ts) (le_of_Z 4 bts ++ b4
              ++ ser_char_vector sol) 4);
    [|by rewrite <- !app_assoc|rewrite !length_app, Hb1, Hb2, Hb3; done|done|by eapply nonempty_length].
  rewrite !le_of_Z_length. destruct (decide (4%nat = 4%nat)); [|done].
  rewrite !le_to_Z_of_Z_mod.
  rewrite (read_at D _ (le_of_Z 4 v ++ b1 ++ b2 ++ b3 ++ le_of_Z 4 ts) (le_of_Z 4 bts) (b4
              ++ ser_char_vector sol) 4);
    [|by rewrite <- !app_assoc|rewrite !length_app, Hb1, Hb2, Hb3; done|done|by eapply nonempty_length].
  rewrite !le_of_Z_length. destruct (decide (4%nat = 4%nat)); [|done].
  rewrite !le_to_Z_of_Z_mod.
  rewrite (read_at D _ (le_of_Z 4 v ++ b1 ++ b2 ++ b3 ++ le_of_Z 4 ts ++ le_of_Z 4 bts) b4
             (ser_char_vector sol) 32);
    [|by rewrite <- !app_assoc|rewrite !length_app, Hb1, Hb2, Hb3; done|by rewrite Hb4|by eapply nonempty_length].
  rewrite Hb1, Hb2, Hb3, Hb4.
  (* the size-prefixed blob *)
  unfold deser_char_vector.
  set (pre := le_of_Z 4 v ++ b1 ++ b2 ++ b3 ++ le_of_Z 4 ts ++ le_of_Z 4 bts ++ b4).
  assert (Hpre : length pre = 140%nat).
  { unfold pre. rewrite !length_app, !le_of_Z_length, Hb1, Hb2, Hb3, Hb4. done. }
  replace D with (pre ++ ser_compact_size (Z.of_nat (length sol)) ++ (sol ++ []))
    by (unfold D, pre, ser_char_vector; rewrite <- !app_assoc, app_nil_r; done).
  match goal with
  | |- context [read_vector_size (mkFile _ ?p)] =>
      replace p with (Z.of_nat (length pre)) by (rewrite Hpre; reflexivity)
  end.
  rewrite read_vector_size_ser by lia.
  assert (Hread : fst (read (mkFile (pre ++ ser_compact_size (Z.of_nat (length sol)) ++ sol ++ [])
                         (Z.of_nat (length (pre ++ ser_compact_size (Z.of_nat (length sol))))))
                      (Z.of_nat (length sol))) = sol).
  { destruct (length sol) as [|k] eqn:Hl.
    - apply nil_length_inv in Hl. rewrite Hl.
      unfold read, slice. cbn [fdata fpos fst]. rewrite !app_nil_r.
      rewrite Z.leb_refl. done.
    - rewrite <- Hl. rewrite app_assoc.
      rewrite (read_at _ _ (pre ++ ser_compact_size (Z.of_nat (length sol))) sol []
                 (Z.of_nat (length sol)));
        [done|done|done|by rewrite Nat2Z.id|by eapply nonempty_length]. }
  destruct (read _ _) as [got f'] eqn:Hgot. cbn [fst] in Hread. subst got.
  rewrite Z.eqb_refl. unfold set_version, set_block_height. cbn.
  rewrite (Z.mod_small ts), (Z.mod_small bts) by lia.
  change (256 ^ Z.of_nat 4) with (2 ^ 32). by exists f'.
Qed.

(** For a version that is not negative the round trip is exact. *)
Corollary codec_roundtrip_nonnegative h ht :
  valid_header h -> 0 <= version h ->
  exists b,
    serialize_header h = Ok b /\
    exists f, deserialize_header (BytesIO b) ht = Ok (set_block_height h ht, f).
Proof.
  intros Hv Hpos. destruct (codec_roundtrip h ht Hv) as (b & Hs & f & Hd).
  exists b. split; [done|]. exists f. rewrite Hd.
  destruct Hv as [Hr _]. rewrite Z.mod_small by lia.
  by destruct h.
Qed.

Lemma sample_header_valid v ht :
  - 2 ^ 31 <= v < 2 ^ 31 -> valid_header (sample_header v ht).
Proof.
  intros Hv.
  assert (Hz : is_hash_str zero_hash) by (by exists (replicate 32 Byte.x00)).
  unfold valid_header. cbn. repeat split; try lia; try done.
  - by exists zero_hash.
  - by exists [].
Qed.

(** C6: for every valid header whose version is negative, the bytes that
    [serialize_header] produces deserialise to a header whose version is
    [2 ^ 32] more, so differs from the original; all other fields but
    [block_height] are the original ones. *)
Theorem deserialize_header_version_unsigned h ht :
  valid_header h ->
  version h < 0 ->
  exists b f h',
    serialize_header h = Ok b /\
    deserialize_header (BytesIO b) ht = Ok (h', f) /\
    version h' = version h + 2 ^ 32 /\
    version h' <> version h /\
    set_version h' (version h) = set_block_height h ht.
Proof.
  intros Hv Hneg. destruct (codec_roundtrip h ht Hv) as (b & Hs & f & Hd).
  exists b, f, (set_version (set_block_height h ht) (version h mod 2 ^ 32)).
  destruct Hv as [Hr _].
  assert (Hm : version h mod 2 ^ 32 = version h + 2 ^ 32).
  { symmetry. apply (Z.mod_unique _ _ (-1)); lia. }
  split; [done|]. split; [done|]. cbn [version set_version].
  split; [done|]. split; [lia|]. by destruct h.
Qed.

Lemma deserialize_header_version_unsigned_witness :
  valid_header (sample_header (-1) 5) /\
  version (sample_header (-1) 5) < 0 /\
  exists b f h',
    serialize_header (sample_header (-1) 5) = Ok b /\
    deserialize_header (BytesIO b) 7 = Ok (h', f) /\
    version h' = version (sample_header (-1) 5) + 2 ^ 32 /\
    version h' <> version (sample_header (-1) 5) /\
    set_version h' (version (sample_header (-1) 5))
      = set_block_height (sample_header (-1) 5) 7.
Proof.
  assert (Hv : valid_header (sample_header (-1) 5))
    by (apply sample_header_valid; lia).
  split; [exact Hv|]. split; [reflexivity|].
  apply (deserialize_header_version_unsigned (sample_header (-1) 5) 7);
    [exact Hv | reflexivity].
Defined.

(** The same round trip, evaluated: version -1 comes back as 4294967295. *)
Example deserialize_header_version_example :
  serialize_header (sample_header (-1) 5) = Ok (sample_record (-1)) /\
  deserialize_header (BytesIO (sample_record (-1))) 5
    = Ok (sample_header 4294967295 5, mkFile (sample_record (-1)) 141).
Proof. by_evaluation. Qed.

(** C10: when [prev_block_hash] is absent, [hash_header] leaves the
    caller's header with a [prev_block_hash] of 128 characters ['0']
    (['00' * 64]), not 64; the other fields are untouched. *)
Theorem hash_header_sets_128_zeros ext h :
  prev_block_hash h = None ->
  fst (hash_header ext (Some h))
    = Some (set_prev_block_hash h (Some (replicate 128 "0"%char))) /\
  fst (hash_header ext None) = None.
Proof. intros Hp. unfold hash_header. rewrite Hp. split; reflexivity. Qed.

Lemma hash_header_sets_128_zeros_witness :
  let h := set_prev_block_hash (sample_header 4 0) None in
  prev_block_hash h = None /\
  fst (hash_header sample_ext (Some h))
    = Some (set_prev_block_hash h (Some (replicate 128 "0"%char))) /\
  fst (hash_header sample_ext None) = None.
Proof.
  split; [reflexivity|].
  apply (hash_header_sets_128_zeros sample_ext
           (set_prev_block_hash (sample_header 4 0) None)).
  reflexivity.
Defined.

(** ** Difficulty *)

(** The two fields of a 32-bit compact value put together again. *)
Lemma compact_fields_rebuild bits :
  0 <= bits < 2 ^ 32 ->
  Z.lor (Z.shiftl (Z.land (Z.shiftr bits 24) 0xff) 24) (Z.land bits 0xffffff) = bits.
Proof.
  intros Hb. apply Z.bits_inj'. intros n Hn.
  rewrite Z.lor_spec, Z.land_spec.
  change 0xffffff with (Z.ones 24). change 0xff with (Z.ones 8).
  destruct (Z.ltb_spec n 24) as [Hlt|Hge].
  - rewrite Z.shiftl_spec_low by lia. rewrite Z.ones_spec_low by lia.
    by rewrite andb_true_r.
  - rewrite Z.shiftl_spec by lia. rewrite Z.land_spec, Z.shiftr_spec by lia.
    replace (n - 24 + 24) with n by lia.
    rewrite (Z.ones_spec_high 24) by lia. rewrite andb_false_r, orb_false_r.
    destruct (Z.ltb_spec n 32) as [Hlt|Hge'].
    + rewrite Z.ones_spec_low by lia. by rewrite andb_true_r.
    + rewrite Z.ones_spec_high by lia. rewrite andb_false_r.
      symmetry. destruct (Z.eq_dec bits 0) as [->|Hnz]; [apply Z.bits_0|].
      apply Z.bits_above_log2; [lia|].
      assert (Z.log2 bits < 32) by (apply Z.log2_lt_pow2; lia). lia.
Qed.

(** C7: for every compact [bits] that [bits_to_target] accepts, with target
    [target], [target_to_bits target] returns a compact value that
    [bits_to_target] decodes to the same [target]; for a [bits] of 32 bits
    that value is [bits] itself. *)
Theorem bits_target_roundtrip (bits target : Z) :
  bits_to_target bits = Ok target ->
  exists bits',
    target_to_bits target = Ok bits' /\
    bits_to_target bits' = Ok target /\
    (0 <= bits < 2 ^ 32 -> bits' = bits).
Proof.
  unfold bits_to_target at 1.
  pose proof (compact_fields_rebuild bits) as Hrebuild.
  set (N := Z.land (Z.shiftr bits 24) 0xff) in *.
  set (B := Z.land bits 0xffffff) in *.
  destruct (Z.leb_spec 3 N), (Z.leb_spec N 0x1d); try discriminate.
  destruct (Z.leb_spec 0x8000 B), (Z.leb_spec B 0x7fffff); try discriminate.
  cbn [andb negb]. intros [= <-].
  exists (Z.lor (Z.shiftl N 24) B). split; [|split].
  - apply target_to_bits_canonical; lia.
  - destruct (bits_fields N B) as [HfN HfB]; [lia..|].
    unfold bits_to_target. rewrite HfN, HfB.
    destruct (Z.leb_spec 3 N), (Z.leb_spec N 0x1d); try lia.
    destruct (Z.leb_spec 0x8000 B), (Z.leb_spec B 0x7fffff); try lia.
    reflexivity.
  - exact Hrebuild.
Qed.

Lemma bits_target_roundtrip_witness :
  bits_to_target 0x1d00ffff = Ok MAX_TARGET /\
  exists bits',
    target_to_bits MAX_TARGET = Ok bits' /\
    bits_to_target bits' = Ok MAX_TARGET /\
    (0 <= 0x1d00ffff < 2 ^ 32 -> bits' = 0x1d00ffff).
Proof.
  split; [reflexivity|].
  apply (bits_target_roundtrip 0x1d00ffff MAX_TARGET). reflexivity.
Defined.

(** C8: outside test mode and beyond the embedded checkpoints, when the
    first and the last header of period [index] can be read and the last
    one's [bits] decode to [target], [get_target] returns
    [min(MAX_TARGET, target * span // nTargetTimespan)], where [span] is the
    difference of the two timestamps clamped into
    [[nTargetTimespan // 4, nTargetTimespan * 4]] and [nTargetTimespan] is
    14 days in seconds. *)
Theorem get_target_retarget net recursion_limit w self index first last target :
  TESTNET net = false ->
  0 <= index ->
  Z.of_nat (length (CHECKPOINTS net)) <= index ->
  read_header recursion_limit w self (index * 2016) = Ok (Some first) ->
  read_header recursion_limit w self (index * 2016 + 2015) = Ok (Some last) ->
  bits_to_target (bits last) = Ok target ->
  let nTargetTimespan := 14 * 24 * 60 * 60 in
  let span :=
    Z.min (Z.max (timestamp last - timestamp first) (nTargetTimespan / 4))
          (nTargetTimespan * 4) in
  nTargetTimespan / 4 <= span <= nTargetTimespan * 4 /\
  get_target net recursion_limit w self index
    = Ok (Z.min MAX_TARGET (target * span / nTargetTimespan)).
Proof.
  intros Htest Hidx Hcp Hfirst Hlast Hbits. cbn zeta. split.
  - change (14 * 24 * 60 * 60 / 4) with 302400.
    change (14 * 24 * 60 * 60 * 4) with 4838400. lia.
  - unfold get_target. rewrite Htest.
    destruct (Z.eqb_spec index (-1)); [lia|].
    destruct (Z.ltb_spec index (Z.of_nat (length (CHECKPOINTS net)))); [lia|].
    rewrite Hfirst, Hlast, Hbits. reflexivity.
Qed.

Lemma get_target_retarget_witness :
  TESTNET sample_net = false /\
  0 <= 0 /\
  Z.of_nat (length (CHECKPOINTS sample_net)) <= 0 /\
  read_header 1000 retarget_world FORK (0 * 2016) = Ok (Some (timed_header 1000 0)) /\
  read_header 1000 retarget_world FORK (0 * 2016 + 2015)
    = Ok (Some (timed_header 2001000 2015)) /\
  bits_to_target (bits (timed_header 2001000 2015)) = Ok MAX_TARGET /\
  let nTargetTimespan := 14 * 24 * 60 * 60 in
  let span :=
    Z.min (Z.max (timestamp (timed_header 2001000 2015) - timestamp (timed_header 1000 0))
                 (nTargetTimespan / 4))
          (nTargetTimespan * 4) in
  nTargetTimespan / 4 <= span <= nTargetTimespan * 4 /\
  get_target sample_net 1000 retarget_world FORK 0
    = Ok (Z.min MAX_TARGET (MAX_TARGET * span / nTargetTimespan)).
Proof.
  split; [reflexivity|]. split; [lia|]. split; [vm_compute; discriminate|].
  split; [vm_compute; reflexivity|]. split; [vm_compute; reflexivity|].
  split; [vm_compute; reflexivity|].
  apply (get_target_retarget sample_net 1000 retarget_world FORK 0
           (timed_header 1000 0) (timed_header 2001000 2015) MAX_TARGET);
    first [ lia | vm_compute; first [reflexivity | discriminate] ].
Defined.

(** ** Connecting a header *)




(** * Further properties *)

(** ** The codec on streams *)

(** The sample records are complete records. *)
Lemma sample_records_complete l : Forall is_record (sample_record <$> l).
Proof.
  induction l as [|v l IH]; cbn [fmap list_fmap]; constructor;
    [apply sample_record_is_record | exact IH].
Qed.

Lemma read_blob (D : bytes) p pre x post :
  D = pre ++ x ++ post -> p = Z.of_nat (length pre) ->
  read (mkFile D p) (Z.of_nat (length x)) = (x, mkFile D (p + Z.of_nat (length x))).
Proof.
  intros HD Hp. destruct x as [|a x].
  - unfold read, slice. cbn [fdata fpos length]. change (Z.to_nat (Z.of_nat 0)) with 0%nat.
    rewrite take_0. by destruct (_ <=? _).
  - apply (read_at D p pre (a :: x) post); [done|done|by rewrite Nat2Z.id|done].
Qed.

Lemma deserialize_header_layout pre post v b1 b2 b3 ts bt b4 sol ht :
  length b1 = 32%nat -> length b2 = 32%nat -> length b3 = 32%nat ->
  length b4 = 32%nat -> Z.of_nat (length sol) < 2 ^ 64 ->
  let r := record_layout v b1 b2 b3 ts bt b4 sol in
  deserialize_header (mkFile (pre ++ r ++ post) (Z.of_nat (length pre))) ht
  = Ok (mkHeader (v mod 2 ^ 32) (Some (hash_to_str b1)) (hash_to_str b2)
                 (hash_to_str b3) (ts mod 2 ^ 32) (bt mod 2 ^ 32) (hash_to_str b4)
                 (b64encode sol) ht,
        mkFile (pre ++ r ++ post) (Z.of_nat (length pre) + Z.of_nat (length r))).
Proof.
  intros Hb1 Hb2 Hb3 Hb4 Hsol r.
  assert (Hr : length r = (140 + length (ser_char_vector sol))%nat).
  { unfold r, record_layout. rewrite !length_app, !le_of_Z_length, Hb1, Hb2, Hb3, Hb4. lia. }
  set (D := pre ++ r ++ post).
  set (tl := ser_char_vector sol ++ post).
  assert (HD : D = pre ++ le_of_Z 4 v ++ b1 ++ b2 ++ b3 ++ le_of_Z 4 ts ++ le_of_Z 4 bt
                     ++ b4 ++ tl).
  { unfold D, r, record_layout, tl. by rewrite <- !app_assoc. }
  unfold deserialize_header.
  rewrite (read_at D _ pre (le_of_Z 4 v) (b1 ++ b2 ++ b3 ++ le_of_Z 4 ts ++ le_of_Z 4 bt
             ++ b4 ++ tl) 4); [|done|done|done|by eapply nonempty_length].
  unfold unpack_I, unpack_unsigned. rewrite !le_of_Z_length.
  destruct (decide (4%nat = 4%nat)); [|done]. rewrite !le_to_Z_of_Z_mod.
  rewrite (read_at D _ (pre ++ le_of_Z 4 v) b1 (b2 ++ b3 ++ le_of_Z 4 ts ++ le_of_Z 4 bt
             ++ b4 ++ tl) 32);
    [|by rewrite HD, <- !app_assoc|by rewrite length_app, le_of_Z_length, Nat2Z.inj_add
     |by rewrite Hb1|by eapply nonempty_length].
  rewrite (read_at D _ (pre ++ le_of_Z 4 v ++ b1) b2 (b3 ++ le_of_Z 4 ts ++ le_of_Z 4 bt
             ++ b4 ++ tl) 32);
    [|by rewrite HD, <- !app_assoc
     |rewrite !length_app, le_of_Z_length, Hb1; lia
     |by rewrite Hb2|by eapply nonempty_length].
  rewrite (read_at D _ (pre ++ le_of_Z 4 v ++ b1 ++ b2) b3 (le_of_Z 4 ts ++ le_of_Z 4 bt
             ++ b4 ++ tl) 32);
    [|by rewrite HD, <- !app_assoc
     |rewrite !length_app, le_of_Z_length, Hb1, Hb2; lia
     |by rewrite Hb3|by eapply nonempty_length].
  rewrite (read_at D _ (pre ++ le_of_Z 4 v ++ b1 ++ b2 ++ b3) (le_of_Z 4 ts)
             (le_of_Z 4 bt ++ b4 ++ tl) 4);
    [|by rewrite HD, <- !app_assoc
     |rewrite !length_app, le_of_Z_length, Hb1, Hb2, Hb3; lia
     |done|by eapply nonempty_length].
  rewrite !le_of_Z_length. destruct (decide (4%nat = 4%nat)); [|done].
  rewrite !le_to_Z_of_Z_mod.
  rewrite (read_at D _ (pre ++ le_of_Z 4 v ++ b1 ++ b2 ++ b3 ++ le_of_Z 4 ts)
             (le_of_Z 4 bt) (b4 ++ tl) 4);
    [|by rewrite HD, <- !app_assoc
     |rewrite !length_app, !le_of_Z_length, Hb1, Hb2, Hb3; lia
     |done|by eapply nonempty_length].
  rewrite !le_of_Z_length. destruct (decide (4%nat = 4%nat)); [|done].
  rewrite !le_to_Z_of_Z_mod.
  rewrite (read_at D _ (pre ++ le_of_Z 4 v ++ b1 ++ b2 ++ b3 ++ le_of_Z 4 ts
                          ++ le_of_Z 4 bt) b4 tl 32);
    [|by rewrite HD, <- !app_assoc
     |rewrite !length_app, !le_of_Z_length, Hb1, Hb2, Hb3; lia
     |by rewrite Hb4|by eapply nonempty_length].
  rewrite Hb1, Hb2, Hb3, Hb4.
  unfold deser_char_vector.
  set (pre' := pre ++ le_of_Z 4 v ++ b1 ++ b2 ++ b3 ++ le_of_Z 4 ts ++ le_of_Z 4 bt ++ b4).
  assert (Hpre : length pre' = (length pre + 140)%nat).
  { unfold pre'. rewrite !length_app, !le_of_Z_length, Hb1, Hb2, Hb3, Hb4. lia. }
  assert (HD' : D = pre' ++ ser_compact_size (Z.of_nat (length sol)) ++ (sol ++ post)).
  { rewrite HD. unfold pre', tl, ser_char_vector. by rewrite <- !app_assoc. }
  match goal with
  | |- context [read_vector_size (mkFile _ ?p)] =>
      replace p with (Z.of_nat (length pre')) by (rewrite Hpre; lia)
  end.
  rewrite HD' at 1. rewrite read_vector_size_ser by lia. rewrite <- HD'.
  rewrite (read_blob D _ (pre' ++ ser_compact_size (Z.of_nat (length sol))) sol post);
    [|by rewrite HD', <- !app_assoc|done].
  rewrite Z.eqb_refl. change (256 ^ Z.of_nat 4) with (2 ^ 32).
  do 3 f_equal. rewrite Hr. unfold ser_char_vector. rewrite !length_app, Hpre. lia.
Qed.

Lemma byte_of_Z_add x k : byte_of_Z (byte_to_Z x + 256 * k) = x.
Proof.
  rewrite <- (byte_of_Z_to_Z x) at 2. unfold byte_of_Z.
  replace ((byte_to_Z x + 256 * k) mod 256) with (byte_to_Z x mod 256); [done|].
  replace (byte_to_Z x + 256 * k) with (byte_to_Z x + k * 256) by lia.
  by rewrite Z.mod_add by lia.
Qed.

Lemma le_of_Z_to_Z b : le_of_Z (length b) (le_to_Z b) = b.
Proof.
  induction b as [|x b IH]; [done|].
  cbn [length le_of_Z le_to_Z]. rewrite byte_of_Z_add. f_equal.
  replace ((byte_to_Z x + 256 * le_to_Z b) / 256) with (le_to_Z b); [done|].
  pose proof (byte_to_Z_range x). Z.div_mod_to_equations. lia.
Qed.

Lemma le_to_Z_range b : 0 <= le_to_Z b < 256 ^ Z.of_nat (length b).
Proof.
  induction b as [|x b IH]; [simpl; lia|].
  cbn [length le_to_Z]. rewrite Nat2Z.inj_succ, Z.pow_succ_r by lia.
  pose proof (byte_to_Z_range x). lia.
Qed.

Lemma record_layout_is_record v b1 b2 b3 ts bt b4 sol :
  length b1 = 32%nat -> length b2 = 32%nat -> length b3 = 32%nat ->
  length b4 = 32%nat -> Z.of_nat (length sol) < 2 ^ 64 ->
  is_record (record_layout v b1 b2 b3 ts bt b4 sol).
Proof.
  intros Hb1 Hb2 Hb3 Hb4 Hsol.
  exists (le_of_Z 4 v ++ b1 ++ b2 ++ b3 ++ le_of_Z 4 ts ++ le_of_Z 4 bt ++ b4), sol.
  split; [|split; [done|]].
  - rewrite !length_app, !le_of_Z_length, Hb1, Hb2, Hb3, Hb4. done.
  - unfold record_layout. by rewrite <- !app_assoc.
Qed.

Lemma split_at {A} (n : nat) (l : list A) :
  (n <= length l)%nat ->
  exists x y, l = x ++ y /\ length x = n.
Proof.
  intros Hn. exists (take n l), (drop n l). split; [by rewrite take_drop|].
  rewrite length_take. lia.
Qed.

(** Every complete record has the layout of the codec. *)
Lemma is_record_layout r :
  is_record r ->
  exists v b1 b2 b3 ts bt b4 sol,
    r = record_layout v b1 b2 b3 ts bt b4 sol /\
    0 <= v < 2 ^ 32 /\ 0 <= ts < 2 ^ 32 /\ 0 <= bt < 2 ^ 32 /\
    length b1 = 32%nat /\ length b2 = 32%nat /\ length b3 = 32%nat /\
    length b4 = 32%nat /\ Z.of_nat (length sol) < 2 ^ 64.
Proof.
  intros (fixed & sol & Hf & Hsol & ->).
  destruct (split_at 4 fixed) as (x1 & y1 & -> & H1); [lia|].
  rewrite length_app in Hf.
  destruct (split_at 32 y1) as (x2 & y2 & -> & H2); [lia|].
  rewrite length_app in Hf.
  destruct (split_at 32 y2) as (x3 & y3 & -> & H3); [lia|].
  rewrite length_app in Hf.
  destruct (split_at 32 y3) as (x4 & y4 & -> & H4); [lia|].
  rewrite length_app in Hf.
  destruct (split_at 4 y4) as (x5 & y5 & -> & H5); [lia|].
  rewrite length_app in Hf.
  destruct (split_at 4 y5) as (x6 & x7 & -> & H6); [lia|].
  rewrite length_app in Hf.
  exists (le_to_Z x1), x2, x3, x4, (le_to_Z x5), (le_to_Z x6), x7, sol.
  pose proof (le_to_Z_range x1) as R1. pose proof (le_to_Z_range x5) as R5.
  pose proof (le_to_Z_range x6) as R6. rewrite H1 in R1. rewrite H5 in R5. rewrite H6 in R6.
  change (256 ^ Z.of_nat 4) with (2 ^ 32) in *.
  repeat split; try lia.
  unfold record_layout.
  rewrite <- H1 at 1. rewrite <- H5 at 1. rewrite <- H6 at 1.
  rewrite !le_of_Z_to_Z, <- !app_assoc. done.
Qed.

(** What [serialize_header] produces for a valid header. *)
Lemma valid_header_layout h :
  valid_header h ->
  exists b1 b2 b3 b4 sol,
    length b1 = 32%nat /\ length b2 = 32%nat /\ length b3 = 32%nat /\
    length b4 = 32%nat /\ Z.of_nat (length sol) < 2 ^ 64 /\
    h = mkHeader (version h) (Some (hash_to_str b1)) (hash_to_str b2) (hash_to_str b3)
                 (timestamp h) (bits h) (hash_to_str b4) (b64encode sol)
                 (block_height h) /\
    serialize_header h
    = Ok (record_layout (version h) b1 b2 b3 (timestamp h) (bits h) b4 sol).
Proof.
  destruct h as [v prev merkle reserved ts bts nce sol_str hgt].
  unfold valid_header. cbn [version prev_block_hash merkle_root hash_reserved
                              timestamp bits nonce n_solution block_height].
  intros (Hv & (p & -> & b1 & Hb1 & ->) & (b2 & Hb2 & ->) & (b3 & Hb3 & ->)
          & Hts & Hbits & (b4 & Hb4 & ->) & (sol & Hsol & ->)).
  exists b1, b2, b3, b4, sol. repeat (split; [done|]).
  unfold serialize_header.
  cbn [version prev_block_hash merkle_root hash_reserved timestamp bits nonce n_solution].
  unfold pack_i, pack_I, pack_unsigned.
  rewrite !str_to_hash_to_str, b64decode_encode.
  destruct (Z.leb_spec (- 2 ^ 31) v); [|lia]. destruct (Z.ltb_spec v (2 ^ 31)); [|lia].
  destruct (Z.leb_spec 0 ts); [|lia]. destruct (Z.ltb_spec ts (256 ^ Z.of_nat 4)); [|lia].
  destruct (Z.leb_spec 0 bts); [|lia]. destruct (Z.ltb_spec bts (256 ^ Z.of_nat 4)); [|lia].
  done.
Qed.

Lemma serialize_header_is_record h b :
  valid_header h -> serialize_header h = Ok b -> is_record b.
Proof.
  intros Hv Hs. destruct (valid_header_layout h Hv) as (b1 & b2 & b3 & b4 & sol & ? & ? & ? & ? & ? & _ & Hl).
  rewrite Hl in Hs. injection Hs as <-. by apply record_layout_is_record.
Qed.

(** X1: the bytes that [serialize_header] gives for a valid header with a
    non-negative version, wherever they stand in a stream, deserialise to
    that header with the caller's height and leave the cursor just behind
    them; one pass of the scanning loops started at the same place stops at
    the same cursor. *)
Theorem serialized_header_in_stream h b pre post ht :
  valid_header h -> 0 <= version h ->
  serialize_header h = Ok b ->
  let f := mkFile (pre ++ b ++ post) (Z.of_nat (length pre)) in
  let f' := mkFile (pre ++ b ++ post) (Z.of_nat (length (pre ++ b))) in
  deserialize_header f ht = Ok (set_block_height h ht, f') /\
  skip_record f = Ok f'.
Proof.
  intros Hv Hpos Hs f f'.
  destruct (valid_header_layout h Hv) as (b1 & b2 & b3 & b4 & sol & H1 & H2 & H3 & H4 & Hsol & Hh & Hl).
  split.
  - rewrite Hl in Hs. injection Hs as <-. unfold f, f'.
    pose proof (deserialize_header_layout pre post (version h) b1 b2 b3 (timestamp h)
                  (bits h) b4 sol ht H1 H2 H3 H4 Hsol) as Hd.
    cbn zeta in Hd. rewrite Hd.
    destruct Hv as (Hver & _ & _ & _ & Hts & Hbt & _).
    rewrite !Z.mod_small by lia. rewrite length_app, Nat2Z.inj_add.
    f_equal. f_equal. unfold set_block_height. rewrite Hh. reflexivity.
  - apply skip_record_complete. by eapply serialize_header_is_record.
Qed.

Lemma serialized_header_in_stream_witness :
  valid_header (sample_header 4 5) /\
  0 <= version (sample_header 4 5) /\
  serialize_header (sample_header 4 5) = Ok (sample_record 4) /\
  let f := mkFile ([Byte.x07] ++ sample_record 4 ++ [Byte.x09])
                  (Z.of_nat (length [Byte.x07])) in
  let f' := mkFile ([Byte.x07] ++ sample_record 4 ++ [Byte.x09])
                   (Z.of_nat (length ([Byte.x07] ++ sample_record 4))) in
  deserialize_header f 8 = Ok (set_block_height (sample_header 4 5) 8, f') /\
  skip_record f = Ok f'.
Proof.
  assert (Hv : valid_header (sample_header 4 5)) by (apply sample_header_valid; lia).
  split; [exact Hv|]. split; [cbn; lia|]. split; [vm_compute; reflexivity|].
  apply (serialized_header_in_stream (sample_header 4 5) (sample_record 4)
           [Byte.x07] [Byte.x09] 8);
    [exact Hv | cbn; lia | vm_compute; reflexivity].
Defined.

(** A complete record decodes wherever it stands in a stream, to a header
    that depends on the record only. *)
Lemma deserialize_header_complete r ht :
  is_record r ->
  exists h,
    (forall pre post,
       deserialize_header (mkFile (pre ++ r ++ post) (Z.of_nat (length pre))) ht
       = Ok (h, mkFile (pre ++ r ++ post) (Z.of_nat (length (pre ++ r))))) /\
    block_height h = ht /\
    version h = le_to_Z (take 4 r) /\
    serialize_header h
      = if version h <? 2 ^ 31 then Ok r else Raise struct_error.
Proof.
  intros Hr.
  destruct (is_record_layout r Hr)
    as (v & b1 & b2 & b3 & ts & bt & b4 & sol & -> & Hv & Hts & Hbt & H1 & H2 & H3 & H4 & Hsol).
  eexists. split; [|split; [|split]].
  - intros pre post.
    pose proof (deserialize_header_layout pre post v b1 b2 b3 ts bt b4 sol ht
                  H1 H2 H3 H4 Hsol) as Hd.
    cbn zeta in Hd. rewrite Hd.
    rewrite length_app, Nat2Z.inj_add. reflexivity.
  - done.
  - cbn [version]. unfold record_layout.
    rewrite take_app_length' by (by rewrite le_of_Z_length).
    by rewrite le_to_Z_of_Z_mod.
  - unfold serialize_header.
    cbn [version prev_block_hash merkle_root hash_reserved timestamp bits nonce n_solution].
    rewrite !Z.mod_small by lia.
    unfold pack_i, pack_I, pack_unsigned.
    rewrite !str_to_hash_to_str, b64decode_encode.
    destruct (Z.leb_spec (- 2 ^ 31) v); [|lia].
    destruct (Z.leb_spec 0 ts); [|lia]. destruct (Z.ltb_spec ts (256 ^ Z.of_nat 4)); [|lia].
    destruct (Z.leb_spec 0 bt); [|lia]. destruct (Z.ltb_spec bt (256 ^ Z.of_nat 4)); [|lia].
    destruct (Z.ltb_spec v (2 ^ 31)); done.
Qed.

(** X2: a complete record deserialises, consuming exactly its bytes, to a
    header with the caller's height; serialising that header gives the
    record back when the version field is below [2 ^ 31], and raises
    [struct.error] when it is not (the version is unpacked unsigned and
    packed signed). *)
Theorem deserialized_record_reserializes r ht :
  is_record r ->
  exists h,
    deserialize_header (BytesIO r) ht = Ok (h, mkFile r (Z.of_nat (length r))) /\
    block_height h = ht /\
    serialize_header h
      = if le_to_Z (take 4 r) <? 2 ^ 31 then Ok r else Raise struct_error.
Proof.
  intros Hr. destruct (deserialize_header_complete r ht Hr) as (h & Hd & Hh & Hv & Hs).
  exists h. split; [|split; [done|by rewrite <- Hv]].
  specialize (Hd [] []). cbn [app length] in Hd. rewrite app_nil_r in Hd. exact Hd.
Qed.

Lemma deserialized_record_reserializes_witness :
  is_record (sample_record 4) /\
  exists h,
    deserialize_header (BytesIO (sample_record 4)) 8
      = Ok (h, mkFile (sample_record 4) (Z.of_nat (length (sample_record 4)))) /\
    block_height h = 8 /\
    serialize_header h
      = if le_to_Z (take 4 (sample_record 4)) <? 2 ^ 31 then Ok (sample_record 4)
        else Raise struct_error.
Proof.
  split; [apply sample_record_is_record|].
  apply (deserialized_record_reserializes (sample_record 4) 8).
  apply sample_record_is_record.
Defined.

(** ** Reading headers back *)

Lemma skip_n_complete rs k : forall pre post,
  Forall is_record rs -> (k <= length rs)%nat ->
  skip_n k (mkFile (pre ++ concat rs ++ post) (Z.of_nat (length pre)))
  = Ok (mkFile (pre ++ concat rs ++ post)
               (Z.of_nat (length (pre ++ concat (take k rs))))).
Proof.
  revert rs. induction k as [|k IH]; intros rs pre post Hrs Hk.
  - cbn [skip_n take concat]. by rewrite app_nil_r.
  - destruct Hrs as [|r rs Hr Hrs]; [simpl in Hk; lia|].
    cbn [skip_n take firstn concat]. rewrite <- !app_assoc.
    rewrite skip_record_complete by done.
    specialize (IH rs (pre ++ r) post Hrs ltac:(simpl in Hk; lia)).
    rewrite <- !app_assoc in IH. rewrite IH. done.
Qed.

Lemma deserialize_header_inv f ht h f' :
  deserialize_header f ht = Ok (h, f') ->
  block_height h = ht /\ is_Some (prev_block_hash h) /\
  0 <= version h < 2 ^ 32 /\ 0 <= timestamp h < 2 ^ 32 /\ 0 <= bits h < 2 ^ 32.
Proof.
  unfold deserialize_header, read, unpack_I, unpack_unsigned. cbn [fdata fpos].
  repeat match goal with
         | |- context [decide (length ?x = 4%nat)] =>
             let H := fresh "Hl" in
             destruct (decide (length x = 4%nat)) as [H|]; [|discriminate];
             pose proof (le_to_Z_range x); rewrite H in *
         end.
  destruct (deser_char_vector _) as [[sol f1]|]; [|discriminate].
  intros [= <- <-]. cbn. change (256 ^ Z.of_nat 4) with (2 ^ 32) in *.
  repeat split; try lia. by eexists.
Qed.

Lemma read_header_rec_inv depth : forall w self ht h,
  read_header_rec depth w self ht = Ok (Some h) ->
  block_height h = ht /\ 0 <= ht /\ is_Some (prev_block_hash h) /\
  0 <= version h < 2 ^ 32 /\ 0 <= timestamp h < 2 ^ 32 /\ 0 <= bits h < 2 ^ 32.
Proof.
  induction depth as [|depth IH]; intros w self ht h; [discriminate|].
  cbn [read_header_rec]. cbn zeta.
  destruct (bool_decide _); [discriminate|].
  destruct (Z.ltb_spec ht 0); [discriminate|].
  destruct (ht <? checkpoint (objs w self)).
  { destruct (parent w self) as [p|]; [|discriminate]. apply IH. }
  destruct (height w self <? ht); [discriminate|].
  destruct (files w !! _) as [content|]; [|discriminate].
  destruct (skip_n _ _) as [f|]; [|discriminate].
  destruct (deserialize_header f ht) as [[h' f']|] eqn:Hd; [|discriminate].
  intros [= <-]. apply deserialize_header_inv in Hd. intuition lia.
Qed.

(** X3: a header that [read_header] returns carries the height it was
    asked for, which is not negative; its [prev_block_hash] is present, and
    its version, timestamp and bits are unsigned 32-bit values. *)
Theorem read_header_fields recursion_limit w self ht h :
  read_header recursion_limit w self ht = Ok (Some h) ->
  block_height h = ht /\ 0 <= ht /\ is_Some (prev_block_hash h) /\
  0 <= version h < 2 ^ 32 /\ 0 <= timestamp h < 2 ^ 32 /\ 0 <= bits h < 2 ^ 32.
Proof. apply read_header_rec_inv. Qed.

Lemma read_header_fields_witness :
  read_header 1000 fork_world ROOT 0 = Ok (Some (sample_header 10 0)) /\
  block_height (sample_header 10 0) = 0 /\ 0 <= 0 /\
  is_Some (prev_block_hash (sample_header 10 0)) /\
  0 <= version (sample_header 10 0) < 2 ^ 32 /\
  0 <= timestamp (sample_header 10 0) < 2 ^ 32 /\
  0 <= bits (sample_header 10 0) < 2 ^ 32.
Proof.
  split; [vm_compute; reflexivity|].
  apply (read_header_fields 1000 fork_world ROOT 0 (sample_header 10 0)).
  vm_compute; reflexivity.
Defined.

(** The header at height [ht] of a segment whose file consists of the
    complete records [rs] is the one that the record of index
    [ht - checkpoint] decodes to. *)
Lemma read_header_record recursion_limit w self ht rs r :
  (0 < recursion_limit)%nat ->
  parent_id (objs w self) <> Some (checkpoint (objs w self)) ->
  0 <= ht ->
  checkpoint (objs w self) <= ht <= height w self ->
  files w !! path (objs w self) = Some (concat rs) ->
  Forall is_record rs ->
  rs !! Z.to_nat (ht - checkpoint (objs w self)) = Some r ->
  exists h,
    deserialize_header (BytesIO r) ht = Ok (h, mkFile r (Z.of_nat (length r))) /\
    serialize_header h
      = (if le_to_Z (take 4 r) <? 2 ^ 31 then Ok r else Raise struct_error) /\
    read_header recursion_limit w self ht = Ok (Some h).
Proof.
  intros Hrl Hpar H0 Hht Hfile Hrs Hr.
  assert (Hrec : is_record r).
  { rewrite Forall_lookup in Hrs. by eapply Hrs. }
  destruct (deserialize_header_complete r ht Hrec) as (h & Hd & _ & Hv & Hs).
  exists h. split; [|split].
  - specialize (Hd [] []). cbn [app length] in Hd. by rewrite app_nil_r in Hd.
  - by rewrite <- Hv.
  - unfold read_header. destruct recursion_limit as [|n]; [lia|].
    cbn [read_header_rec]. cbn zeta.
    rewrite bool_decide_eq_false_2 by done.
    destruct (Z.ltb_spec ht 0); [lia|].
    destruct (Z.ltb_spec ht (checkpoint (objs w self))); [lia|].
    destruct (Z.ltb_spec (height w self) ht); [lia|].
    rewrite Hfile.
    set (k := Z.to_nat (ht - checkpoint (objs w self))) in *.
    pose proof (lookup_lt_Some _ _ _ Hr) as Hk.
    pose proof (skip_n_complete rs k [] [] Hrs ltac:(lia)) as Hskip.
    cbn [app length] in Hskip. rewrite app_nil_r in Hskip.
    unfold BytesIO. change (Z.of_nat 0) with 0 in Hskip. rewrite Hskip.
    rewrite <- (take_drop_middle rs k r Hr) at 1.
    rewrite concat_app. cbn [concat].
    rewrite Hd. done.
Qed.

(** X4: in a segment that is not its own parent and whose file consists
    of complete records, [read_header] at a height between the checkpoint
    and the tip returns what the record of index [height - checkpoint]
    deserialises to. *)
Theorem read_header_stored recursion_limit w self ht rs r :
  (0 < recursion_limit)%nat ->
  parent_id (objs w self) <> Some (checkpoint (objs w self)) ->
  0 <= ht ->
  checkpoint (objs w self) <= ht <= height w self ->
  files w !! path (objs w self) = Some (concat rs) ->
  Forall is_record rs ->
  rs !! Z.to_nat (ht - checkpoint (objs w self)) = Some r ->
  exists h,
    deserialize_header (BytesIO r) ht = Ok (h, mkFile r (Z.of_nat (length r))) /\
    read_header recursion_limit w self ht = Ok (Some h).
Proof.
  intros Hrl Hpar H0 Hht Hfile Hrs Hr.
  destruct (read_header_record recursion_limit w self ht rs r) as (h & Hd & _ & Hread);
    try done.
  by exists h.
Qed.

Lemma read_header_stored_witness :
  (0 < 1000)%nat /\
  parent_id (objs fork_world ROOT) <> Some (checkpoint (objs fork_world ROOT)) /\
  0 <= 0 /\
  checkpoint (objs fork_world ROOT) <= 0 <= height fork_world ROOT /\
  files fork_world !! path (objs fork_world ROOT)
    = Some (concat (sample_record <$> [10; 11])) /\
  Forall is_record (sample_record <$> [10; 11]) /\
  (sample_record <$> [10; 11]) !! Z.to_nat (0 - checkpoint (objs fork_world ROOT))
    = Some (sample_record 10) /\
  exists h,
    deserialize_header (BytesIO (sample_record 10)) 0
      = Ok (h, mkFile (sample_record 10) (Z.of_nat (length (sample_record 10)))) /\
    read_header 1000 fork_world ROOT 0 = Ok (Some h).
Proof.
  assert (H1 : (0 < 1000)%nat) by lia.
  assert (H2 : parent_id (objs fork_world ROOT) <> Some (checkpoint (objs fork_world ROOT)))
    by (vm_compute; discriminate).
  assert (H3 : checkpoint (objs fork_world ROOT) <= 0 <= height fork_world ROOT)
    by (vm_compute; split; discriminate).
  assert (H4 : files fork_world !! path (objs fork_world ROOT)
               = Some (concat (sample_record <$> [10; 11])))
    by (vm_compute; reflexivity).
  split; [exact H1|]. split; [exact H2|]. split; [lia|]. split; [exact H3|].
  split; [exact H4|]. split; [apply sample_records_complete|]. split; [reflexivity|].
  apply (read_header_stored 1000 fork_world ROOT 0 (sample_record <$> [10; 11])
           (sample_record 10));
    [exact H1 | exact H2 | lia | exact H3 | exact H4 | apply sample_records_complete
    | reflexivity].
Defined.

(** X5: under the conditions of X4, [get_hash] is the displayed hash of
    the bytes of the stored record when the version field of the record is
    below [2 ^ 31], and raises [struct.error] when its top bit is set. *)
Theorem get_hash_stored ext recursion_limit w self ht rs r :
  (0 < recursion_limit)%nat ->
  parent_id (objs w self) <> Some (checkpoint (objs w self)) ->
  0 <= ht ->
  checkpoint (objs w self) <= ht <= height w self ->
  files w !! path (objs w self) = Some (concat rs) ->
  Forall is_record rs ->
  rs !! Z.to_nat (ht - checkpoint (objs w self)) = Some r ->
  get_hash ext recursion_limit w self ht
  = if le_to_Z (take 4 r) <? 2 ^ 31 then Ok (hash_to_str (Hash ext r))
    else Raise struct_error.
Proof.
  intros Hrl Hpar H0 Hht Hfile Hrs Hr.
  destruct (read_header_record recursion_limit w self ht rs r) as (h & Hd & Hs & Hread);
    try done.
  unfold get_hash. rewrite Hread. unfold hash_header.
  apply deserialize_header_inv in Hd. destruct Hd as (_ & [p Hp] & _).
  rewrite Hp. cbn [snd]. rewrite Hs. by destruct (_ <? _).
Qed.

Lemma get_hash_stored_witness :
  (0 < 1000)%nat /\
  parent_id (objs fork_world ROOT) <> Some (checkpoint (objs fork_world ROOT)) /\
  0 <= 0 /\
  checkpoint (objs fork_world ROOT) <= 0 <= height fork_world ROOT /\
  files fork_world !! path (objs fork_world ROOT)
    = Some (concat (sample_record <$> [10; 11])) /\
  Forall is_record (sample_record <$> [10; 11]) /\
  (sample_record <$> [10; 11]) !! Z.to_nat (0 - checkpoint (objs fork_world ROOT))
    = Some (sample_record 10) /\
  get_hash sample_ext 1000 fork_world ROOT 0
  = if le_to_Z (take 4 (sample_record 10)) <? 2 ^ 31
    then Ok (hash_to_str (Hash sample_ext (sample_record 10)))
    else Raise struct_error.
Proof.
  assert (H1 : (0 < 1000)%nat) by lia.
  assert (H2 : parent_id (objs fork_world ROOT) <> Some (checkpoint (objs fork_world ROOT)))
    by (vm_compute; discriminate).
  assert (H3 : checkpoint (objs fork_world ROOT) <= 0 <= height fork_world ROOT)
    by (vm_compute; split; discriminate).
  assert (H4 : files fork_world !! path (objs fork_world ROOT)
               = Some (concat (sample_record <$> [10; 11])))
    by (vm_compute; reflexivity).
  split; [exact H1|]. split; [exact H2|]. split; [lia|]. split; [exact H3|].
  split; [exact H4|]. split; [apply sample_records_complete|]. split; [reflexivity|].
  apply (get_hash_stored sample_ext 1000 fork_world ROOT 0 (sample_record <$> [10; 11])
           (sample_record 10));
    [exact H1 | exact H2 | lia | exact H3 | exact H4 | apply sample_records_complete
    | reflexivity].
Defined.

(** X6: for a negative height, and for a height from the checkpoint on
    that lies above the tip, [get_hash] is the string of 64 zeros. *)
Theorem get_hash_outside ext recursion_limit w self ht :
  (0 < recursion_limit)%nat ->
  parent_id (objs w self) <> Some (checkpoint (objs w self)) ->
  ht < 0 \/ (checkpoint (objs w self) <= ht /\ height w self < ht) ->
  get_hash ext recursion_limit w self ht = Ok (replicate 64 "0"%char).
Proof.
  intros Hrl Hpar Hht. unfold get_hash, read_header.
  destruct recursion_limit as [|n]; [lia|].
  cbn [read_header_rec]. cbn zeta. rewrite bool_decide_eq_false_2 by done.
  destruct (Z.ltb_spec ht 0); [done|].
  destruct (Z.ltb_spec ht (checkpoint (objs w self))); [lia|].
  destruct (Z.ltb_spec (height w self) ht); [done|lia].
Qed.

Lemma get_hash_outside_witness :
  (0 < 1000)%nat /\
  parent_id (objs fork_world FORK) <> Some (checkpoint (objs fork_world FORK)) /\
  (2 < 0 \/ (checkpoint (objs fork_world FORK) <= 2 /\ height fork_world FORK < 2)) /\
  get_hash sample_ext 1000 fork_world FORK 2 = Ok (replicate 64 "0"%char).
Proof.
  assert (H1 : (0 < 1000)%nat) by lia.
  assert (H2 : parent_id (objs fork_world FORK) <> Some (checkpoint (objs fork_world FORK)))
    by (vm_compute; discriminate).
  assert (H3 : 2 < 0 \/ (checkpoint (objs fork_world FORK) <= 2 /\ height fork_world FORK < 2))
    by (right; vm_compute; split; [discriminate|reflexivity]).
  split; [exact H1|]. split; [exact H2|]. split; [exact H3|].
  apply (get_hash_outside sample_ext 1000 fork_world FORK 2); [exact H1|exact H2|exact H3].
Defined.

(** X7: a header that [read_header] returns, and that can be hashed,
    passes [check_header] of the same segment. *)
Theorem check_header_accepts_stored ext recursion_limit w self ht h :
  read_header recursion_limit w self ht = Ok (Some h) ->
  returns (snd (hash_header ext (Some h))) ->
  check_header ext recursion_limit w self h = Ok true.
Proof.
  intros Hread [x Hx]. unfold check_header, get_hash.
  destruct (read_header_rec_inv _ _ _ _ _ Hread) as (-> & _).
  rewrite Hx, Hread, Hx. by rewrite bool_decide_eq_true_2.
Qed.

Lemma check_header_accepts_stored_witness :
  read_header 1000 fork_world ROOT 0 = Ok (Some (sample_header 10 0)) /\
  returns (snd (hash_header sample_ext (Some (sample_header 10 0)))) /\
  check_header sample_ext 1000 fork_world ROOT (sample_header 10 0) = Ok true.
Proof.
  assert (H1 : read_header 1000 fork_world ROOT 0 = Ok (Some (sample_header 10 0)))
    by (vm_compute; reflexivity).
  assert (H2 : returns (snd (hash_header sample_ext (Some (sample_header 10 0)))))
    by (exists sample_hash; vm_compute; reflexivity).
  split; [exact H1|]. split; [exact H2|].
  apply (check_header_accepts_stored sample_ext 1000 fork_world ROOT 0 (sample_header 10 0));
    [exact H1|exact H2].
Defined.

(** X8: below its checkpoint a segment answers from its parent: when the
    parent's file consists of complete records and the height lies between
    the parent's checkpoint and tip, [read_header] on the segment returns
    what the parent's record of index [height - checkpoint(parent)]
    deserialises to. *)
Theorem read_header_from_parent recursion_limit w self p ht rs r :
  (1 < recursion_limit)%nat ->
  parent_id (objs w self) <> Some (checkpoint (objs w self)) ->
  parent w self = Ok p ->
  parent_id (objs w p) <> Some (checkpoint (objs w p)) ->
  0 <= ht < checkpoint (objs w self) ->
  checkpoint (objs w p) <= ht <= height w p ->
  files w !! path (objs w p) = Some (concat rs) ->
  Forall is_record rs ->
  rs !! Z.to_nat (ht - checkpoint (objs w p)) = Some r ->
  exists h,
    deserialize_header (BytesIO r) ht = Ok (h, mkFile r (Z.of_nat (length r))) /\
    read_header recursion_limit w self ht = Ok (Some h).
Proof.
  intros Hrl Hself Hpar Hp Hht Hhp Hfile Hrs Hr.
  destruct recursion_limit as [|n]; [lia|].
  destruct (read_header_record n w p ht rs r) as (h & Hd & _ & Hread); try done; try lia.
  exists h. split; [done|]. unfold read_header in *. cbn [read_header_rec]. cbn zeta.
  rewrite bool_decide_eq_false_2 by done.
  destruct (Z.ltb_spec ht 0); [lia|].
  destruct (Z.ltb_spec ht (checkpoint (objs w self))); [|lia].
  by rewrite Hpar.
Qed.

Lemma read_header_from_parent_witness :
  (1 < 1000)%nat /\
  parent_id (objs fork_world FORK) <> Some (checkpoint (objs fork_world FORK)) /\
  parent fork_world FORK = Ok ROOT /\
  parent_id (objs fork_world ROOT) <> Some (checkpoint (objs fork_world ROOT)) /\
  0 <= 0 < checkpoint (objs fork_world FORK) /\
  checkpoint (objs fork_world ROOT) <= 0 <= height fork_world ROOT /\
  files fork_world !! path (objs fork_world ROOT)
    = Some (concat (sample_record <$> [10; 11])) /\
  Forall is_record (sample_record <$> [10; 11]) /\
  (sample_record <$> [10; 11]) !! Z.to_nat (0 - checkpoint (objs fork_world ROOT))
    = Some (sample_record 10) /\
  exists h,
    deserialize_header (BytesIO (sample_record 10)) 0
      = Ok (h, mkFile (sample_record 10) (Z.of_nat (length (sample_record 10)))) /\
    read_header 1000 fork_world FORK 0 = Ok (Some h).
Proof.
  assert (H1 : (1 < 1000)%nat) by lia.
  assert (H2 : parent_id (objs fork_world FORK) <> Some (checkpoint (objs fork_world FORK)))
    by (vm_compute; discriminate).
  assert (H3 : parent_id (objs fork_world ROOT) <> Some (checkpoint (objs fork_world ROOT)))
    by (vm_compute; discriminate).
  assert (H4 : 0 <= 0 < checkpoint (objs fork_world FORK)) by (vm_compute; split; [discriminate|reflexivity]).
  assert (H5 : checkpoint (objs fork_world ROOT) <= 0 <= height fork_world ROOT)
    by (vm_compute; split; discriminate).
  assert (H6 : files fork_world !! path (objs fork_world ROOT)
               = Some (concat (sample_record <$> [10; 11])))
    by (vm_compute; reflexivity).
  split; [exact H1|]. split; [exact H2|]. split; [reflexivity|]. split; [exact H3|].
  split; [exact H4|]. split; [exact H5|]. split; [exact H6|].
  split; [apply sample_records_complete|]. split; [reflexivity|].
  apply (read_header_from_parent 1000 fork_world FORK ROOT 0 (sample_record <$> [10; 11])
           (sample_record 10));
    [exact H1 | exact H2 | reflexivity | exact H3 | exact H4 | exact H5 | exact H6
    | apply sample_records_complete | reflexivity].
Defined.

(** ** Appending *)

Lemma skip_record_short d p :
  Z.of_nat (length d) <= p + 140 -> skip_record (mkFile d p) = Raise struct_error.
Proof.
  intros Hp. unfold skip_record, seek_cur, read_vector_size, read, slice, BASIC_HEADER_SIZE.
  cbn [fdata fpos]. destruct (Z.leb_spec (Z.of_nat (length d)) (p + 140)); [|lia].
  reflexivity.
Qed.

Lemma skip_records_complete rs k : forall pre,
  Forall is_record rs ->
  skip_records k (mkFile (pre ++ concat rs) (Z.of_nat (length pre)))
               (Z.of_nat (length (pre ++ concat rs)))
  = if (k <? Nat.max 1 (length rs))%nat
    then Ok (mkFile (pre ++ concat rs) (Z.of_nat (length (pre ++ concat (take k rs)))))
    else Raise (match rs with [] => struct_error | _ => Exception "Out of file" end).
Proof.
  revert rs. induction k as [|k IH]; intros rs pre Hrs.
  - cbn [skip_records take concat]. rewrite app_nil_r.
    destruct (Nat.ltb_spec 0 (Nat.max 1 (length rs))); [done|lia].
  - cbn [skip_records]. destruct Hrs as [|r rs Hr Hrs].
    + cbn [concat length Nat.max]. rewrite app_nil_r.
      rewrite skip_record_short by lia.
      destruct (Nat.ltb_spec (S k) 1); [lia|done].
    + cbn [concat]. pose proof (skip_record_complete pre r (concat rs) Hr) as Hs.
      rewrite Hs. unfold tell. cbn [fpos].
      specialize (IH rs (pre ++ r) Hrs). rewrite <- !app_assoc in IH.
      destruct Hrs as [|r' rs' Hr' Hrs'].
      * cbn [concat length]. rewrite !app_nil_r. rewrite Z.leb_refl.
        destruct (Nat.ltb_spec (S k) (Nat.max 1 1)); [lia|done].
      * pose proof (is_record_length r' Hr') as Hlen.
        destruct (Z.leb_spec (Z.of_nat (length (pre ++ r ++ concat (r' :: rs'))))
                             (Z.of_nat (length (pre ++ r)))) as [Hle|_].
        { cbn [concat] in Hle. rewrite !length_app in Hle. lia. }
        rewrite IH. cbn [length take firstn concat].
        destruct (Nat.ltb_spec k (Nat.max 1 (S (length rs'))));
          destruct (Nat.ltb_spec (S k) (Nat.max 1 (S (S (length rs'))))); try lia; [|done].
        done.
Qed.

Lemma write_at_end d data :
  fdata (write_bytes (mkFile d (Z.of_nat (length d))) data) = d ++ data.
Proof.
  unfold write_bytes. cbn [fdata fpos].
  rewrite Nat2Z.id, firstn_all, Nat.sub_diag. cbn [replicate app].
  rewrite drop_ge by lia. by rewrite app_nil_r.
Qed.

(** On a file of complete records [write] returns exactly when it is asked
    to skip fewer records than the file holds, or none. *)
Lemma write_records w self data delta trunc rs :
  files w !! path (objs w self) = Some (concat rs) ->
  Forall is_record rs ->
  write w self data delta trunc
  = if delta <? Z.max 1 (Z.of_nat (length rs))
    then Ok (update_size
               (set_files w (<[path (objs w self) := concat rs ++ data]> (files w))) self)
    else Raise (match rs with [] => struct_error | _ => Exception "Out of file" end).
Proof.
  intros Hfile Hrs. unfold write, open_file. cbn zeta. rewrite Hfile.
  unfold _height_to_offset, BytesIO, seek_end, seek_set, tell, flen. cbn [fdata fpos].
  pose proof (skip_records_complete rs (Z.to_nat delta) [] Hrs) as Hs.
  cbn [app length] in Hs. change (Z.of_nat 0) with 0 in Hs. rewrite Hs. clear Hs.
  destruct (Nat.ltb_spec (Z.to_nat delta) (Nat.max 1 (length rs)));
    destruct (Z.ltb_spec delta (Z.max 1 (Z.of_nat (length rs)))); try lia; [|done].
  cbn [fdata]. rewrite Z.ltb_irrefl, andb_false_r.
  by rewrite write_at_end.
Qed.

(** X9: on a file of [n] complete records, [write] returns exactly when
    [delta < max(1, n)], and then it has appended the data, whatever
    [truncate] is; otherwise it raises, ['Out of file'] for a file that is
    not empty and [struct.error] for an empty one. *)
Theorem write_complete_records w self data delta trunc rs :
  files w !! path (objs w self) = Some (concat rs) ->
  Forall is_record rs ->
  write w self data delta trunc
  = if delta <? Z.max 1 (Z.of_nat (length rs))
    then Ok (update_size
               (set_files w (<[path (objs w self) := concat rs ++ data]> (files w))) self)
    else Raise (match rs with [] => struct_error | _ => Exception "Out of file" end).
Proof. apply write_records. Qed.

Lemma write_complete_records_witness :
  files fork_world !! path (objs fork_world ROOT)
    = Some (concat (sample_record <$> [10; 11])) /\
  Forall is_record (sample_record <$> [10; 11]) /\
  write fork_world ROOT [Byte.x07] 2 true
  = if 2 <? Z.max 1 (Z.of_nat (length (sample_record <$> [10; 11])))
    then Ok (update_size
               (set_files fork_world
                  (<[path (objs fork_world ROOT)
                     := concat (sample_record <$> [10; 11]) ++ [Byte.x07]]>
                     (files fork_world))) ROOT)
    else Raise (match sample_record <$> [10; 11] with
                | [] => struct_error
                | _ => Exception "Out of file"
                end).
Proof.
  assert (H1 : files fork_world !! path (objs fork_world ROOT)
               = Some (concat (sample_record <$> [10; 11])))
    by (vm_compute; reflexivity).
  split; [exact H1|]. split; [apply sample_records_complete|].
  apply (write_complete_records fork_world ROOT [Byte.x07] 2 true
           (sample_record <$> [10; 11]));
    [exact H1 | apply sample_records_complete].
Defined.

Lemma update_size_size w self c :
  files w !! path (objs w self) = Some c ->
  size (update_size w self) self = count_records c.
Proof.
  intros Hfile. unfold update_size, size. cbn [files objs set_obj set_size].
  rewrite Hfile. cbn [objs set_obj]. destruct (decide (self = self)); [|done]. done.
Qed.

Lemma update_size_other w self r :
  r <> self -> objs (update_size w self) r = objs w r.
Proof.
  intros Hne. unfold update_size. cbn [files set_obj].
  destruct (files w !! _); cbn [objs set_obj]; repeat (destruct (decide _)); done.
Qed.

Lemma save_header_root_spec w self h b rs :
  parent_id (objs w self) = None ->
  files w !! None = Some (concat rs) ->
  Forall is_record rs ->
  serialize_header h = Ok b ->
  block_height h = checkpoint (objs w self) + size w self ->
  size w self = Z.max 0 (Z.of_nat (length rs) - 1) ->
  save_header w self h
  = Done (update_size (set_files w (<[None := concat rs ++ b]> (files w))) self).
Proof.
  intros Hroot Hfile Hrs Hser Hht Hsize.
  assert (Hpath : path (objs w self) = None) by (unfold path; by rewrite Hroot).
  unfold save_header. rewrite Hser.
  destruct (Z.eqb_spec (block_height h - checkpoint (objs w self)) (size w self)); [|lia].
  cbn [negb]. rewrite (write_records w self b _ false rs);
    [|by rewrite Hpath|done].
  destruct (Z.ltb_spec (block_height h - checkpoint (objs w self))
              (Z.max 1 (Z.of_nat (length rs)))); [|lia].
  rewrite Hpath. unfold swap_with_parent.
  destruct (update_size_fields (set_files w (<[None:=concat rs ++ b]> (files w))) self self)
    as (_ & -> & _).
  cbn [objs set_files]. by rewrite Hroot.
Qed.

(** X10: on the root segment, whose file consists of [n] complete records
    and whose size is the one [update_size] computes for it,
    [save_header] of a valid header of height [checkpoint + size] appends
    its record and leaves the size at [n]; checkpoint and registry are
    unchanged. *)
Theorem save_header_root_appends w self h rs :
  parent_id (objs w self) = None ->
  files w !! None = Some (concat rs) ->
  Forall is_record rs ->
  valid_header h ->
  size w self = Z.max 0 (Z.of_nat (length rs) - 1) ->
  block_height h = checkpoint (objs w self) + size w self ->
  exists b w',
    serialize_header h = Ok b /\
    save_header w self h = Done w' /\
    files w' = <[None := concat rs ++ b]> (files w) /\
    size w' self = Z.of_nat (length rs) /\
    checkpoint (objs w' self) = checkpoint (objs w self) /\
    blockchains w' = blockchains w.
Proof.
  intros Hroot Hfile Hrs Hv Hsize Hht.
  destruct (valid_header_layout h Hv) as (b1 & b2 & b3 & b4 & sol & ? & ? & ? & ? & ? & _ & Hser).
  eexists _, _. split; [exact Hser|]. split; [by eapply save_header_root_spec|].
  assert (Hb : is_record (record_layout (version h) b1 b2 b3 (timestamp h) (bits h) b4 sol))
    by (by apply record_layout_is_record).
  split; [apply update_size_files|]. split; [|split].
  - erewrite update_size_size.
    2:{ cbn [objs files set_files]. unfold path. rewrite Hroot. apply lookup_insert_eq. }
    replace (concat rs ++ _) with (concat (rs ++ [record_layout (version h) b1 b2 b3 (timestamp h) (bits h) b4 sol]))
      by (rewrite concat_app; cbn [concat]; by rewrite app_nil_r).
    rewrite count_records_complete by (apply Forall_app; split; [done|by constructor]).
    rewrite length_app. cbn [length]. lia.
  - by destruct (update_size_fields
                   (set_files w (<[None:=concat rs ++ record_layout (version h) b1 b2 b3
                                           (timestamp h) (bits h) b4 sol]> (files w)))
                   self self) as (-> & _).
  - by rewrite update_size_registry.
Qed.

Lemma save_header_root_appends_witness :
  parent_id (objs fork_world ROOT) = None /\
  files fork_world !! None = Some (concat (sample_record <$> [10; 11])) /\
  Forall is_record (sample_record <$> [10; 11]) /\
  valid_header (sample_header 4 1) /\
  size fork_world ROOT = Z.max 0 (Z.of_nat (length (sample_record <$> [10; 11])) - 1) /\
  block_height (sample_header 4 1)
    = checkpoint (objs fork_world ROOT) + size fork_world ROOT /\
  exists b w',
    serialize_header (sample_header 4 1) = Ok b /\
    save_header fork_world ROOT (sample_header 4 1) = Done w' /\
    files w' = <[None := concat (sample_record <$> [10; 11]) ++ b]> (files fork_world) /\
    size w' ROOT = Z.of_nat (length (sample_record <$> [10; 11])) /\
    checkpoint (objs w' ROOT) = checkpoint (objs fork_world ROOT) /\
    blockchains w' = blockchains fork_world.
Proof.
  assert (Hv : valid_header (sample_header 4 1)) by (apply sample_header_valid; lia).
  assert (H2 : files fork_world !! None = Some (concat (sample_record <$> [10; 11])))
    by (vm_compute; reflexivity).
  split; [reflexivity|]. split; [exact H2|]. split; [apply sample_records_complete|].
  split; [exact Hv|]. split; [reflexivity|]. split; [reflexivity|].
  apply (save_header_root_appends fork_world ROOT (sample_header 4 1)
           (sample_record <$> [10; 11]));
    [reflexivity | exact H2 | apply sample_records_complete | exact Hv
    | reflexivity | reflexivity].
Defined.

(** X11: after that [save_header], [read_header] at the height of the
    saved header returns what the last record of the file before the call
    deserialises to, and [None] when the file was empty. *)
Theorem save_header_root_read_back recursion_limit w self h rs :
  (0 < recursion_limit)%nat ->
  parent_id (objs w self) = None ->
  0 <= checkpoint (objs w self) ->
  files w !! None = Some (concat rs) ->
  Forall is_record rs ->
  valid_header h ->
  size w self = Z.max 0 (Z.of_nat (length rs) - 1) ->
  block_height h = checkpoint (objs w self) + size w self ->
  exists w',
    save_header w self h = Done w' /\
    match last rs with
    | None => read_header recursion_limit w' self (block_height h) = Ok None
    | Some r =>
        exists h',
          deserialize_header (BytesIO r) (block_height h)
            = Ok (h', mkFile r (Z.of_nat (length r))) /\
          read_header recursion_limit w' self (block_height h) = Ok (Some h')
    end.
Proof.
  intros Hrl Hroot Hcp Hfile Hrs Hv Hsize Hht.
  destruct (valid_header_layout h Hv) as (b1 & b2 & b3 & b4 & sol & ? & ? & ? & ? & ? & _ & Hser).
  set (b := record_layout (version h) b1 b2 b3 (timestamp h) (bits h) b4 sol) in *.
  assert (Hb : is_record b) by (by apply record_layout_is_record).
  set (w' := update_size (set_files w (<[None := concat rs ++ b]> (files w))) self).
  exists w'. split; [by eapply save_header_root_spec|].
  assert (Hcat : concat rs ++ b = concat (rs ++ [b]))
    by (rewrite concat_app; cbn [concat]; by rewrite app_nil_r).
  assert (Hall : Forall is_record (rs ++ [b])) by (apply Forall_app; split; [done|by constructor]).
  destruct (update_size_fields (set_files w (<[None:=concat rs ++ b]> (files w))) self self)
    as (Hc' & Hp' & _). fold w' in Hc', Hp'. cbn [objs set_files] in Hc', Hp'.
  assert (Hpath' : path (objs w' self) = None) by (unfold path; by rewrite Hp', Hroot).
  assert (Hfile' : files w' !! path (objs w' self) = Some (concat (rs ++ [b]))).
  { rewrite Hpath'. unfold w'. rewrite update_size_files. cbn [files set_files].
    rewrite <- Hcat. apply lookup_insert_eq. }
  assert (Hsize' : size w' self = Z.of_nat (length rs)).
  { unfold w'. erewrite update_size_size.
    2:{ cbn [objs files set_files]. unfold path. rewrite Hroot. apply lookup_insert_eq. }
    rewrite Hcat, count_records_complete by done. rewrite length_app. cbn [length]. lia. }
  destruct (last rs) as [r|] eqn:Hlast.
  - apply last_Some in Hlast. destruct Hlast as [rs' ->].
    rewrite length_app in Hsize, Hsize'. cbn [length] in Hsize, Hsize'.
    destruct (read_header_record recursion_limit w' self (block_height h)
                ((rs' ++ [r]) ++ [b]) r) as (h' & Hd & _ & Hread); try done.
    + by rewrite Hp', Hroot.
    + lia.
    + unfold height. rewrite Hc', Hsize'. lia.
    + rewrite Hc'. replace (Z.to_nat _) with (length rs') by lia.
      rewrite <- app_assoc. cbn [app]. by apply list_lookup_middle.
    + by exists h'.
  - apply last_None in Hlast. subst rs. cbn [length] in Hsize, Hsize'.
    unfold read_header. destruct recursion_limit as [|n]; [lia|].
    cbn [read_header_rec]. cbn zeta. rewrite Hp', Hroot, Hc'.
    rewrite bool_decide_eq_false_2 by done.
    destruct (Z.ltb_spec (block_height h) 0); [lia|].
    destruct (Z.ltb_spec (block_height h) (checkpoint (objs w self))); [lia|].
    unfold height. rewrite Hc', Hsize'.
    destruct (Z.ltb_spec (checkpoint (objs w self) + Z.of_nat 0 - 1) (block_height h)); [done|lia].
Qed.

Lemma save_header_root_read_back_witness :
  (0 < 1000)%nat /\
  parent_id (objs fork_world ROOT) = None /\
  0 <= checkpoint (objs fork_world ROOT) /\
  files fork_world !! None = Some (concat (sample_record <$> [10; 11])) /\
  Forall is_record (sample_record <$> [10; 11]) /\
  valid_header (sample_header 4 1) /\
  size fork_world ROOT = Z.max 0 (Z.of_nat (length (sample_record <$> [10; 11])) - 1) /\
  block_height (sample_header 4 1)
    = checkpoint (objs fork_world ROOT) + size fork_world ROOT /\
  exists w',
    save_header fork_world ROOT (sample_header 4 1) = Done w' /\
    match last (sample_record <$> [10; 11]) with
    | None => read_header 1000 w' ROOT (block_height (sample_header 4 1)) = Ok None
    | Some r =>
        exists h',
          deserialize_header (BytesIO r) (block_height (sample_header 4 1))
            = Ok (h', mkFile r (Z.of_nat (length r))) /\
          read_header 1000 w' ROOT (block_height (sample_header 4 1)) = Ok (Some h')
    end.
Proof.
  assert (H1 : (0 < 1000)%nat) by lia.
  assert (Hv : valid_header (sample_header 4 1)) by (apply sample_header_valid; lia).
  assert (H2 : files fork_world !! None = Some (concat (sample_record <$> [10; 11])))
    by (vm_compute; reflexivity).
  assert (H3 : 0 <= checkpoint (objs fork_world ROOT)) by (vm_compute; discriminate).
  split; [exact H1|]. split; [reflexivity|]. split; [exact H3|]. split; [exact H2|].
  split; [apply sample_records_complete|].
  split; [exact Hv|]. split; [reflexivity|]. split; [reflexivity|].
  apply (save_header_root_read_back 1000 fork_world ROOT (sample_header 4 1)
           (sample_record <$> [10; 11]));
    [exact H1 | reflexivity | exact H3 | exact H2 | apply sample_records_complete
    | exact Hv | reflexivity | reflexivity].
Defined.

(** X12: [save_header] of a header whose height is not
    [checkpoint + size], or on a segment whose file is missing, raises and
    leaves everything as it was. *)
Theorem save_header_refuses w self h :
  block_height h <> checkpoint (objs w self) + size w self \/
  files w !! path (objs w self) = None ->
  exists e, save_header w self h = Failed w e.
Proof.
  intros Hcase. unfold save_header.
  destruct (serialize_header h) as [b|e]; [|by eexists].
  destruct (Z.eqb_spec (block_height h - checkpoint (objs w self)) (size w self)) as [He|];
    [|by eexists].
  destruct Hcase as [|Hnone]; [lia|]. cbn [negb].
  unfold write, open_file. rewrite Hnone. by eexists.
Qed.

Lemma save_header_refuses_witness :
  (block_height (sample_header 4 5)
     <> checkpoint (objs fork_world ROOT) + size fork_world ROOT \/
   files fork_world !! path (objs fork_world ROOT) = None) /\
  exists e, save_header fork_world ROOT (sample_header 4 5) = Failed fork_world e.
Proof.
  assert (H1 : block_height (sample_header 4 5)
                 <> checkpoint (objs fork_world ROOT) + size fork_world ROOT \/
               files fork_world !! path (objs fork_world ROOT) = None)
    by (left; vm_compute; discriminate).
  split; [exact H1|].
  apply (save_header_refuses fork_world ROOT (sample_header 4 5)). exact H1.
Defined.

(** X13: on the root segment [save_chunk], when it completes, has
    appended the chunk to the file, whatever the index, and the size is
    the count of the new content; when it raises, nothing has changed. *)
Theorem save_chunk_root_appends net w self index chunk content :
  parent_id (objs w self) = None ->
  files w !! None = Some content ->
  match save_chunk net w self index chunk with
  | Done w' =>
      files w' = <[None := content ++ chunk]> (files w) /\
      size w' self = count_records (content ++ chunk)
  | Failed w' _ => w' = w
  end.
Proof.
  intros Hroot Hfile.
  assert (Hpath : path (objs w self) = None) by (unfold path; by rewrite Hroot).
  unfold save_chunk, open_file. rewrite Hpath, Hfile.
  destruct (_height_to_offset _ _ _) as [[d f]|] eqn:Ho; [|done].
  apply height_to_offset_entry_position in Ho. destruct Ho as [-> _].
  change (tell (BytesIO content) <? 0) with false. cbn iota.
  destruct (write w self chunk _ _) as [w1|] eqn:Hw; [|done].
  apply (write_spec _ _ _ _ _ _ content) in Hw; [|by rewrite Hpath].
  rewrite Hpath in Hw. subst w1. unfold swap_with_parent.
  destruct (update_size_fields (set_files w (<[None:=content ++ chunk]> (files w))) self self)
    as (_ & -> & _).
  cbn [objs set_files]. rewrite Hroot. split; [apply update_size_files|].
  apply update_size_size. cbn [objs files set_files]. rewrite Hpath. apply lookup_insert_eq.
Qed.

Lemma save_chunk_root_appends_witness :
  parent_id (objs fork_world ROOT) = None /\
  files fork_world !! None = Some (sample_record 10 ++ sample_record 11) /\
  match save_chunk sample_net fork_world ROOT 0 (sample_record 12) with
  | Done w' =>
      files w' = <[None := (sample_record 10 ++ sample_record 11) ++ sample_record 12]>
                   (files fork_world) /\
      size w' ROOT = count_records ((sample_record 10 ++ sample_record 11) ++ sample_record 12)
  | Failed w' _ => w' = fork_world
  end.
Proof.
  split; [reflexivity|]. split; [reflexivity|].
  apply (save_chunk_root_appends sample_net fork_world ROOT 0 (sample_record 12)
           (sample_record 10 ++ sample_record 11)); reflexivity.
Defined.

(** ** Forking *)

Lemma update_size_object w self c :
  files w !! path (objs w self) = Some c ->
  objs (update_size w self) self = set_size (objs w self) (count_records c).
Proof.
  intros Hfile. unfold update_size. cbn [files objs set_obj set_size].
  rewrite Hfile. cbn [objs set_obj]. destruct (decide (self = self)); [|done].
  unfold set_size. by cbn.
Qed.

Lemma count_records_single b : is_record b -> count_records b = 0.
Proof.
  intros Hb. replace b with (concat [b]) by (cbn; by rewrite app_nil_r).
  by rewrite count_records_complete by (by constructor).
Qed.

(** X14: [fork], when the file of the new segment does not exist yet and
    the registered parent reaches the height before the header's, creates
    that file with the record of the header and nothing else; the new
    object has the header's height as checkpoint, the parent's checkpoint
    as [parent_id] and size 0, so its tip is one below the header; no other
    object and no entry of the registry changes. *)
Theorem fork_first_record w parent_ r h p :
  valid_header h ->
  files w !! Some (checkpoint (objs w parent_), block_height h) = None ->
  blockchains w !! checkpoint (objs w parent_) = Some p ->
  p <> r ->
  block_height h - 1 <= height w p ->
  exists b w',
    serialize_header h = Ok b /\
    fork w parent_ r h = Done w' /\
    files w' = <[Some (checkpoint (objs w parent_), block_height h) := b]> (files w) /\
    objs w' r = mkBlockchain (block_height h) (Some (checkpoint (objs w parent_))) 0 None /\
    (forall x, x <> r -> objs w' x = objs w x) /\
    blockchains w' = blockchains w /\
    height w' r = block_height h - 1.
Proof.
  intros Hv Hnone Hreg Hpr Hheight.
  destruct (valid_header_layout h Hv) as (b1 & b2 & b3 & b4 & sol & ? & ? & ? & ? & ? & _ & Hser).
  set (b := record_layout (version h) b1 b2 b3 (timestamp h) (bits h) b4 sol) in *.
  assert (Hb : is_record b) by (by apply record_layout_is_record).
  set (pc := checkpoint (objs w parent_)) in *. set (ht := block_height h) in *.
  set (obj := mkBlockchain ht (Some pc) 0 None).
  set (w1 := set_files (Blockchain_init w r ht (Some pc))
               (<[path (objs (Blockchain_init w r ht (Some pc)) r) := []]>
                  (files (Blockchain_init w r ht (Some pc))))).
  assert (Hobj1 : objs w1 r = obj).
  { unfold w1, Blockchain_init, update_size. cbn [objs files set_obj set_files path].
    destruct (decide (r = r)); [|done]. cbn [path parent_id checkpoint obj].
    rewrite Hnone. cbn [objs set_obj]. by destruct (decide (r = r)). }
  assert (Hoth1 : forall x, x <> r -> objs w1 x = objs w x).
  { intros x Hx. unfold w1, Blockchain_init. cbn [objs set_files].
    rewrite update_size_other by done. cbn. by destruct (decide (x = r)). }
  assert (Hfiles1 : files w1 = <[Some (pc, ht) := []]> (files w)).
  { unfold w1. cbn [files set_files]. fold w1.
    change (objs (Blockchain_init w r ht (Some pc)) r) with (objs w1 r). rewrite Hobj1.
    unfold Blockchain_init. by rewrite update_size_files. }
  assert (Hreg1 : blockchains w1 = blockchains w).
  { unfold w1, Blockchain_init. cbn [blockchains set_files]. by rewrite update_size_registry. }
  assert (Hpath1 : path (objs w1 r) = Some (pc, ht)) by (by rewrite Hobj1).
  set (w2 := update_size (set_files w1 (<[path (objs w1 r) := concat [] ++ b]> (files w1))) r).
  assert (Hwrite : write w1 r b 0 false = Ok w2).
  { rewrite (write_records w1 r b 0 false []);
      [done|rewrite Hpath1, Hfiles1; apply lookup_insert_eq|constructor]. }
  assert (Hobj2 : objs w2 r = obj).
  { unfold w2. erewrite update_size_object.
    2:{ cbn [objs files set_files]. apply lookup_insert_eq. }
    cbn [objs set_files concat app]. rewrite Hobj1, count_records_single by done. done. }
  assert (Hoth2 : forall x, x <> r -> objs w2 x = objs w x).
  { intros x Hx. unfold w2. rewrite update_size_other by done. cbn [objs set_files].
    by apply Hoth1. }
  assert (Hreg2 : blockchains w2 = blockchains w).
  { unfold w2. by rewrite update_size_registry. }
  exists b, w2. split; [done|]. split.
  - unfold fork. fold pc ht w1.
    unfold save_header. rewrite Hser. unfold size. rewrite Hobj1.
    change (block_height h) with ht. cbn [checkpoint _size obj].
    rewrite Z.sub_diag. cbn [Z.eqb negb]. rewrite Hwrite.
    unfold swap_with_parent, parent. rewrite Hobj2. cbn [parent_id obj checkpoint].
    rewrite Hreg2, Hreg. unfold size, height, size. rewrite Hobj2, (Hoth2 p) by done.
    cbn [_size obj]. unfold height, size in Hheight.
    destruct (Z.leb_spec 0 (checkpoint (objs w p) + _size (objs w p) - 1 - ht + 1)); [done|lia].
  - split; [|split; [done|split; [done|split; [done|]]]].
    + unfold w2. rewrite update_size_files. cbn [files set_files concat app].
      rewrite Hpath1, Hfiles1. apply insert_insert_eq.
    + unfold height, size. rewrite Hobj2. cbn. lia.
Qed.

Lemma fork_first_record_witness :
  valid_header (sample_header 4 1) /\
  files root_file_world
    !! Some (checkpoint (objs root_file_world ROOT), block_height (sample_header 4 1)) = None /\
  blockchains root_file_world !! checkpoint (objs root_file_world ROOT) = Some ROOT /\
  ROOT <> 2%nat /\
  block_height (sample_header 4 1) - 1 <= height root_file_world ROOT /\
  exists b w',
    serialize_header (sample_header 4 1) = Ok b /\
    fork root_file_world ROOT 2%nat (sample_header 4 1) = Done w' /\
    files w' = <[Some (checkpoint (objs root_file_world ROOT),
                       block_height (sample_header 4 1)) := b]> (files root_file_world) /\
    objs w' 2%nat = mkBlockchain (block_height (sample_header 4 1))
                      (Some (checkpoint (objs root_file_world ROOT))) 0 None /\
    (forall x, x <> 2%nat -> objs w' x = objs root_file_world x) /\
    blockchains w' = blockchains root_file_world /\
    height w' 2%nat = block_height (sample_header 4 1) - 1.
Proof.
  assert (Hv : valid_header (sample_header 4 1)) by (apply sample_header_valid; lia).
  assert (H5 : block_height (sample_header 4 1) - 1 <= height root_file_world ROOT)
    by (vm_compute; discriminate).
  split; [exact Hv|]. split; [reflexivity|]. split; [reflexivity|].
  split; [discriminate|]. split; [exact H5|].
  apply (fork_first_record root_file_world ROOT 2%nat (sample_header 4 1) ROOT);
    [exact Hv | reflexivity | reflexivity | discriminate | exact H5].
Defined.

(** X15: when the file of the new segment exists already and
    [update_size] counts at least one record in it, [fork] empties the
    file and then raises [AssertionError] out of [save_header]. *)
Theorem fork_over_stale_file w parent_ r h content :
  files w !! Some (checkpoint (objs w parent_), block_height h) = Some content ->
  count_records content <> 0 ->
  returns (serialize_header h) ->
  exists w',
    fork w parent_ r h = Failed w' AssertionError /\
    files w' = <[Some (checkpoint (objs w parent_), block_height h) := []]> (files w).
Proof.
  intros Hfile Hcount [b Hser].
  set (pc := checkpoint (objs w parent_)) in *. set (ht := block_height h) in *.
  set (w1 := set_files (Blockchain_init w r ht (Some pc))
               (<[path (objs (Blockchain_init w r ht (Some pc)) r) := []]>
                  (files (Blockchain_init w r ht (Some pc))))).
  assert (Hobj1 : objs w1 r = mkBlockchain ht (Some pc) (count_records content) None).
  { unfold w1, Blockchain_init. cbn [objs set_files]. erewrite update_size_object.
    - cbn [objs set_obj]. by destruct (decide (r = r)).
    - cbn [objs set_obj files]. destruct (decide (r = r)); [|done]. exact Hfile. }
  exists w1. split.
  - unfold fork. fold pc ht w1. unfold save_header. rewrite Hser. unfold size.
    rewrite Hobj1. change (block_height h) with ht. cbn [checkpoint _size].
    rewrite Z.sub_diag. destruct (Z.eqb_spec 0 (count_records content)); [lia|done].
  - unfold w1. cbn [files set_files]. fold w1.
    change (objs (Blockchain_init w r ht (Some pc)) r) with (objs w1 r). rewrite Hobj1.
    unfold Blockchain_init. by rewrite update_size_files.
Qed.

Lemma fork_over_stale_file_witness :
  files appended_fork_world
    !! Some (checkpoint (objs appended_fork_world ROOT), block_height (sample_header 4 1))
    = Some (sample_record 21 ++ sample_record 22) /\
  count_records (sample_record 21 ++ sample_record 22) <> 0 /\
  returns (serialize_header (sample_header 4 1)) /\
  exists w',
    fork appended_fork_world ROOT 2%nat (sample_header 4 1) = Failed w' AssertionError /\
    files w' = <[Some (checkpoint (objs appended_fork_world ROOT),
                       block_height (sample_header 4 1)) := []]> (files appended_fork_world).
Proof.
  assert (H2 : count_records (sample_record 21 ++ sample_record 22) <> 0)
    by (vm_compute; discriminate).
  assert (H3 : returns (serialize_header (sample_header 4 1)))
    by (exists (sample_record 4); vm_compute; reflexivity).
  split; [reflexivity|]. split; [exact H2|]. split; [exact H3|].
  apply (fork_over_stale_file appended_fork_world ROOT 2%nat (sample_header 4 1)
           (sample_record 21 ++ sample_record 22));
    [reflexivity | exact H2 | exact H3].
Defined.

(** ** The registry *)

Lemma list_max_spec l : forall x,
  (list_max x l = x \/ list_max x l ∈ l) /\ x <= list_max x l /\
  Forall (fun y => y <= list_max x l) l.
Proof.
  induction l as [|y l IH]; intros x; cbn [list_max].
  - split; [by left|]. split; [lia|constructor].
  - destruct (IH (Z.max x y)) as (Hin & Hle & Hall).
    split; [|split; [lia|constructor; [lia|done]]].
    destruct Hin as [Heq|Hin]; [|right; by right].
    destruct (Z.max_spec x y) as [[_ Hm]|[_ Hm]]; rewrite Hm in *.
    + right. rewrite Heq. by left.
    + by left.
Qed.

(** X16: [get_checkpoint] is the checkpoint of a registered child when
    there is one, and then no child has a larger checkpoint; without
    children it is the segment's own checkpoint. *)
Theorem get_checkpoint_spec w self :
  let is_child y :=
    y ∈ registry_values w /\ parent_id (objs w y) = Some (checkpoint (objs w self)) in
  (forall y, is_child y -> checkpoint (objs w y) <= get_checkpoint w self) /\
  ((exists y, is_child y /\ get_checkpoint w self = checkpoint (objs w y)) \/
   ((forall y, ~ is_child y) /\ get_checkpoint w self = checkpoint (objs w self))).
Proof.
  cbn zeta. unfold get_checkpoint, get_max_child.
  assert (Hch : forall y, y ∈ children w self (registry_values w) <->
                          y ∈ registry_values w /\
                          parent_id (objs w y) = Some (checkpoint (objs w self))).
  { intros y. unfold children. rewrite list_elem_of_filter. tauto. }
  destruct (children w self (registry_values w)) as [|c cs] eqn:Hcs; cbn [fmap list_fmap].
  - split.
    + intros y Hy. apply Hch in Hy. by apply elem_of_nil in Hy.
    + right. split; [|done]. intros y Hy. apply Hch in Hy. by apply elem_of_nil in Hy.
  - destruct (list_max_spec ((fun x => checkpoint (objs w x)) <$> cs) (checkpoint (objs w c)))
      as (Hin & Hle & Hall).
    split.
    + intros y Hy. apply Hch in Hy. apply elem_of_cons in Hy. destruct Hy as [->|Hy]; [done|].
      rewrite Forall_forall in Hall. apply Hall.
      apply list_elem_of_fmap. by exists y.
    + left. destruct Hin as [Heq|Hin].
      * exists c. split; [|done]. apply Hch. by left.
      * apply list_elem_of_fmap in Hin. destruct Hin as (y & Hy & Hin).
        exists y. split; [|done]. apply Hch. by right.
Qed.

(** X17: the module-level [can_connect] answers the first segment in the
    order of [blockchains.values()] whose method returns [True], every
    segment before it having returned [False]; it answers [False] when all
    return [False], and an exception of a method reaches the caller when
    all segments before have returned [False]. *)
Theorem can_connect_any_spec ext net recursion_limit w bs h :
  let connects b := can_connect ext net recursion_limit w b h true in
  match can_connect_any ext net recursion_limit w bs h with
  | Ok (Some b) =>
      exists pre post,
        bs = pre ++ b :: post /\ connects b = Ok true /\
        Forall (fun x => connects x = Ok false) pre
  | Ok None => Forall (fun x => connects x = Ok false) bs
  | Raise e =>
      exists pre b post,
        bs = pre ++ b :: post /\ connects b = Raise e /\
        Forall (fun x => connects x = Ok false) pre
  end.
Proof.
  cbn zeta. induction bs as [|b bs IH]; cbn [can_connect_any]; [constructor|].
  destruct (can_connect ext net recursion_limit w b h true) as [[]|e] eqn:Hb.
  - exists [], bs. by repeat split.
  - destruct (can_connect_any ext net recursion_limit w bs h) as [[b'|]|e].
    + destruct IH as (pre & post & -> & Hc & Hpre).
      exists (b :: pre), post. repeat split; [done|by constructor].
    + by constructor.
    + destruct IH as (pre & b' & post & -> & Hc & Hpre).
      exists (b :: pre), b', post. repeat split; [done|by constructor].
  - exists [], b, bs. by repeat split.
Qed.

(** X18: the module-level [check_header], for a dictionary, answers the
    first segment in the order of [blockchains.values()] whose method
    returns [True], every segment before it having returned [False]; it
    answers [False] when all return [False], and an exception of a method
    reaches the caller when all segments before have returned [False]. *)
Theorem check_header_any_spec ext recursion_limit w bs h :
  let checks b := check_header ext recursion_limit w b h in
  match check_header_any ext recursion_limit w bs (Some h) with
  | Ok (Some b) =>
      exists pre post,
        bs = pre ++ b :: post /\ checks b = Ok true /\
        Forall (fun x => checks x = Ok false) pre
  | Ok None => Forall (fun x => checks x = Ok false) bs
  | Raise e =>
      exists pre b post,
        bs = pre ++ b :: post /\ checks b = Raise e /\
        Forall (fun x => checks x = Ok false) pre
  end.
Proof.
  cbn zeta. cbn [check_header_any].
  induction bs as [|b bs IH]; cbn [check_header_loop]; [constructor|].
  destruct (check_header ext recursion_limit w b h) as [[]|e] eqn:Hb.
  - exists [], bs. by repeat split.
  - destruct (check_header_loop ext recursion_limit w bs h) as [[b'|]|e].
    + destruct IH as (pre & post & -> & Hc & Hpre).
      exists (b :: pre), post. repeat split; [done|by constructor].
    + by constructor.
    + destruct IH as (pre & b' & post & -> & Hc & Hpre).
      exists (b :: pre), b', post. repeat split; [done|by constructor].
  - exists [], b, bs. by repeat split.
Qed.

(** ** Connecting *)

Lemma verify_header_ok ext net h prev target :
  verify_header ext net h prev target = Ok tt ->
  exists b target' nonce_bytes sol,
    serialize_header h = Ok b /\
    bits_to_target (bits h) = Ok target' /\
    uint256_from_bytes (Hash ext b) <= target' /\
    str_to_hash (Some (nonce h)) = Ok nonce_bytes /\
    b64decode (n_solution h) = Ok sol /\
    is_gbp_valid ext b (uint256_from_bytes nonce_bytes) (vector_from_bytes ext sol)
                 (EQUIHASH_N net) (EQUIHASH_K net) = true.
Proof.
  unfold verify_header, sha256_header.
  destruct (snd (hash_header ext prev)) as [ph|]; [|discriminate].
  destruct (serialize_header h) as [b|]; [|discriminate].
  destruct (negb (bool_decide _)); [discriminate|].
  destruct (bits_to_target (bits h)) as [t|]; [|discriminate].
  destruct (Z.ltb_spec t (uint256_from_bytes (Hash ext b))); [discriminate|].
  destruct (str_to_hash (Some (nonce h))) as [nb|]; [|discriminate].
  destruct (b64decode (n_solution h)) as [sol|]; [|discriminate].
  destruct (is_gbp_valid ext b _ _ _ _) eqn:Hv; [|discriminate].
  intros _. by exists b, t, nb, sol.
Qed.

(** X19: when [can_connect] returns [True], the height test held if it
    was asked for; a header of height 0 hashes to the genesis hash; any
    other header names the hash of the stored predecessor, serialises, has
    [bits] that decode to a target not below its proof-of-work hash, and a
    solution that the Equihash verifier accepts. *)
Theorem can_connect_true ext net recursion_limit w self h check_height :
  can_connect ext net recursion_limit w self h check_height = Ok true ->
  (check_height = true -> height w self = block_height h - 1) /\
  (block_height h = 0 -> snd (hash_header ext (Some h)) = Ok (GENESIS net)) /\
  (block_height h <> 0 ->
   exists prev prev_hash b target nonce_bytes sol,
     read_header recursion_limit w self (block_height h - 1) = Ok prev /\
     snd (hash_header ext prev) = Ok prev_hash /\
     prev_block_hash h = Some prev_hash /\
     serialize_header h = Ok b /\
     bits_to_target (bits h) = Ok target /\
     uint256_from_bytes (Hash ext b) <= target /\
     str_to_hash (Some (nonce h)) = Ok nonce_bytes /\
     b64decode (n_solution h) = Ok sol /\
     is_gbp_valid ext b (uint256_from_bytes nonce_bytes) (vector_from_bytes ext sol)
                  (EQUIHASH_N net) (EQUIHASH_K net) = true).
Proof.
  unfold can_connect. cbn zeta.
  destruct (check_height && negb (height w self =? block_height h - 1)) eqn:Hc;
    [discriminate|].
  intros Hok. split.
  { intros ->. cbn [andb] in Hc. apply negb_false_iff in Hc. by apply Z.eqb_eq. }
  clear Hc. destruct (Z.eqb_spec (block_height h) 0) as [H0|Hn0].
  - split; [|done]. intros _.
    destruct (snd (hash_header ext (Some h))) as [hh|]; [|discriminate].
    injection Hok as Hok. apply bool_decide_eq_true in Hok. by subst hh.
  - split; [done|]. intros _.
    destruct (read_header recursion_limit w self (block_height h - 1)) as [prev|];
      [|discriminate].
    destruct (hash_header ext prev) as [prev' [ph|]] eqn:Hh; [|discriminate].
    destruct (bool_decide (Some ph = prev_block_hash h)) eqn:Hlink; [|discriminate].
    apply bool_decide_eq_true in Hlink. cbn [negb] in Hok.
    destruct (get_target _ _ _ _ _) as [t|]; [|discriminate].
    destruct (verify_header ext net h prev' t) as [[]|] eqn:Hv; [|discriminate].
    destruct (verify_header_ok _ _ _ _ _ Hv) as (b & t' & nb & sol & ?).
    exists prev, ph, b, t', nb, sol. split; [done|]. split; [by rewrite Hh|].
    split; [congruence|]. tauto.
Qed.

Lemma can_connect_true_witness :
  can_connect sample_ext sample_net 1000 fork_world ROOT linked_header true = Ok true /\
  (true = true -> height fork_world ROOT = block_height linked_header - 1) /\
  (block_height linked_header = 0 ->
   snd (hash_header sample_ext (Some linked_header)) = Ok (GENESIS sample_net)) /\
  (block_height linked_header <> 0 ->
   exists prev prev_hash b target nonce_bytes sol,
     read_header 1000 fork_world ROOT (block_height linked_header - 1) = Ok prev /\
     snd (hash_header sample_ext prev) = Ok prev_hash /\
     prev_block_hash linked_header = Some prev_hash /\
     serialize_header linked_header = Ok b /\
     bits_to_target (bits linked_header) = Ok target /\
     uint256_from_bytes (Hash sample_ext b) <= target /\
     str_to_hash (Some (nonce linked_header)) = Ok nonce_bytes /\
     b64decode (n_solution linked_header) = Ok sol /\
     is_gbp_valid sample_ext b (uint256_from_bytes nonce_bytes)
                  (vector_from_bytes sample_ext sol)
                  (EQUIHASH_N sample_net) (EQUIHASH_K sample_net) = true).
Proof.
  split; [vm_compute; reflexivity|].
  apply (can_connect_true sample_ext sample_net 1000 fork_world ROOT linked_header true).
  vm_compute; reflexivity.
Defined.

(** ** Checkpoints *)

Lemma get_checkpoints_loop_spec ext net recursion_limit w self n : forall a cp,
  get_checkpoints_loop ext net recursion_limit w self (Z.of_nat <$> seq a n) = Ok cp ->
  length cp = n /\
  forall i hh t, cp !! i = Some (hh, t) ->
    get_hash ext recursion_limit w self ((Z.of_nat (a + i) + 1) * 2016 - 1) = Ok hh /\
    get_target net recursion_limit w self (Z.of_nat (a + i)) = Ok t.
Proof.
  induction n as [|n IH]; intros a cp; cbn [seq fmap list_fmap get_checkpoints_loop].
  - intros [= <-]. split; [done|]. intros i hh t Hi. done.
  - destruct (get_hash _ _ _ _ _) as [hh0|] eqn:Hh; [|discriminate].
    destruct (get_target _ _ _ _ _) as [t0|] eqn:Ht; [|discriminate].
    destruct (get_checkpoints_loop _ _ _ _ _ _) as [cp'|] eqn:Hl; [|discriminate].
    intros [= <-]. apply IH in Hl. destruct Hl as [Hlen Hall].
    split; [cbn; by rewrite Hlen|].
    intros [|i] hh t Hi.
    + injection Hi as <- <-. by rewrite Nat.add_0_r.
    + cbn in Hi. apply Hall in Hi. by replace (a + S i)%nat with (S a + i)%nat by lia.
Qed.

(** X20: the list that [get_checkpoints] returns has [height // 2016]
    entries (none for a lower tip), and entry [i] is the pair of
    [get_hash((i + 1) * 2016 - 1)] and [get_target(i)]. *)
Theorem get_checkpoints_spec ext net recursion_limit w self cp :
  get_checkpoints ext net recursion_limit w self = Ok cp ->
  Z.of_nat (length cp) = Z.max 0 (height w self / 2016) /\
  forall i hh t, cp !! i = Some (hh, t) ->
    get_hash ext recursion_limit w self ((Z.of_nat i + 1) * 2016 - 1) = Ok hh /\
    get_target net recursion_limit w self (Z.of_nat i) = Ok t.
Proof.
  unfold get_checkpoints. intros Hcp.
  apply get_checkpoints_loop_spec in Hcp. destruct Hcp as [Hlen Hall].
  split; [lia|]. intros i hh t Hi. by apply Hall in Hi.
Qed.

Lemma get_checkpoints_spec_witness :
  get_checkpoints sample_ext sample_net 1000 two_period_world FORK
    = Ok [(sample_hash, MAX_TARGET)] /\
  Z.of_nat (length [(sample_hash, MAX_TARGET)])
    = Z.max 0 (height two_period_world FORK / 2016) /\
  forall i hh t, [(sample_hash, MAX_TARGET)] !! i = Some (hh, t) ->
    get_hash sample_ext 1000 two_period_world FORK ((Z.of_nat i + 1) * 2016 - 1) = Ok hh /\
    get_target sample_net 1000 two_period_world FORK (Z.of_nat i) = Ok t.
Proof.
  split; [vm_compute; reflexivity|].
  apply (get_checkpoints_spec sample_ext sample_net 1000 two_period_world FORK
           [(sample_hash, MAX_TARGET)]).
  vm_compute; reflexivity.
Defined.

(** ** Names *)

Lemma lstrip_zeros_spec x :
  (exists k, x = replicate k "0"%char ++ lstrip_zeros x) /\
  (forall rest, lstrip_zeros x <> "0"%char :: rest).
Proof.
  induction x as [|c x [[k IHk] IH]]; cbn [lstrip_zeros].
  - split; [by exists 0%nat|done].
  - destruct (Ascii.eqb_spec c "0") as [->|Hne].
    + split; [|done]. exists (S k). cbn. by rewrite <- IHk.
    + split; [by exists 0%nat|]. intros rest [= ? _]. done.
Qed.

(** X21: the name of a segment is a prefix of at most ten characters of
    the hash at [get_checkpoint] with all its leading ['0'] characters
    removed: it never starts with ['0']. *)
Theorem get_name_spec ext recursion_limit w self name :
  get_name ext recursion_limit w self = Ok name ->
  exists hh k,
    get_hash ext recursion_limit w self (get_checkpoint w self) = Ok hh /\
    name `prefix_of` drop k hh /\
    take k hh = replicate k "0"%char /\
    (length name <= 10)%nat /\
    (forall rest, name <> "0"%char :: rest).
Proof.
  unfold get_name.
  destruct (get_hash ext recursion_limit w self (get_checkpoint w self)) as [hh|];
    [|discriminate].
  intros [= <-]. destruct (lstrip_zeros_spec hh) as [[k Hk] Hz].
  exists hh, k. split; [done|].
  assert (Hd : drop k hh = lstrip_zeros hh).
  { rewrite Hk at 1. by rewrite drop_app_length' by (by rewrite length_replicate). }
  assert (Ht : take k hh = replicate k "0"%char).
  { rewrite Hk at 1. by rewrite take_app_length' by (by rewrite length_replicate). }
  rewrite Hd. split; [apply prefix_take|]. split; [done|].
  split; [rewrite length_take; lia|].
  intros rest Hn. destruct (lstrip_zeros hh) as [|c l] eqn:Hl; [done|].
  cbn in Hn. injection Hn as -> _. by apply (Hz l).
Qed.

Lemma get_name_spec_witness :
  get_name sample_ext 1000 appended_fork_world FORK = Ok (lit "1") /\
  exists hh k,
    get_hash sample_ext 1000 appended_fork_world FORK (get_checkpoint appended_fork_world FORK) = Ok hh /\
    lit "1" `prefix_of` drop k hh /\
    take k hh = replicate k "0"%char /\
    (length (lit "1") <= 10)%nat /\
    (forall rest, lit "1" <> "0"%char :: rest).
Proof.
  split; [vm_compute; reflexivity|].
  apply (get_name_spec sample_ext 1000 appended_fork_world FORK (lit "1")).
  vm_compute; reflexivity.
Defined.

(** ** Counting *)

Lemma update_size_loop_bound fuel : forall f eof size n,
  update_size_loop fuel f eof size = Some n ->
  size <= n /\ 141 * (n - size) <= Z.max 0 (eof - fpos f).
Proof.
  induction fuel as [|fuel IH]; intros f eof size n; [discriminate|].
  cbn [update_size_loop].
  destruct (skip_record f) as [f1|] eqn:Hs; [|intros [= <-]; lia].
  apply skip_record_spec in Hs. destruct Hs as (_ & Hpos & _).
  intros Hl. apply IH in Hl. unfold tell in Hl.
  destruct (Z.ltb_spec (fpos f1) eof); lia.
Qed.

(** X22: the size that [update_size] sets is never negative, is 0 when
    the file does not exist, and otherwise counts at most one record per
    141 bytes of the file. *)
Theorem update_size_bound w self :
  0 <= size (update_size w self) self /\
  match files w !! path (objs w self) with
  | Some content => 141 * size (update_size w self) self <= Z.of_nat (length content)
  | None => size (update_size w self) self = 0
  end.
Proof.
  destruct (files w !! path (objs w self)) as [content|] eqn:Hfile.
  - rewrite (update_size_size w self content Hfile).
    pose proof (count_records_total content) as Ht.
    apply update_size_loop_bound in Ht. cbn [fpos seek_set] in Ht. lia.
  - unfold update_size, size. cbn [files set_obj]. rewrite Hfile. cbn [objs set_obj].
    destruct (decide (self = self)); [|done]. by cbn.
Qed.

(** ** Difficulty *)

(** The smallest mantissa with the smallest exponent, and the largest
    with the largest. *)
Lemma bits_to_target_bounds bits target :
  bits_to_target bits = Ok target -> 2 ^ 15 <= target < 2 ^ 231.
Proof.
  unfold bits_to_target.
  set (N := Z.land (Z.shiftr bits 24) 0xff). set (B := Z.land bits 0xffffff).
  destruct (Z.leb_spec 3 N), (Z.leb_spec N 0x1d); try discriminate.
  destruct (Z.leb_spec 0x8000 B), (Z.leb_spec B 0x7fffff); try discriminate.
  cbn [andb negb]. intros [= <-]. rewrite Z.shiftl_mul_pow2 by lia.
  assert (1 <= 2 ^ (8 * (N - 3))) by (apply (Z.pow_le_mono_r 2 0); lia).
  assert (2 ^ (8 * (N - 3)) <= 2 ^ 208) by (apply Z.pow_le_mono_r; lia).
  change (2 ^ 231) with (2 ^ 23 * 2 ^ 208). nia.
Qed.

(** X23: every target that [bits_to_target] returns lies in
    [[2 ^ 15, 2 ^ 231)]. *)
Theorem bits_to_target_range bits target :
  bits_to_target bits = Ok target -> 2 ^ 15 <= target < 2 ^ 231.
Proof. apply bits_to_target_bounds. Qed.

Lemma bits_to_target_range_witness :
  bits_to_target 0x1d00ffff = Ok MAX_TARGET /\ 2 ^ 15 <= MAX_TARGET < 2 ^ 231.
Proof.
  split; [reflexivity|]. apply (bits_to_target_range 0x1d00ffff MAX_TARGET). reflexivity.
Defined.

(** X24: beyond the embedded checkpoints and outside test mode, the
    target that [get_target] returns is positive, at most [MAX_TARGET], at
    most four times the target of the period's last header, and at least
    the smaller of [MAX_TARGET] and a quarter of it. *)
Theorem get_target_bounds net recursion_limit w self index last target t :
  TESTNET net = false ->
  Z.of_nat (length (CHECKPOINTS net)) <= index ->
  read_header recursion_limit w self (index * 2016 + 2015) = Ok (Some last) ->
  bits_to_target (bits last) = Ok target ->
  get_target net recursion_limit w self index = Ok t ->
  0 < t <= MAX_TARGET /\ t <= 4 * target /\ Z.min MAX_TARGET (target / 4) <= t.
Proof.
  intros Htest Hidx Hlast Hbits. unfold get_target. rewrite Htest.
  destruct (Z.eqb_spec index (-1)); [lia|].
  destruct (Z.ltb_spec index (Z.of_nat (length (CHECKPOINTS net)))); [lia|].
  destruct (read_header recursion_limit w self (index * 2016)) as [[first|]|];
    rewrite ?Hlast, ?Hbits; try discriminate.
  intros [= <-]. apply bits_to_target_bounds in Hbits.
  change (14 * 24 * 60 * 60 / 4) with 302400.
  change (14 * 24 * 60 * 60 * 4) with 4838400.
  change (14 * 24 * 60 * 60) with 1209600.
  set (span := Z.min (Z.max (timestamp last - timestamp first) 302400) 4838400).
  assert (Hspan : 302400 <= span <= 4838400) by (unfold span; lia).
  assert (Hlo : target / 4 <= target * span / 1209600).
  { replace (target / 4) with (target * 302400 / 1209600).
    - apply Z.div_le_mono; nia.
    - change 1209600 with (4 * 302400). by rewrite Z.div_mul_cancel_r by lia. }
  assert (Hhi : target * span / 1209600 <= 4 * target).
  { replace (4 * target) with (target * 4838400 / 1209600).
    - apply Z.div_le_mono; nia.
    - change 4838400 with (4 * 1209600). rewrite Z.mul_assoc, Z.div_mul by lia. lia. }
  assert (2 ^ 13 <= target / 4).
  { apply Z.div_le_lower_bound; lia. }
  assert (0 < MAX_TARGET) by done.
  change (2 ^ 13) with 8192 in *. lia.
Qed.

Lemma get_target_bounds_witness :
  TESTNET sample_net = false /\
  Z.of_nat (length (CHECKPOINTS sample_net)) <= 0 /\
  read_header 1000 retarget_world FORK (0 * 2016 + 2015)
    = Ok (Some (timed_header 2001000 2015)) /\
  bits_to_target (bits (timed_header 2001000 2015)) = Ok MAX_TARGET /\
  get_target sample_net 1000 retarget_world FORK 0 = Ok MAX_TARGET /\
  0 < MAX_TARGET <= MAX_TARGET /\ MAX_TARGET <= 4 * MAX_TARGET /\
  Z.min MAX_TARGET (MAX_TARGET / 4) <= MAX_TARGET.
Proof.
  split; [reflexivity|]. split; [vm_compute; discriminate|].
  split; [vm_compute; reflexivity|]. split; [vm_compute; reflexivity|].
  split; [vm_compute; reflexivity|].
  apply (get_target_bounds sample_net 1000 retarget_world FORK 0
           (timed_header 2001000 2015) MAX_TARGET MAX_TARGET);
    first [ reflexivity | vm_compute; first [reflexivity | discriminate] ].
Defined.

(** ** Encoding a target *)

Lemma hex_fixed_is_hex k n : Forall is_hex (hex_fixed k n).
Proof.
  revert n; induction k as [|k IH]; intros n; cbn [hex_fixed]; [constructor|].
  apply Forall_app. split; [apply IH|]. constructor; [|constructor].
  unfold is_hex. rewrite hex_val_digit by (apply Z.mod_pos_bound; lia). by eexists.
Qed.

Lemma int16_acc_is_hex l : forall acc,
  Forall is_hex l -> 0 <= acc ->
  exists v, int16_acc acc l = Ok v /\
            acc * 16 ^ Z.of_nat (length l) <= v < (acc + 1) * 16 ^ Z.of_nat (length l).
Proof.
  induction l as [|c l IH]; intros acc Hl Hacc.
  - exists acc. split; [done|]. cbn. lia.
  - apply Forall_cons in Hl. destruct Hl as [[d Hd] Hl]. cbn [int16_acc]. rewrite Hd.
    assert (0 <= d < 16).
    { unfold hex_val in Hd.
      repeat match type of Hd with
             | (if ?c then _ else _) = _ => destruct c eqn:?
             end; try discriminate; injection Hd as <-; lia. }
    destruct (IH (16 * acc + d) Hl ltac:(lia)) as (v & Hv & Hb).
    exists v. split; [done|]. cbn [length]. rewrite Nat2Z.inj_succ, Z.pow_succ_r by lia.
    nia.
Qed.

Lemma strip_zero_bytes_suffix n : forall c,
  (length c <= n)%nat ->
  (exists pre, c = pre ++ strip_zero_bytes c) /\
  (length (strip_zero_bytes c) <= length c)%nat /\
  (5 <= length c -> 5 <= length (strip_zero_bytes c))%nat /\
  (Nat.even (length c) = true -> 6 <= length c ->
   Nat.even (length (strip_zero_bytes c)) = true /\ 6 <= length (strip_zero_bytes c))%nat.
Proof.
  induction n as [|n IH]; intros c Hn.
  { destruct c; [|simpl in Hn; lia]. cbn. split; [by exists []|]. split; [lia|].
    split; [lia|]. intros _ ?. lia. }
  destruct c as [|a [|b c]].
  - cbn. split; [by exists []|]. split; [lia|]. split; [lia|]. intros _ ?; lia.
  - cbn. split; [by exists []|]. split; [lia|]. split; [lia|]. intros _ ?; lia.
  - cbn [strip_zero_bytes].
    destruct (Ascii.eqb a "0" && Ascii.eqb b "0" && (6 <? Z.of_nat (length (a :: b :: c))))
      eqn:Hcond.
    + apply andb_true_iff in Hcond. destruct Hcond as [_ Hlen]. apply Z.ltb_lt in Hlen.
      cbn [length] in *.
      destruct (IH c ltac:(lia)) as ([pre Hpre] & Hle & H5 & Hev).
      split; [exists (a :: b :: pre); cbn; by rewrite <- Hpre|].
      split; [lia|]. split; [lia|].
      intros He H6. change (Nat.even (S (S (length c)))) with (Nat.even (length c)) in He.
      apply Hev; [done|]. destruct (Nat.Even_or_Odd (length c)) as [[k Hk]|[k Hk]].
      * lia.
      * rewrite Hk in He. rewrite Nat.add_1_r, Nat.even_succ, Nat.odd_mul in He.
        cbn in He. discriminate.
    + split; [by exists []|]. split; [lia|]. split; [lia|]. done.
Qed.

Lemma target_hex_digits target :
  Forall is_hex (drop 2 (format_064x target)) /\
  (62 <= length (drop 2 (format_064x target)))%nat /\
  (0 <= target < 2 ^ 256 -> length (drop 2 (format_064x target)) = 62%nat).
Proof.
  unfold format_064x. destruct (Z.leb_spec 0 target).
  - split; [apply Forall_drop, hex_fixed_is_hex|].
    rewrite length_drop, hex_fixed_length. split; [lia|].
    intros Ht. pose proof (hex_len_le target) as Hl.
    change (16 ^ 64) with (2 ^ 256) in Hl. specialize (Hl Ht). lia.
  - cbn [lit list_ascii_of_string app].
    change (drop 2 ("-"%char :: ?l)) with (drop 1 l).
    split; [apply Forall_drop, hex_fixed_is_hex|].
    rewrite length_drop, hex_fixed_length. split; lia.
Qed.

(** X25: [target_to_bits] raises for no integer, negative ones
    included. *)
Theorem target_to_bits_total target : returns (target_to_bits target).
Proof.
  unfold target_to_bits.
  destruct (target_hex_digits target) as (Hhex & Hlen & _).
  set (c0 := drop 2 (format_064x target)) in *.
  destruct (strip_zero_bytes_suffix (length c0) c0 ltac:(lia)) as ([pre Hpre] & _ & H5 & _).
  set (c := strip_zero_bytes c0) in *.
  assert (Hc : Forall is_hex (take 6 c)).
  { apply Forall_take. rewrite Hpre in Hhex. by apply Forall_app in Hhex as [_ ?]. }
  destruct (int16_acc_is_hex (take 6 c) 0 Hc ltac:(lia)) as (v & Hv & _).
  unfold int16. destruct (take 6 c) eqn:Ht.
  - apply (f_equal length) in Ht. rewrite length_take in Ht. cbn [length] in Ht. lia.
  - rewrite Hv. destruct (_ <=? _); by eexists.
Qed.

Lemma compact_value N B :
  0 <= N -> 0 <= B < 2 ^ 24 -> Z.lor (Z.shiftl N 24) B = N * 2 ^ 24 + B.
Proof.
  intros HN HB.
  assert (Hland : Z.land (Z.shiftl N 24) B = 0).
  { apply Z.bits_inj'. intros n Hn. rewrite Z.land_spec, Z.bits_0.
    destruct (Z.ltb_spec n 24).
    - by rewrite Z.shiftl_spec_low by lia.
    - destruct (Z.eq_dec B 0) as [->|]; [by rewrite Z.bits_0, andb_false_r|].
      rewrite (Z.bits_above_log2 B n); [by rewrite andb_false_r|lia|].
      assert (Z.log2 B < 24) by (apply Z.log2_lt_pow2; lia). lia. }
  rewrite <- Z.shiftl_mul_pow2 by lia.
  rewrite (Z.add_nocarry_lxor _ _ Hland). symmetry. by apply Z.lxor_lor.
Qed.

(** X26: for a target of at most 256 bits, the value of [target_to_bits]
    is [N * 2 ^ 24 + B] with an exponent [N] from 3 to 32 and a mantissa
    [B] below [2 ^ 23]: the sign bit of the mantissa is never set. *)
Theorem target_to_bits_compact target :
  0 <= target < 2 ^ 256 ->
  exists N B,
    target_to_bits target = Ok (N * 2 ^ 24 + B) /\
    3 <= N <= 32 /\ 0 <= B < 2 ^ 23.
Proof.
  intros Ht. unfold target_to_bits.
  destruct (target_hex_digits target) as (Hhex & _ & Hlen). specialize (Hlen Ht).
  set (c0 := drop 2 (format_064x target)) in *.
  destruct (strip_zero_bytes_suffix (length c0) c0 ltac:(lia))
    as ([pre Hpre] & Hle & _ & Hev).
  rewrite Hlen in Hev, Hle. destruct (Hev eq_refl ltac:(lia)) as [Heven H6]. clear Hev.
  set (c := strip_zero_bytes c0) in *.
  assert (Hc : Forall is_hex (take 6 c)).
  { apply Forall_take. rewrite Hpre in Hhex. by apply Forall_app in Hhex as [_ ?]. }
  destruct (int16_acc_is_hex (take 6 c) 0 Hc ltac:(lia)) as (v & Hv & Hb).
  assert (Ht6 : length (take 6 c) = 6%nat) by (rewrite length_take; lia).
  rewrite Ht6 in Hb. change (16 ^ Z.of_nat 6) with (2 ^ 24) in Hb.
  unfold int16. destruct (take 6 c) eqn:Htk; [cbn in Ht6; lia|]. rewrite Hv.
  assert (HN : 3 <= Z.of_nat (length c) / 2 <= 31).
  { split; [apply Z.div_le_lower_bound; lia|].
    apply Z.div_le_upper_bound; lia. }
  destruct (Z.leb_spec 0x800000 v).
  - exists (Z.of_nat (length c) / 2 + 1), (Z.shiftr v 8).
    assert (0 <= Z.shiftr v 8 < 2 ^ 16).
    { rewrite Z.shiftr_div_pow2 by lia. split; [apply Z.div_pos; lia|].
      apply Z.div_lt_upper_bound; lia. }
    rewrite compact_value by lia. split; [done|]. lia.
  - exists (Z.of_nat (length c) / 2), v.
    rewrite compact_value by lia. split; [done|]. lia.
Qed.

Lemma target_to_bits_compact_witness :
  0 <= MAX_TARGET < 2 ^ 256 /\
  exists N B,
    target_to_bits MAX_TARGET = Ok (N * 2 ^ 24 + B) /\
    3 <= N <= 32 /\ 0 <= B < 2 ^ 23.
Proof.
  assert (H1 : 0 <= MAX_TARGET < 2 ^ 256) by (vm_compute; split; [discriminate|reflexivity]).
  split; [exact H1|]. apply (target_to_bits_compact MAX_TARGET). exact H1.
Defined.

Lemma pow256 j : 16 ^ Z.of_nat (2 * j) = 256 ^ Z.of_nat j.
Proof.
  change 256 with (16 ^ 2). rewrite <- Z.pow_mul_r by lia. f_equal. lia.
Qed.

(** The stripping loop on the digits of [t] keeps the significant bytes,
    and at least three. *)
Lemma strip_zero_bytes_hex m : forall t,
  0 <= t < 256 ^ Z.of_nat (3 + m) ->
  exists j, (j <= m)%nat /\
    strip_zero_bytes (hex_fixed (2 * (3 + m)) t) = hex_fixed (2 * (3 + j)) t /\
    t < 256 ^ Z.of_nat (3 + j) /\
    (j <> 0%nat -> 256 ^ Z.of_nat (2 + j) <= t).
Proof.
  induction m as [|m IH]; intros t Ht.
  - exists 0%nat. split; [lia|]. split; [|split; [lia|done]].
    apply strip_zero_bytes_short. rewrite hex_fixed_length. lia.
  - assert (Hp : 0 < 256 ^ Z.of_nat (3 + m)) by (apply Z.pow_pos_nonneg; lia).
    destruct (Z.ltb_spec t (256 ^ Z.of_nat (3 + m))) as [Hsmall|Hbig].
    + destruct (IH t ltac:(lia)) as (j & Hj & Hs & Hlt & Hge).
      exists j. split; [lia|]. split; [|done].
      replace (2 * (3 + S m))%nat with (2 + 2 * (3 + m))%nat by lia.
      rewrite (hex_fixed_small (2 * (3 + m)) 2 t) by (rewrite pow256; lia).
      rewrite (strip_zero_bytes_zeros 1); [done|]. rewrite hex_fixed_length. lia.
    + exists (S m). split; [lia|]. split; [|split; [lia|]].
      * replace (2 * (3 + S m))%nat with (2 + 2 * (3 + m))%nat by lia.
        rewrite (hex_fixed_split 2 (2 * (3 + m)) t). rewrite pow256.
        set (x := t / 256 ^ Z.of_nat (3 + m)).
        assert (Hx : 1 <= x < 256).
        { unfold x. split; [apply Z.div_le_lower_bound; lia|].
          apply Z.div_lt_upper_bound; [lia|].
          replace (Z.of_nat (3 + S m)) with (Z.succ (Z.of_nat (3 + m))) in Ht by lia.
          rewrite Z.pow_succ_r in Ht by lia. lia. }
        cbn [hex_fixed app].
        apply strip_zero_bytes_digits; try (apply Z.mod_pos_bound; lia).
        clear -Hx. Z.div_mod_to_equations. lia.
      * intros _. by replace (2 + S m)%nat with (3 + m)%nat by lia.
Qed.

Lemma bits_to_target_compact N B :
  3 <= N <= 29 -> 2 ^ 15 <= B < 2 ^ 23 ->
  bits_to_target (N * 2 ^ 24 + B) = Ok (B * 256 ^ (N - 3)).
Proof.
  intros HN HB. rewrite <- compact_value by lia.
  destruct (bits_fields N B) as [HfN HfB]; [lia..|].
  unfold bits_to_target. rewrite HfN, HfB.
  destruct (Z.leb_spec 3 N), (Z.leb_spec N 0x1d); try lia.
  destruct (Z.leb_spec 0x8000 B), (Z.leb_spec B 0x7fffff); try lia.
  cbn [andb negb]. rewrite Z.shiftl_mul_pow2 by lia. do 2 f_equal.
  change 256 with (2 ^ 8). by rewrite <- Z.pow_mul_r by lia.
Qed.

(** X27: for a target in [[2 ^ 15, 2 ^ 224)], [bits_to_target] accepts
    what [target_to_bits] returns, and the decoded target is not above the
    original and differs from it by less than [2 ^ -15] of itself. *)
Theorem target_to_bits_rounds_down target :
  2 ^ 15 <= target < 2 ^ 224 ->
  exists bits target',
    target_to_bits target = Ok bits /\
    bits_to_target bits = Ok target' /\
    target' <= target /\
    2 ^ 15 * (target - target') < target'.
Proof.
  intros Ht. unfold target_to_bits.
  rewrite format_064x_small by (change (16 ^ 64) with (2 ^ 256); lia).
  change 64%nat with (2 + 62)%nat. rewrite (hex_fixed_split 2 62 target).
  rewrite drop_app_length' by (by rewrite hex_fixed_length).
  change (hex_fixed 62 target) with (hex_fixed (2 * (3 + 28)) target).
  destruct (strip_zero_bytes_hex 28 target) as (j & Hj & -> & Hlt & Hge).
  { change (256 ^ Z.of_nat (3 + 28)) with (2 ^ 248). lia. }
  assert (Hj25 : (j <= 25)%nat).
  { destruct (Nat.le_gt_cases j 25) as [|Hbig]; [done|].
    assert (256 ^ 28 <= 256 ^ Z.of_nat (2 + j)) by (apply Z.pow_le_mono_r; lia).
    specialize (Hge ltac:(lia)). change (256 ^ 28) with (2 ^ 224) in *. lia. }
  rewrite hex_fixed_length.
  replace (Z.of_nat (2 * (3 + j)) / 2) with (3 + Z.of_nat j)
    by (rewrite Nat2Z.inj_mul, Z.mul_comm, Z.div_mul by lia; lia).
  replace (2 * (3 + j))%nat with (6 + 2 * j)%nat by lia.
  rewrite (hex_fixed_split 6 (2 * j) target), pow256.
  rewrite take_app_length' by (by rewrite hex_fixed_length).
  rewrite int16_hex_fixed by lia. change (16 ^ Z.of_nat 6) with (2 ^ 24).
  set (M := 256 ^ Z.of_nat j) in *.
  assert (HM : 0 < M) by (apply Z.pow_pos_nonneg; lia).
  assert (Hpow : 256 ^ Z.of_nat (3 + j) = 2 ^ 24 * M).
  { unfold M. rewrite Nat2Z.inj_add, Z.pow_add_r by lia. done. }
  set (B0 := target / M).
  assert (HB0 : 0 <= B0 < 2 ^ 24).
  { unfold B0. split; [apply Z.div_pos; lia|]. apply Z.div_lt_upper_bound; lia. }
  assert (HB0lo : 2 ^ 15 <= B0).
  { unfold B0. apply Z.div_le_lower_bound; [lia|].
    destruct (Nat.eq_dec j 0%nat) as [Hj0|Hj0].
    - unfold M. rewrite Hj0. change (256 ^ Z.of_nat 0) with 1. lia.
    - specialize (Hge Hj0). replace (Z.of_nat (2 + j)) with (2 + Z.of_nat j) in Hge by lia.
      rewrite Z.pow_add_r in Hge by lia. fold M in Hge. lia. }
  rewrite Z.mod_small by done.
  assert (Hdm : target = M * B0 + target mod M) by (apply Z.div_mod; lia).
  pose proof (Z.mod_pos_bound target M HM) as Hmod.
  destruct (Z.leb_spec 0x800000 B0) as [Hsign|Hsign].
  - set (B := Z.shiftr B0 8).
    assert (HB : B = B0 / 256) by (unfold B; by rewrite Z.shiftr_div_pow2 by lia).
    assert (HBr : 2 ^ 15 <= B < 2 ^ 16).
    { rewrite HB. split; [apply Z.div_le_lower_bound; lia|].
      apply Z.div_lt_upper_bound; lia. }
    exists ((3 + Z.of_nat j + 1) * 2 ^ 24 + B), (B * 256 ^ (3 + Z.of_nat j + 1 - 3)).
    split; [by rewrite compact_value by lia|].
    split; [apply bits_to_target_compact; lia|].
    replace (3 + Z.of_nat j + 1 - 3) with (1 + Z.of_nat j) by lia.
    rewrite Z.pow_add_r by lia. fold M. change (256 ^ 1) with 256.
    assert (Hd2 : B0 = 256 * B + B0 mod 256) by (rewrite HB; apply Z.div_mod; lia).
    pose proof (Z.mod_pos_bound B0 256 ltac:(lia)). nia.
  - exists ((3 + Z.of_nat j) * 2 ^ 24 + B0), (B0 * 256 ^ (3 + Z.of_nat j - 3)).
    split; [by rewrite compact_value by lia|].
    split; [apply bits_to_target_compact; lia|].
    replace (3 + Z.of_nat j - 3) with (Z.of_nat j) by lia. fold M. nia.
Qed.

Lemma target_to_bits_rounds_down_witness :
  2 ^ 15 <= 2 ^ 200 + 12345 < 2 ^ 224 /\
  exists bits target',
    target_to_bits (2 ^ 200 + 12345) = Ok bits /\
    bits_to_target bits = Ok target' /\
    target' <= 2 ^ 200 + 12345 /\
    2 ^ 15 * (2 ^ 200 + 12345 - target') < target'.
Proof.
  assert (H1 : 2 ^ 15 <= 2 ^ 200 + 12345 < 2 ^ 224)
    by (vm_compute; split; [discriminate|reflexivity]).
  split; [exact H1|]. apply (target_to_bits_rounds_down (2 ^ 200 + 12345)). exact H1.
Defined.

(** ** Start-up *)

Lemma insert_by_parent_elem x y l : y ∈ insert_by_parent x l <-> y = x \/ y ∈ l.
Proof.
  induction l as [|z l IH]; cbn [insert_by_parent].
  - rewrite list_elem_of_singleton, elem_of_nil. tauto.
  - destruct (fst x <=? fst z); rewrite !elem_of_cons; rewrite ?IH; tauto.
Qed.

Lemma sorted_by_parent_elem y l : y ∈ sorted_by_parent l <-> y ∈ l.
Proof.
  induction l as [|x l IH]; cbn [sorted_by_parent foldr]; [done|].
  fold (sorted_by_parent l). rewrite insert_by_parent_elem, elem_of_cons, IH. tauto.
Qed.

Lemma Blockchain_init_files w r c p : files (Blockchain_init w r c p) = files w.
Proof. unfold Blockchain_init. by rewrite update_size_files. Qed.

Lemma read_forks_uncounted ext net recursion_limit l : forall w r p c content,
  (p, c) ∈ l ->
  files w !! Some (p, c) = Some content ->
  count_records content = 0 ->
  exists w' e, read_forks ext net recursion_limit w r l = Failed w' e.
Proof.
  induction l as [|[p0 c0] l IH]; intros w r p c content Hin Hfile Hcount.
  { by apply elem_of_nil in Hin. }
  cbn [read_forks]. cbn zeta.
  set (w1 := Blockchain_init w r c0 (Some p0)).
  assert (Hfiles1 : files w1 = files w) by apply Blockchain_init_files.
  apply elem_of_cons in Hin. destruct Hin as [[= <- <-]|Hin].
  - (* the file that counts no record *)
    assert (Hobj : objs w1 r = mkBlockchain c (Some p) 0 None).
    { unfold w1, Blockchain_init. erewrite update_size_object.
      - cbn [objs set_obj]. destruct (decide (r = r)); [|done].
        unfold set_size. cbn. by rewrite Hcount.
      - cbn [objs set_obj files]. destruct (decide (r = r)); [|done]. exact Hfile. }
    rewrite Hobj. cbn [checkpoint].
    assert (Hread : read_header recursion_limit w1 r c = Ok None \/
                    exists e, read_header recursion_limit w1 r c = Raise e).
    { unfold read_header. destruct recursion_limit as [|n]; [right; by eexists|].
      cbn [read_header_rec]. cbn zeta. rewrite Hobj. cbn [parent_id checkpoint].
      destruct (bool_decide _); [right; by eexists|].
      destruct (Z.ltb_spec c 0); [by left|].
      rewrite Z.ltb_irrefl. unfold height, size. rewrite Hobj. cbn [checkpoint _size].
      destruct (Z.ltb_spec (c + 0 - 1) c); [by left|lia]. }
    destruct Hread as [->|[e ->]]; [|by eexists _, _].
    destruct (parent w1 r); by eexists _, _.
  - destruct (read_header _ _ _ _) as [h|]; [|by eexists _, _].
    destruct (parent w1 r) as [q|]; [|by eexists _, _].
    destruct h as [h|]; [|by eexists _, _].
    destruct (can_connect _ _ _ _ _ _ _) as [[]|]; [| |by eexists _, _].
    + eapply (IH _ _ p c content); [done| |done]. cbn [files set_registry]. by rewrite Hfiles1.
    + eapply (IH _ _ p c content); [done| |done]. by rewrite Hfiles1.
Qed.

(** X28: when the forks directory lists a file that consists of at most
    one complete record, as the file that [fork] has just written does,
    [read_blockchains] raises: unless an earlier step has raised already,
    the size of that segment is 0, the header at its checkpoint is above
    its tip, and [can_connect] subscripts the [None] that [read_header]
    returns. *)
Theorem read_blockchains_uncounted_fork ext net recursion_limit w r listing p c rs :
  (p, c) ∈ listing ->
  files w !! Some (p, c) = Some (concat rs) ->
  Forall is_record rs ->
  (length rs <= 1)%nat ->
  exists w' e, read_blockchains ext net recursion_limit w r listing = Failed w' e.
Proof.
  intros Hin Hfile Hrs Hlen. unfold read_blockchains.
  apply (read_forks_uncounted _ _ _ _ _ _ p c (concat rs)).
  - by apply sorted_by_parent_elem.
  - cbn [files set_registry]. by rewrite Blockchain_init_files.
  - rewrite count_records_complete by done. lia.
Qed.

Lemma read_blockchains_uncounted_fork_witness :
  (0, 1) ∈ [(0, 1)] /\
  files fork_world !! Some (0, 1) = Some (concat [sample_record 21]) /\
  Forall is_record [sample_record 21] /\
  (length [sample_record 21] <= 1)%nat /\
  exists w' e,
    read_blockchains sample_ext sample_net 1000 fork_world 2%nat [(0, 1)] = Failed w' e.
Proof.
  assert (H1 : (0, 1) ∈ [(0, 1)]) by (by left).
  assert (H2 : files fork_world !! Some (0, 1) = Some (concat [sample_record 21]))
    by (vm_compute; reflexivity).
  assert (H3 : Forall is_record [sample_record 21])
    by (constructor; [apply sample_record_is_record | constructor]).
  assert (H4 : (length [sample_record 21] <= 1)%nat) by (cbn; lia).
  split; [exact H1|]. split; [exact H2|]. split; [exact H3|]. split; [exact H4|].
  apply (read_blockchains_uncounted_fork sample_ext sample_net 1000 fork_world 2%nat
           [(0, 1)] 0 1 [sample_record 21]);
    [exact H1 | exact H2 | exact H3 | exact H4].
Defined.
